(** * The nozzle wipe engine of Octolapse (gcode_wiper.cpp)

    A shallow embedding of [gcode_wiper] and the proofs of the properties
    that its specification states.  The engine keeps a distance-bounded
    history of extruding moves, a starting position (the anchor) with a
    single-level undo snapshot, and generates the wipe steps on demand.

    Layout: the arithmetic of the C++ [double] (as an interface with two
    instances: IEEE binary64 and exact real arithmetic), the collaborators
    declared in headers (positions, steps, utilities, the history
    container), the object store, the member functions in source order,
    and then the theorems. *)

From Stdlib Require Import ZArith Bool List Floats Uint63 Reals Lra.
From stdpp Require Import gmap list.

Set Warnings "-inexact-float".

(** ** The arithmetic of [double] *)

(** The operations that gcode_wiper.cpp applies to values of type [double].
    [of_Z] is the conversion of an [int] (or of a [bool], through 0 and 1)
    to [double]; [half] is the literal [0.5]. *)
Class Double := {
  double : Type;
  of_Z : Z -> double;
  half : double;
  dadd : double -> double -> double;
  dsub : double -> double -> double;
  dmul : double -> double -> double;
  ddiv : double -> double -> double;
  dsqrt : double -> double;
  dfabs : double -> double;
  dlt : double -> double -> bool;
  deq : double -> double -> bool
}.

Declare Scope double_scope.
Delimit Scope double_scope with D.
Bind Scope double_scope with double.
Notation "a + b" := (dadd a b) : double_scope.
Notation "a - b" := (dsub a b) : double_scope.
Notation "a * b" := (dmul a b) : double_scope.
Notation "a / b" := (ddiv a b) : double_scope.
Notation "a <? b" := (dlt a b) : double_scope.
Notation "a >? b" := (dlt b a) : double_scope.
Notation "a =? b" := (deq a b) : double_scope.

(** Conversion of a [bool] to [double], as in [use_full_wipe_ - total_distance_]
    and [previous_total_distance_ = false]. *)
Definition of_bool `{Double} (b : bool) : double := of_Z (if b then 1 else 0).

(** IEEE 754 binary64, the [double] of the compiled program. *)
Definition float_of_Z (z : Z) : float :=
  if (z <? 0)%Z then PrimFloat.opp (PrimFloat.of_uint63 (Uint63.of_Z (- z)))
  else PrimFloat.of_uint63 (Uint63.of_Z z).

#[export] Instance binary64 : Double := {|
  double := float;
  of_Z := float_of_Z;
  half := 0.5%float;
  dadd := PrimFloat.add;
  dsub := PrimFloat.sub;
  dmul := PrimFloat.mul;
  ddiv := PrimFloat.div;
  dsqrt := PrimFloat.sqrt;
  dfabs := PrimFloat.abs;
  dlt := PrimFloat.ltb;
  deq := PrimFloat.eqb
|}.

(** Exact arithmetic over the real numbers: the same program read without
    rounding.  Division by zero is left to [Rdiv]. *)
Definition Rltb (a b : R) : bool := if Rlt_dec a b then true else false.
Definition Reqb (a b : R) : bool := if Req_dec_T a b then true else false.

Definition exact : Double := {|
  double := R;
  of_Z := IZR;
  half := (/ 2)%R;
  dadd := Rplus;
  dsub := Rminus;
  dmul := Rmult;
  ddiv := Rdiv;
  dsqrt := sqrt;
  dfabs := Rabs;
  dlt := Rltb;
  deq := Reqb
|}.

(** ** Collaborators declared in the headers *)

(** Modelled from the spec: the comparison and distance primitives of
    utilities.h, which gcode_wiper.cpp calls and whose source is not part of
    this file.  They are an interface here; [tolerance_utilities] below is the
    implementation that the specification describes. *)
Class Utilities `{Double} := {
  is_zero : double -> bool;
  is_equal : double -> double -> bool;
  less_than : double -> double -> bool;
  greater_than : double -> double -> bool;
  greater_than_or_equal : double -> double -> bool;
  get_cartesian_distance : double -> double -> double -> double -> double
}.

(** Modelled from the spec: utilities.h as the specification describes it,
    "floating-point equality with tolerance" and the cartesian distance of
    two points, with the tolerance as a parameter. *)
Definition tolerance_utilities `{Double} (ZERO_TOLERANCE : double) : Utilities := {|
  is_zero := fun a => (dfabs a <? ZERO_TOLERANCE)%D;
  is_equal := fun a b => (dfabs (a - b) <? ZERO_TOLERANCE)%D;
  less_than := fun a b => (a <? b)%D && negb (dfabs (a - b) <? ZERO_TOLERANCE)%D;
  greater_than := fun a b => (a >? b)%D && negb (dfabs (a - b) <? ZERO_TOLERANCE)%D;
  greater_than_or_equal := fun a b => (a >? b)%D || (dfabs (a - b) <? ZERO_TOLERANCE)%D;
  get_cartesian_distance := fun x1 y1 x2 y2 =>
    let xdif := (x1 - x2)%D in
    let ydif := (y1 - y2)%D in
    dsqrt (xdif * xdif + ydif * ydif)%D
|}.

(** A [gcode_wiper_position*] is null, or the address of an object that the
    wiper allocated with [new], or the slot of an entry that the history
    owns. *)
Inductive location :=
| heap_loc (a : positive)
| history_loc (i : nat).

#[export] Instance location_eq_dec : EqDecision location.
Proof. solve_decision. Defined.

Abbreviation pointer := (option location).
Abbreviation NULL := (@None location).

Section Wiper.
Context `{U : Utilities}.
Local Open Scope double_scope.

(** Modelled from the spec: the macro [wipe_distance_to_retraction_] of
    gcode_wiper.h, the retraction that a wipe distance consumes: the distance
    times [distance_to_retraction_ratio]. *)
Definition wipe_distance_to_retraction_ (distance ratio : double) : double :=
  distance * ratio.

(** Modelled from the spec: [position] of position.h, an observed position
    of the print head (the Position of the data model). *)
Record position := {
  x_ : double;
  y_ : double;
  offset_x_ : double;
  offset_y_ : double;
  offset_e_ : double;
  is_relative_ : bool;
  is_extruder_relative_ : bool;
  is_extruding_ : bool;
  has_xy_position_changed_ : bool;
  is_layer_change_ : bool
}.

(** Modelled from the spec: [gcode_wiper_position] of gcode_wiper.h, the part
    of a position that the wiper records.  [get_offset_x], [get_offset_y] and
    [get_offset_e] are its accessors for the offset coordinates. *)
Record gcode_wiper_position := {
  x : double;
  y : double;
  get_offset_x : double;
  get_offset_y : double;
  get_offset_e : double;
  is_relative : bool;
  is_extruder_relative : bool
}.

(** [gcode_wiper_position(position&)]. *)
Definition gcode_wiper_position_of (p : position) : gcode_wiper_position := {|
  x := x_ p;
  y := y_ p;
  get_offset_x := offset_x_ p;
  get_offset_y := offset_y_ p;
  get_offset_e := offset_e_ p;
  is_relative := is_relative_ p;
  is_extruder_relative := is_extruder_relative_ p
|}.

(** Modelled from the spec: [gcode_wiper_step] of gcode_wiper.h, "either a
    motion step or a retract-only step"; one constructor per C++
    constructor: [(x, y, e, f)], [(x, y, f)] and [(e, f)]. *)
Inductive gcode_wiper_step :=
| step_xyef (sx sy se sf : double)
| step_xyf (sx sy sf : double)
| step_ef (se sf : double).

Definition is_retract_only (s : gcode_wiper_step) : bool :=
  match s with step_ef _ _ => true | _ => false end.

(** Modelled from the spec: [gcode_wiper_args] of gcode_wiper.h, the
    settings (the WipeSettings of the data model). *)
Record gcode_wiper_args := {
  retraction_length : double;
  retract_before_wipe_percent : double;
  retract_after_wipe_percent : double;
  retraction_feedrate : double;
  wipe_feedrate : double;
  x_y_travel_speed : double
}.

(** Modelled from the spec: the history container of gcode_wiper.h, "an
    ordered, distance-bounded buffer of recently observed positions" with
    append, removal from the front, peek and a single-level undo snapshot.
    [positions] is the vector that [get_position_history] hands out, oldest
    first, and [start_index] the index of the oldest kept entry: an entry
    removed from the front stays in the vector until the next [push_back] or
    [clear]. *)
Record position_history := {
  positions : list gcode_wiper_position;
  start_index : nat;
  undo_snapshot : option (list gcode_wiper_position * nat)
}.

(** An empty history, with no snapshot. *)
Definition history_new : position_history :=
  {| positions := []; start_index := 0; undo_snapshot := None |}.

(** [history_.size()]: the number of kept entries, as an [int]. *)
Definition history_size (h : position_history) : Z :=
  Z.of_nat (length (positions h)) - Z.of_nat (start_index h).

(** [history_.clear()]: no entry is kept; the entries before the call are
    the snapshot. *)
Definition history_clear (h : position_history) : position_history :=
  {| positions := []; start_index := 0;
     undo_snapshot := Some (positions h, start_index h) |}.

(** [history_.push_back(p)]: the removed entries leave the vector and [p]
    is appended; the entries before the call are the snapshot. *)
Definition history_push_back (p : position) (h : position_history) : position_history :=
  {| positions := drop (start_index h) (positions h) ++ [gcode_wiper_position_of p];
     start_index := 0;
     undo_snapshot := Some (positions h, start_index h) |}.

(** [history_.remove()]: the oldest kept entry is not kept any more. *)
Definition history_remove (h : position_history) : position_history :=
  {| positions := positions h; start_index := S (start_index h);
     undo_snapshot := undo_snapshot h |}.

(** [history_.undo()]: back to the snapshot, which is used up. *)
Definition history_undo (h : position_history) : position_history :=
  match undo_snapshot h with
  | Some (ps, i) => {| positions := ps; start_index := i; undo_snapshot := None |}
  | None => h
  end.

(** [history_.get_position_history(start_index)]: the vector, and the index
    of the oldest kept entry through the reference argument. *)
Definition get_position_history (h : position_history) : list gcode_wiper_position * Z :=
  (positions h, Z.of_nat (start_index h)).

(** ** The object store *)

(** [positions[index]] on the vector of entries; out of range it is not a
    valid pointer. *)
Definition position_at (ps : list gcode_wiper_position) (index : Z) : pointer :=
  if (0 <=? index)%Z && (index <? Z.of_nat (length ps))%Z
  then Some (history_loc (Z.to_nat index)) else NULL.

(** [history_.peek()]: the oldest kept entry. *)
Definition history_peek (h : position_history) : pointer :=
  position_at (positions h) (Z.of_nat (start_index h)).

(** ** The engine state *)

Record gcode_wiper := {
  settings_ : gcode_wiper_args;
  total_distance_ : double;
  previous_total_distance_ : double;
  p_starting_position_ : pointer;
  p_previous_starting_position_ : pointer;
  is_initialized_ : bool;
  use_full_wipe_ : bool;
  pre_wipe_retract_length_ : double;
  post_wipe_retract_length_ : double;
  distance_to_retraction_ratio_ : double;
  wipe_distance_ : double;
  half_wipe_distance_ : double;
  history_ : position_history;
  heap_ : gmap positive gcode_wiper_position
}.

Definition set_total_distance (w : gcode_wiper) (v : double) : gcode_wiper :=
  {| settings_ := settings_ w; total_distance_ := v;
     previous_total_distance_ := previous_total_distance_ w;
     p_starting_position_ := p_starting_position_ w;
     p_previous_starting_position_ := p_previous_starting_position_ w;
     is_initialized_ := is_initialized_ w; use_full_wipe_ := use_full_wipe_ w;
     pre_wipe_retract_length_ := pre_wipe_retract_length_ w;
     post_wipe_retract_length_ := post_wipe_retract_length_ w;
     distance_to_retraction_ratio_ := distance_to_retraction_ratio_ w;
     wipe_distance_ := wipe_distance_ w; half_wipe_distance_ := half_wipe_distance_ w;
     history_ := history_ w; heap_ := heap_ w |}.

Definition set_previous_total_distance (w : gcode_wiper) (v : double) : gcode_wiper :=
  {| settings_ := settings_ w; total_distance_ := total_distance_ w;
     previous_total_distance_ := v;
     p_starting_position_ := p_starting_position_ w;
     p_previous_starting_position_ := p_previous_starting_position_ w;
     is_initialized_ := is_initialized_ w; use_full_wipe_ := use_full_wipe_ w;
     pre_wipe_retract_length_ := pre_wipe_retract_length_ w;
     post_wipe_retract_length_ := post_wipe_retract_length_ w;
     distance_to_retraction_ratio_ := distance_to_retraction_ratio_ w;
     wipe_distance_ := wipe_distance_ w; half_wipe_distance_ := half_wipe_distance_ w;
     history_ := history_ w; heap_ := heap_ w |}.

Definition set_p_starting_position (w : gcode_wiper) (p : pointer) : gcode_wiper :=
  {| settings_ := settings_ w; total_distance_ := total_distance_ w;
     previous_total_distance_ := previous_total_distance_ w;
     p_starting_position_ := p;
     p_previous_starting_position_ := p_previous_starting_position_ w;
     is_initialized_ := is_initialized_ w; use_full_wipe_ := use_full_wipe_ w;
     pre_wipe_retract_length_ := pre_wipe_retract_length_ w;
     post_wipe_retract_length_ := post_wipe_retract_length_ w;
     distance_to_retraction_ratio_ := distance_to_retraction_ratio_ w;
     wipe_distance_ := wipe_distance_ w; half_wipe_distance_ := half_wipe_distance_ w;
     history_ := history_ w; heap_ := heap_ w |}.

Definition set_p_previous_starting_position (w : gcode_wiper) (p : pointer) : gcode_wiper :=
  {| settings_ := settings_ w; total_distance_ := total_distance_ w;
     previous_total_distance_ := previous_total_distance_ w;
     p_starting_position_ := p_starting_position_ w;
     p_previous_starting_position_ := p;
     is_initialized_ := is_initialized_ w; use_full_wipe_ := use_full_wipe_ w;
     pre_wipe_retract_length_ := pre_wipe_retract_length_ w;
     post_wipe_retract_length_ := post_wipe_retract_length_ w;
     distance_to_retraction_ratio_ := distance_to_retraction_ratio_ w;
     wipe_distance_ := wipe_distance_ w; half_wipe_distance_ := half_wipe_distance_ w;
     history_ := history_ w; heap_ := heap_ w |}.

Definition set_use_full_wipe (w : gcode_wiper) (b : bool) : gcode_wiper :=
  {| settings_ := settings_ w; total_distance_ := total_distance_ w;
     previous_total_distance_ := previous_total_distance_ w;
     p_starting_position_ := p_starting_position_ w;
     p_previous_starting_position_ := p_previous_starting_position_ w;
     is_initialized_ := is_initialized_ w; use_full_wipe_ := b;
     pre_wipe_retract_length_ := pre_wipe_retract_length_ w;
     post_wipe_retract_length_ := post_wipe_retract_length_ w;
     distance_to_retraction_ratio_ := distance_to_retraction_ratio_ w;
     wipe_distance_ := wipe_distance_ w; half_wipe_distance_ := half_wipe_distance_ w;
     history_ := history_ w; heap_ := heap_ w |}.

Definition set_history (w : gcode_wiper) (h : position_history) : gcode_wiper :=
  {| settings_ := settings_ w; total_distance_ := total_distance_ w;
     previous_total_distance_ := previous_total_distance_ w;
     p_starting_position_ := p_starting_position_ w;
     p_previous_starting_position_ := p_previous_starting_position_ w;
     is_initialized_ := is_initialized_ w; use_full_wipe_ := use_full_wipe_ w;
     pre_wipe_retract_length_ := pre_wipe_retract_length_ w;
     post_wipe_retract_length_ := post_wipe_retract_length_ w;
     distance_to_retraction_ratio_ := distance_to_retraction_ratio_ w;
     wipe_distance_ := wipe_distance_ w; half_wipe_distance_ := half_wipe_distance_ w;
     history_ := h; heap_ := heap_ w |}.

Definition set_heap (w : gcode_wiper) (m : gmap positive gcode_wiper_position) : gcode_wiper :=
  {| settings_ := settings_ w; total_distance_ := total_distance_ w;
     previous_total_distance_ := previous_total_distance_ w;
     p_starting_position_ := p_starting_position_ w;
     p_previous_starting_position_ := p_previous_starting_position_ w;
     is_initialized_ := is_initialized_ w; use_full_wipe_ := use_full_wipe_ w;
     pre_wipe_retract_length_ := pre_wipe_retract_length_ w;
     post_wipe_retract_length_ := post_wipe_retract_length_ w;
     distance_to_retraction_ratio_ := distance_to_retraction_ratio_ w;
     wipe_distance_ := wipe_distance_ w; half_wipe_distance_ := half_wipe_distance_ w;
     history_ := history_ w; heap_ := m |}.

(** [*p]: reading through a pointer; [None] when [p] is null or dangling. *)
Definition deref (w : gcode_wiper) (p : pointer) : option gcode_wiper_position :=
  match p with
  | None => None
  | Some (heap_loc a) => heap_ w !! a
  | Some (history_loc i) => positions (history_ w) !! i
  end.

(** [new gcode_wiper_position(v)]: a fresh address. *)
Definition new_position (v : gcode_wiper_position) (w : gcode_wiper) : pointer * gcode_wiper :=
  let a := fresh (dom (heap_ w)) in
  (Some (heap_loc a), set_heap w (<[a := v]> (heap_ w))).

(** [delete p]: nothing for a null pointer, and undefined ([None]) for a
    pointer that is not a live object of the heap. *)
Definition delete_position (p : pointer) (w : gcode_wiper) : option gcode_wiper :=
  match p with
  | None => Some w
  | Some (heap_loc a) =>
      match heap_ w !! a with
      | Some _ => Some (set_heap w (delete a (heap_ w)))
      | None => None
      end
  | Some (history_loc _) => None
  end.

(** ** Divisions

    [initialize] and [clip_wipe_path] divide.  A computation of type
    [traced A] returns its result with the divisors of the divisions it has
    performed, in order. *)
Definition traced (A : Type) : Type := A * list double.

Definition traced_ret {A : Type} (a : A) : traced A := (a, []).

Definition traced_bind {A B : Type} (m : traced A) (k : A -> traced B) : traced B :=
  let r := k (fst m) in (fst r, snd m ++ snd r).

Definition divide (a b : double) : traced double := (a / b, [b]).

Notation "'do' v <- m ; k" := (traced_bind m (fun v => k))
  (at level 10, v name, m at level 100, k at level 200, only parsing).

(** ** Construction and initialization *)

(** The members that [gcode_wiper()] leaves uninitialized. *)
Record indeterminate := {
  any_pre_wipe_retract_length : double;
  any_post_wipe_retract_length : double;
  any_distance_to_retraction_ratio : double;
  any_wipe_distance : double;
  any_half_wipe_distance : double
}.

(** [gcode_wiper::gcode_wiper()], with [args] the default-constructed
    settings. *)
Definition gcode_wiper_new (args : gcode_wiper_args) (u : indeterminate) : gcode_wiper :=
  {| settings_ := args;
     total_distance_ := of_Z 0;
     previous_total_distance_ := of_Z 0;
     p_starting_position_ := NULL;
     p_previous_starting_position_ := NULL;
     is_initialized_ := false;
     use_full_wipe_ := true;
     pre_wipe_retract_length_ := any_pre_wipe_retract_length u;
     post_wipe_retract_length_ := any_post_wipe_retract_length u;
     distance_to_retraction_ratio_ := any_distance_to_retraction_ratio u;
     wipe_distance_ := any_wipe_distance u;
     half_wipe_distance_ := any_half_wipe_distance u;
     history_ := history_new;
     heap_ := ∅ |}.

(** The first two statements of [initialize]: a percentage that is
    [less_than] 0 is set to 0. *)
Definition clamp_percent (percent : double) : double :=
  if less_than percent (of_Z 0) then of_Z 0 else percent.

(** [gcode_wiper::initialize()], with its divisions recorded. *)
Definition initialize_traced (w : gcode_wiper) : traced gcode_wiper :=
  let s := settings_ w in
  let before := clamp_percent (retract_before_wipe_percent s) in
  let after := clamp_percent (retract_after_wipe_percent s) in
  let total_retraction_percent := before + after in
  do percents <-
    (if greater_than total_retraction_percent (of_Z 1)
        && negb (is_zero total_retraction_percent)
     then
       do reduction_ratio <- divide (of_Z 1) total_retraction_percent;
       traced_ret (reduction_ratio * before, reduction_ratio * after)
     else traced_ret (before, after));
  let before := fst percents in
  let after := snd percents in
  let pre_wipe_retract_length := retraction_length s * before in
  let post_wipe_retract_length := retraction_length s * after in
  let wipe_retraction_length :=
    retraction_length s - pre_wipe_retract_length - post_wipe_retract_length in
  do wipe_retraction_speed_ratio <- divide (wipe_feedrate s) (retraction_feedrate s);
  let wipe_distance := wipe_retraction_length * wipe_retraction_speed_ratio in
  do ratio <-
    divide (retraction_length s - pre_wipe_retract_length - post_wipe_retract_length)
           wipe_distance;
  traced_ret
    {| settings_ :=
         {| retraction_length := retraction_length s;
            retract_before_wipe_percent := before;
            retract_after_wipe_percent := after;
            retraction_feedrate := retraction_feedrate s;
            wipe_feedrate := wipe_feedrate s;
            x_y_travel_speed := x_y_travel_speed s |};
       total_distance_ := total_distance_ w;
       previous_total_distance_ := previous_total_distance_ w;
       p_starting_position_ := p_starting_position_ w;
       p_previous_starting_position_ := p_previous_starting_position_ w;
       is_initialized_ := true;
       use_full_wipe_ := use_full_wipe_ w;
       pre_wipe_retract_length_ := pre_wipe_retract_length;
       post_wipe_retract_length_ := post_wipe_retract_length;
       distance_to_retraction_ratio_ := ratio;
       wipe_distance_ := wipe_distance;
       half_wipe_distance_ := wipe_distance * half;
       history_ := history_ w;
       heap_ := heap_ w |}.

Definition initialize (w : gcode_wiper) : gcode_wiper := fst (initialize_traced w).

(** [gcode_wiper::gcode_wiper(gcode_wiper_args args)]. *)
Definition gcode_wiper_new_args (args : gcode_wiper_args) (u : indeterminate) : gcode_wiper :=
  initialize (gcode_wiper_new args u).

(** ** Undo *)

Definition pointer_eqb (p q : pointer) : bool := bool_decide (p = q).

(** [gcode_wiper::save_undo_data()]. *)
Definition save_undo_data (w : gcode_wiper) : option gcode_wiper :=
  w1 ← (if negb (pointer_eqb (p_previous_starting_position_ w) NULL)
           && negb (pointer_eqb (p_previous_starting_position_ w) (p_starting_position_ w))
        then delete_position (p_previous_starting_position_ w) w
        else Some w);
  let w2 := set_p_previous_starting_position w1 (p_starting_position_ w1) in
  Some (set_previous_total_distance w2 (total_distance_ w2)).

(** [gcode_wiper::restore_undo_data()]. *)
Definition restore_undo_data (w : gcode_wiper) : option gcode_wiper :=
  w1 ← (if negb (pointer_eqb (p_starting_position_ w) NULL)
           && negb (pointer_eqb (p_starting_position_ w) (p_previous_starting_position_ w))
        then delete_position (p_starting_position_ w) w
        else Some w);
  let w2 := set_p_starting_position w1 (p_previous_starting_position_ w1) in
  let w3 := set_p_previous_starting_position w2 NULL in
  let w4 := set_total_distance w3 (previous_total_distance_ w3) in
  Some (set_previous_total_distance w4 (of_bool false)).

(** [gcode_wiper::undo()]. *)
Definition undo (w : gcode_wiper) : option gcode_wiper :=
  w1 ← restore_undo_data w;
  Some (set_history w1 (history_undo (history_ w1))).

(** ** Accessors *)

(** [gcode_wiper::get_wipe_distance()]. *)
Definition get_wipe_distance (w : gcode_wiper) : double :=
  if use_full_wipe_ w then wipe_distance_ w else half_wipe_distance_ w.

(** [gcode_wiper::get_missing_retraction()].  In the first branch the source
    subtracts from [use_full_wipe_], a [bool]. *)
Definition get_missing_retraction (w : gcode_wiper) : double :=
  if use_full_wipe_ w then
    wipe_distance_to_retraction_
      (of_bool (use_full_wipe_ w) - total_distance_ w) (distance_to_retraction_ratio_ w)
  else
    wipe_distance_to_retraction_
      ((half_wipe_distance_ w - total_distance_ w) * of_Z 2) (distance_to_retraction_ratio_ w).

(** [gcode_wiper::get_extra_retraction()]. *)
Definition get_extra_retraction (w : gcode_wiper) : double :=
  if use_full_wipe_ w then total_distance_ w - wipe_distance_ w
  else total_distance_ w - half_wipe_distance_ w.

(** ** Pruning *)

(** The end of the loop body of [prune_history], after the [break]: the
    front item becomes the starting position and leaves the history. *)
Definition prune_front (w : gcode_wiper) (front_item : gcode_wiper_position)
    (new_total_distance : double) : option gcode_wiper :=
  w1 ← (if negb (pointer_eqb (p_starting_position_ w) NULL)
           && negb (pointer_eqb (p_previous_starting_position_ w)
                                (p_starting_position_ w))
        then delete_position (p_starting_position_ w) w
        else Some w);
  let (p, w2) := new_position front_item w1 in
  let w3 := set_p_starting_position w2 p in
  let w4 := set_total_distance w3 new_total_distance in
  Some (set_history w4 (history_remove (history_ w4))).

(** The [while] loop of [prune_history].  Every iteration that does not
    leave the loop removes one entry, so [fuel] above the size of the history
    is never used up ([prune_loop_fuel]).  The flag [has_pruned_item] of the
    source is written and never read. *)
Fixpoint prune_loop (fuel : nat) (distance : double) (w : gcode_wiper) : option gcode_wiper :=
  if total_distance_ w >? distance then
    match fuel with
    | O => None
    | S fuel' =>
        front_item ← deref w (history_peek (history_ w));
        start ← deref w (p_starting_position_ w);
        let distance_removed :=
          get_cartesian_distance (x start) (y start) (x front_item) (y front_item) in
        let new_total_distance := total_distance_ w - distance_removed in
        if less_than new_total_distance distance then Some w
        else
          w' ← prune_front w front_item new_total_distance;
          prune_loop fuel' distance w'
    end
  else Some w.

(** [gcode_wiper::prune_history()]. *)
Definition prune_history (w : gcode_wiper) : option gcode_wiper :=
  prune_loop (S (Z.to_nat (history_size (history_ w)))) (get_wipe_distance w) w.

(** ** Update *)

(** The test of [update] for clearing the wipe queue: the layer has changed,
    or the move is not an extruding move in X and Y. *)
Definition clears_history (current_position : position) : bool :=
  is_layer_change_ current_position
  || negb (has_xy_position_changed_ current_position && is_extruding_ current_position).

(** [gcode_wiper::update(current_position, previous_position)]. *)
Definition update (current_position previous_position : position) (w : gcode_wiper)
  : option gcode_wiper :=
  if negb (is_initialized_ w) then Some w
  else
    w1 ← save_undo_data w;
    if clears_history current_position
    then
      let w2 := set_total_distance w1 (of_Z 0) in
      Some (set_history w2 (history_clear (history_ w2)))
    else
      w2 ← (if (history_size (history_ w1) =? 0)%Z then
              w' ← (if negb (pointer_eqb (p_starting_position_ w1) NULL)
                       && negb (pointer_eqb (p_starting_position_ w1)
                                            (p_previous_starting_position_ w1))
                    then delete_position (p_starting_position_ w1) w1
                    else Some w1);
              let (p, w'') := new_position (gcode_wiper_position_of previous_position) w' in
              Some (set_p_starting_position w'' p)
            else Some w1);
      let w3 := set_history w2 (history_push_back current_position (history_ w2)) in
      let w4 := set_previous_total_distance w3 (total_distance_ w3) in
      let w5 :=
        set_total_distance w4
          (total_distance_ w4
           + get_cartesian_distance (x_ previous_position) (y_ previous_position)
                                    (x_ current_position) (y_ current_position)) in
      prune_history w5.

(** ** Clipping *)

(** A store through a pointer to an object of the heap. *)
Definition write_position (w : gcode_wiper) (p : pointer) (v : gcode_wiper_position)
  : option gcode_wiper :=
  match p with
  | Some (heap_loc a) =>
      match heap_ w !! a with
      | Some _ => Some (set_heap w (<[a := v]> (heap_ w)))
      | None => None
      end
  | _ => None
  end.

Definition set_x (v : gcode_wiper_position) (d : double) : gcode_wiper_position :=
  {| x := d; y := y v; get_offset_x := get_offset_x v; get_offset_y := get_offset_y v;
     get_offset_e := get_offset_e v; is_relative := is_relative v;
     is_extruder_relative := is_extruder_relative v |}.

Definition set_y (v : gcode_wiper_position) (d : double) : gcode_wiper_position :=
  {| x := x v; y := d; get_offset_x := get_offset_x v; get_offset_y := get_offset_y v;
     get_offset_e := get_offset_e v; is_relative := is_relative v;
     is_extruder_relative := is_extruder_relative v |}.

(** [gcode_wiper::clip_wipe_path(distance_to_clip, from_position, to_position)]:
    the two pointers are passed by reference and come back pointing to the
    copies; the divisor of [kept_distance_ratio] is recorded. *)
Definition clip_wipe_path (distance_to_clip : double) (from_position to_position : pointer)
    (w : gcode_wiper) : option (traced (pointer * pointer * gcode_wiper)) :=
  from_value ← deref w from_position;
  let (from_position', w1) := new_position from_value w in
  to_value ← deref w1 to_position;
  let (to_position', w2) := new_position to_value w1 in
  from ← deref w2 from_position';
  to ← deref w2 to_position';
  let distance := get_cartesian_distance (x from) (y from) (x to) (y to) in
  let kept_distance_ratio := divide (distance - distance_to_clip) distance in
  let x_relative := (x to - x from) * fst kept_distance_ratio in
  let y_relative := (y to - y from) * fst kept_distance_ratio in
  w3 ← write_position w2 to_position' (set_x to (x from + x_relative));
  to' ← deref w3 to_position';
  w4 ← write_position w3 to_position' (set_y to' (y from + y_relative));
  Some ((from_position', to_position', w4), snd kept_distance_ratio).

(** ** Generation of the wipe steps *)

(** [gcode_wiper::get_retract_step(e, f)]. *)
Definition get_retract_step (e f : double) : gcode_wiper_step := step_ef e f.

(** [gcode_wiper::get_travel_step(x, y, f)]. *)
Definition get_travel_step (sx sy f : double) : gcode_wiper_step := step_xyf sx sy f.

(** [gcode_wiper::get_wipe_step]: the step and the new value of
    [current_offset_e], which is passed by reference. *)
Definition get_wipe_step (w : gcode_wiper) (start_position end_position : pointer)
    (retraction_relative current_offset_e feedrate : double) (is_return : bool)
  : option (gcode_wiper_step * double) :=
  end_value ← deref w end_position;
  xy ← (if is_relative end_value then
          start_value ← deref w start_position;
          Some (x end_value - x start_value, y end_value - y start_value)
        else Some (get_offset_x end_value, get_offset_y end_value));
  if negb (use_full_wipe_ w && is_return) then
    if is_extruder_relative end_value then
      Some (step_xyef (fst xy) (snd xy) (of_Z (-1) * retraction_relative) feedrate,
            current_offset_e)
    else
      let e := current_offset_e - retraction_relative in
      Some (step_xyef (fst xy) (snd xy) e feedrate, e)
  else Some (step_xyf (fst xy) (snd xy) feedrate, current_offset_e).

(** The local variables of [get_wipe_steps] that its loops change. *)
Record wipe_loop_state := {
  previous_position : pointer;
  current_position : pointer;
  current_offset_e : double;
  feedrate : double;
  wipe_steps : list gcode_wiper_step
}.

Section wipe_loops.
Variable w : gcode_wiper.
Variable positions_copy : list gcode_wiper_position.
Variable start_index' : Z.
Variables first_position start_position : pointer.
Variable has_pre_wipe_retract_length : bool.

(** The pointer that an iteration takes for [current_position]. *)
Definition current_at (index : Z) : pointer :=
  if (index =? start_index')%Z then first_position else position_at positions_copy index.

(** The body of the inner [for] loop; the [continue] of its first iteration
    is the first branch. *)
Definition wipe_loop_body (pass index : Z) (st : wipe_loop_state) : option wipe_loop_state :=
  let current := current_at index in
  if pointer_eqb (previous_position st) NULL then
    previous_value ← deref w current;
    let e := get_offset_e previous_value in
    let e := if has_pre_wipe_retract_length then e - pre_wipe_retract_length_ w else e in
    Some {| previous_position := current; current_position := current;
            current_offset_e := e; feedrate := feedrate st;
            wipe_steps := wipe_steps st |}
  else
    previous_value ← deref w (previous_position st);
    current_value ← deref w current;
    let segment_distance :=
      get_cartesian_distance (x previous_value) (y previous_value)
                             (x current_value) (y current_value) in
    let retraction_relative :=
      wipe_distance_to_retraction_ segment_distance (distance_to_retraction_ratio_ w) in
    r ← get_wipe_step w (previous_position st) current retraction_relative
                      (current_offset_e st) (feedrate st) (negb (pass =? 0)%Z);
    Some {| previous_position := current; current_position := current;
            current_offset_e := snd r; feedrate := of_Z (-1);
            wipe_steps := wipe_steps st ++ [fst r] |}.

(** The inner [for] loop, from its test. *)
Fixpoint wipe_loop (fuel : nat) (pass index step end_index : Z) (st : wipe_loop_state)
  : option wipe_loop_state :=
  if ((pass =? 0) && (index >? end_index) || (pass =? 1) && (index <? end_index))%Z then
    match fuel with
    | O => None
    | S fuel' =>
        st' ← wipe_loop_body pass index st;
        wipe_loop fuel' pass (index + step)%Z step end_index st'
    end
  else Some st.

(** One iteration of the outer [for] loop. *)
Definition wipe_pass (pass : Z) (st : wipe_loop_state) : option wipe_loop_state :=
  let size := Z.of_nat (length positions_copy) in
  let index := if (pass =? 0)%Z then (size - 1)%Z else (start_index' + 1)%Z in
  let step := if (pass =? 0)%Z then (-1)%Z else 1%Z in
  let end_index := if (pass =? 0)%Z then (start_index' - 1)%Z else size in
  st1 ← wipe_loop (S (length positions_copy)) pass index step end_index st;
  if (pass =? 0)%Z then
    previous_value ← deref w (previous_position st1);
    start_value ← deref w start_position;
    let segment_distance :=
      get_cartesian_distance (x previous_value) (y previous_value)
                             (x start_value) (y start_value) in
    let retraction_relative :=
      wipe_distance_to_retraction_ segment_distance (distance_to_retraction_ratio_ w) in
    r1 ← get_wipe_step w (previous_position st1) start_position retraction_relative
                       (current_offset_e st1) (feedrate st1) false;
    let feedrate' :=
      if use_full_wipe_ w then x_y_travel_speed (settings_ w) else of_Z (-1) in
    r2 ← get_wipe_step w start_position (previous_position st1) retraction_relative
                       (snd r1) feedrate' true;
    Some {| previous_position := previous_position st1;
            current_position := current_position st1;
            current_offset_e := snd r2; feedrate := feedrate';
            wipe_steps := wipe_steps st1 ++ [fst r1; fst r2] |}
  else Some st1.

End wipe_loops.

(** The part of [get_wipe_steps] that pushes the steps, once the positions
    are set: the pre-wipe retract, the two passes and the post-wipe retract. *)
Definition push_wipe_steps (w : gcode_wiper) (positions_copy : list gcode_wiper_position)
    (start_index' : Z) (first_position start_position : pointer)
    (post_wipe_retract_length : double) : option (list gcode_wiper_step) :=
  pre ←
    (if greater_than (pre_wipe_retract_length_ w) (of_Z 0) then
       last_position ←
         deref w (position_at positions_copy (Z.of_nat (length positions_copy) - 1));
       let feedrate := retraction_feedrate (settings_ w) in
       let e :=
         if is_extruder_relative last_position
         then of_Z (-1) * pre_wipe_retract_length_ w
         else get_offset_e last_position - pre_wipe_retract_length_ w in
       Some (true, [get_retract_step e feedrate])
     else Some (false, @nil gcode_wiper_step));
  let has_pre_wipe_retract_length : bool := fst pre in
  let st0 :=
    {| previous_position := NULL; current_position := NULL;
       current_offset_e := of_Z 0; feedrate := wipe_feedrate (settings_ w);
       wipe_steps := snd pre |} in
  st1 ← wipe_pass w positions_copy start_index' first_position start_position
                  has_pre_wipe_retract_length 0 st0;
  st2 ← wipe_pass w positions_copy start_index' first_position start_position
                  has_pre_wipe_retract_length 1 st1;
  if (post_wipe_retract_length >? of_Z 0)
     && negb (pointer_eqb (current_position st2) NULL)
  then
    let feedrate :=
      if negb (is_equal (retraction_feedrate (settings_ w)) (wipe_feedrate (settings_ w)))
      then retraction_feedrate (settings_ w) else feedrate st2 in
    current_value ← deref w (current_position st2);
    let e :=
      if is_extruder_relative current_value
      then of_Z (-1) * post_wipe_retract_length
      else current_offset_e st2 - post_wipe_retract_length in
    Some (wipe_steps st2 ++ [get_retract_step e feedrate])
  else Some (wipe_steps st2).

(** The first test of [get_wipe_steps]: no distance, no starting position
    or no entry. *)
Definition nothing_to_wipe (w : gcode_wiper) : bool :=
  let num_positions := history_size (history_ w) in
  (total_distance_ w =? of_Z 0) || pointer_eqb (p_starting_position_ w) NULL
  || (num_positions <? 1)%Z.

(** [gcode_wiper::get_wipe_steps(wipe_steps)]: the steps pushed onto
    [wipe_steps], the state afterwards, and the divisors of the divisions
    performed. *)
Definition get_wipe_steps (w : gcode_wiper)
  : option (traced (list gcode_wiper_step * gcode_wiper)) :=
  if nothing_to_wipe w
  then Some (traced_ret ([], w))
  else
    let start_position := p_starting_position_ w in
    let post_wipe_retract_length := post_wipe_retract_length_ w in
    let missing_retraction := get_missing_retraction w in
    let post_wipe_retract_length :=
      if greater_than_or_equal missing_retraction (of_Z 0)
      then post_wipe_retract_length + missing_retraction
      else post_wipe_retract_length in
    let (positions_copy, start_index') := get_position_history (history_ w) in
    let first_position := position_at positions_copy start_index' in
    let extra_distance := get_extra_retraction w in
    clipped ←
      (if greater_than extra_distance (of_Z 0) then
         r ← clip_wipe_path extra_distance first_position start_position w;
         Some (true, r)
       else Some (false, traced_ret (first_position, start_position, w)));
    let has_altered_positions : bool := fst clipped in
    let first_position := fst (fst (fst (snd clipped))) in
    let start_position := snd (fst (fst (snd clipped))) in
    let w1 := snd (fst (snd clipped)) in
    steps ← push_wipe_steps w1 positions_copy start_index' first_position start_position
                            post_wipe_retract_length;
    w2 ←
      (if has_altered_positions then
         w' ← delete_position start_position w1;
         delete_position first_position w'
       else Some w1);
    Some ((steps, w2), snd (snd clipped)).

(** The heap after [delete p]. *)
Definition heap_without (p : pointer) (m : gmap positive gcode_wiper_position)
  : gmap positive gcode_wiper_position :=
  match p with
  | Some (heap_loc a) => delete a m
  | _ => m
  end.

(** The members that only [initialize] and the caller set. *)
Definition configuration (w : gcode_wiper) :=
  (settings_ w, is_initialized_ w, use_full_wipe_ w, pre_wipe_retract_length_ w,
   post_wipe_retract_length_ w, distance_to_retraction_ratio_ w, wipe_distance_ w,
   half_wipe_distance_ w).

(** ** Reachable states *)

Definition set_settings (w : gcode_wiper) (args : gcode_wiper_args) : gcode_wiper :=
  {| settings_ := args; total_distance_ := total_distance_ w;
     previous_total_distance_ := previous_total_distance_ w;
     p_starting_position_ := p_starting_position_ w;
     p_previous_starting_position_ := p_previous_starting_position_ w;
     is_initialized_ := is_initialized_ w; use_full_wipe_ := use_full_wipe_ w;
     pre_wipe_retract_length_ := pre_wipe_retract_length_ w;
     post_wipe_retract_length_ := post_wipe_retract_length_ w;
     distance_to_retraction_ratio_ := distance_to_retraction_ratio_ w;
     wipe_distance_ := wipe_distance_ w; half_wipe_distance_ := half_wipe_distance_ w;
     history_ := history_ w; heap_ := heap_ w |}.

(** The states that a caller can bring the engine into: a constructor, then
    any sequence of the public operations that return. *)
Inductive reachable : gcode_wiper -> Prop :=
| reachable_new args u :
    reachable (gcode_wiper_new args u)
| reachable_new_args args u :
    reachable (gcode_wiper_new_args args u)
| reachable_initialize w args :
    reachable w -> reachable (initialize (set_settings w args))
| reachable_use_full_wipe w b :
    reachable w -> reachable (set_use_full_wipe w b)
| reachable_update w current_position previous_position w' :
    reachable w -> update current_position previous_position w = Some w' -> reachable w'
| reachable_undo w w' :
    reachable w -> undo w = Some w' -> reachable w'
| reachable_get_wipe_steps w r :
    reachable w -> get_wipe_steps w = Some r -> reachable (snd (fst r)).

(** A pointer of the engine is null or the address of a live object. *)
Definition live (w : gcode_wiper) (p : pointer) : Prop :=
  p = NULL \/ exists a, p = Some (heap_loc a) /\ is_Some (heap_ w !! a).

(** The invariant of the reachable states: the two anchors are null or
    live, and before [initialize] nothing has been recorded. *)
Record wf (w : gcode_wiper) : Prop := {
  wf_starting_position : live w (p_starting_position_ w);
  wf_previous_starting_position : live w (p_previous_starting_position_ w);
  wf_not_initialized :
    is_initialized_ w = false ->
    p_starting_position_ w = NULL /\ p_previous_starting_position_ w = NULL
    /\ total_distance_ w = of_Z 0 /\ previous_total_distance_ w = of_Z 0
    /\ history_ w = history_new
}.

(** ** The step sequence as the specification describes it *)

(** Section 4.5: the end [to] of a segment moved toward [from] by
    [distance_to_clip], "new to.x/y = from.x/y + (to.x/y - from.x/y) * ratio". *)
Definition clipped (distance_to_clip : double) (from to : gcode_wiper_position)
  : gcode_wiper_position :=
  let segment_length := get_cartesian_distance (x from) (y from) (x to) (y to) in
  let ratio := (segment_length - distance_to_clip) / segment_length in
  set_y (set_x to (x from + (x to - x from) * ratio)) (y from + (y to - y from) * ratio).

(** Section 4.6, step 5: the motion step from [from] to [to] and the running
    extrusion offset after it. *)
Definition motion_step (w : gcode_wiper) (from to : gcode_wiper_position)
    (retraction_relative offset_e f : double) (is_return : bool)
  : gcode_wiper_step * double :=
  let sx := if is_relative to then x to - x from else get_offset_x to in
  let sy := if is_relative to then y to - y from else get_offset_y to in
  if use_full_wipe_ w && is_return then (step_xyf sx sy f, offset_e)
  else if is_extruder_relative to
       then (step_xyef sx sy (of_Z (-1) * retraction_relative) f, offset_e)
       else (step_xyef sx sy (offset_e - retraction_relative) f,
             offset_e - retraction_relative).

Definition segment_retraction (w : gcode_wiper) (from to : gcode_wiper_position) : double :=
  wipe_distance_to_retraction_
    (get_cartesian_distance (x from) (y from) (x to) (y to))
    (distance_to_retraction_ratio_ w).

(** "One motion step per consecutive pair": from [from] through [path]; the
    feedrate [f] goes to the first step only. *)
Fixpoint wipe_segments (w : gcode_wiper) (is_return : bool) (from : gcode_wiper_position)
    (path : list gcode_wiper_position) (offset_e f : double)
  : list gcode_wiper_step * double :=
  match path with
  | [] => ([], offset_e)
  | to :: path' =>
      let r := motion_step w from to (segment_retraction w from to) offset_e f is_return in
      let rs := wipe_segments w is_return to path' (snd r) (of_Z (-1)) in
      (fst r :: fst rs, snd rs)
  end.

(** The feedrate variable after a walk along [path]. *)
Definition feedrate_after (path : list gcode_wiper_position) (f : double) : double :=
  match path with [] => f | _ => of_Z (-1) end.

(** The loop variables after the walk from [from] along [path], the last
    entry of which [last_position] points to. *)
Definition after_walk (w : gcode_wiper) (is_return : bool) (st : wipe_loop_state)
    (from : gcode_wiper_position) (path : list gcode_wiper_position)
    (last_position : pointer) : wipe_loop_state :=
  let r := wipe_segments w is_return from path (current_offset_e st) (feedrate st) in
  {| previous_position :=
       match path with [] => previous_position st | _ => last_position end;
     current_position :=
       match path with [] => current_position st | _ => last_position end;
     current_offset_e := snd r;
     feedrate := feedrate_after path (feedrate st);
     wipe_steps := wipe_steps st ++ fst r |}.

(** The post-wipe retract length that a call resolves: the base value plus
    the missing retraction when that is not negative. *)
Definition resolved_post_wipe_retract_length (w : gcode_wiper) : double :=
  if greater_than_or_equal (get_missing_retraction w) (of_Z 0)
  then post_wipe_retract_length_ w + get_missing_retraction w
  else post_wipe_retract_length_ w.

(** The parts of the output, for the kept entries [first :: rest] (oldest
    first) and the starting position [anchor]. *)
Record wipe_plan := {
  pre_retract : list gcode_wiper_step;
  outbound : list gcode_wiper_step;
  turn_around : list gcode_wiper_step;
  returning : list gcode_wiper_step;
  post_retract : list gcode_wiper_step
}.

Definition plan_steps (p : wipe_plan) : list gcode_wiper_step :=
  pre_retract p ++ outbound p ++ turn_around p ++ returning p ++ post_retract p.

Definition wipe_plan_from (w : gcode_wiper) (first : gcode_wiper_position)
    (rest : list gcode_wiper_position) (anchor : gcode_wiper_position) : wipe_plan :=
  let newest := List.last rest first in
  let has_pre := greater_than (pre_wipe_retract_length_ w) (of_Z 0) in
  let e0 :=
    if has_pre then get_offset_e newest - pre_wipe_retract_length_ w
    else get_offset_e newest in
  let back := tail (rev (first :: rest)) in
  let out := wipe_segments w false newest back e0 (wipe_feedrate (settings_ w)) in
  let f1 := feedrate_after back (wipe_feedrate (settings_ w)) in
  let turn_retraction := segment_retraction w first anchor in
  let t1 := motion_step w first anchor turn_retraction (snd out) f1 false in
  let f2 := if use_full_wipe_ w then x_y_travel_speed (settings_ w) else of_Z (-1) in
  let t2 := motion_step w anchor first turn_retraction (snd t1) f2 true in
  let ret := wipe_segments w true first rest (snd t2) f2 in
  let f3 := feedrate_after rest f2 in
  let post := resolved_post_wipe_retract_length w in
  {| pre_retract :=
       if has_pre then
         [step_ef (if is_extruder_relative newest
                   then of_Z (-1) * pre_wipe_retract_length_ w
                   else get_offset_e newest - pre_wipe_retract_length_ w)
                  (retraction_feedrate (settings_ w))]
       else [];
     outbound := fst out;
     turn_around := [fst t1; fst t2];
     returning := fst ret;
     post_retract :=
       if post >? of_Z 0 then
         [step_ef (if is_extruder_relative newest
                   then of_Z (-1) * post
                   else snd ret - post)
                  (if negb (is_equal (retraction_feedrate (settings_ w))
                                     (wipe_feedrate (settings_ w)))
                   then retraction_feedrate (settings_ w) else f3)]
       else [] |}.

(** Section 4.6, step 3: with more history than the wipe needs, the
    starting position is clipped toward the first entry. *)
Definition wipe_anchor (w : gcode_wiper) (first anchor : gcode_wiper_position)
  : gcode_wiper_position :=
  if greater_than (get_extra_retraction w) (of_Z 0)
  then clipped (get_extra_retraction w) first anchor else anchor.

Definition wipe_plan_of (w : gcode_wiper) (first : gcode_wiper_position)
    (rest : list gcode_wiper_position) (anchor : gcode_wiper_position) : wipe_plan :=
  wipe_plan_from w first rest (wipe_anchor w first anchor).

(** The divisors of [get_wipe_steps]: the length of the clipped segment,
    when it clips. *)
Definition wipe_divisors (w : gcode_wiper) (first anchor : gcode_wiper_position)
  : list double :=
  if greater_than (get_extra_retraction w) (of_Z 0)
  then [get_cartesian_distance (x first) (y first) (x anchor) (y anchor)]
  else [].

Definition begins_with_retract (steps : list gcode_wiper_step) : bool :=
  match steps with
  | s :: _ => is_retract_only s
  | [] => false
  end.

Definition ends_with_retract (steps : list gcode_wiper_step) : bool :=
  begins_with_retract (rev steps).

(** ** Destruction *)

(** [gcode_wiper::~gcode_wiper()]: the objects of the two anchors are
    deleted, and one object only once when both anchors point to it. *)
Definition gcode_wiper_destructor (w : gcode_wiper) : option gcode_wiper :=
  if pointer_eqb (p_starting_position_ w) (p_previous_starting_position_ w)
     && negb (pointer_eqb (p_starting_position_ w) NULL)
  then
    w1 ← delete_position (p_starting_position_ w) w;
    let w2 := set_p_starting_position w1 NULL in
    Some (set_p_previous_starting_position w2 NULL)
  else
    w1 ← (if negb (pointer_eqb (p_starting_position_ w) NULL) then
            w' ← delete_position (p_starting_position_ w) w;
            Some (set_p_starting_position w' NULL)
          else Some w);
    if negb (pointer_eqb (p_previous_starting_position_ w1) NULL) then
      w' ← delete_position (p_previous_starting_position_ w1) w1;
      Some (set_p_previous_starting_position w' NULL)
    else Some w1.

(** Every object that the engine has allocated and not deleted is the
    object of one of its two anchors. *)
Definition anchors_own_heap (w : gcode_wiper) : Prop :=
  forall a, is_Some (heap_ w !! a) ->
    p_starting_position_ w = Some (heap_loc a)
    \/ p_previous_starting_position_ w = Some (heap_loc a).

(** ** Readings of a step *)

(** A travel: a motion step with no extrusion coordinate. *)
Definition is_travel (s : gcode_wiper_step) : bool :=
  match s with step_xyf _ _ _ => true | _ => false end.

(** A wipe: a motion step with an extrusion coordinate. *)
Definition is_wipe (s : gcode_wiper_step) : bool :=
  match s with step_xyef _ _ _ _ => true | _ => false end.

(** The feedrate of a step; -1 stands for no feedrate. *)
Definition step_feedrate (s : gcode_wiper_step) : double :=
  match s with
  | step_xyef _ _ _ f | step_xyf _ _ f | step_ef _ f => f
  end.

(** The extrusion coordinate of a step that has one. *)
Definition step_e (s : gcode_wiper_step) : option double :=
  match s with
  | step_xyef _ _ e _ | step_ef e _ => Some e
  | step_xyf _ _ _ => None
  end.

(** The X and Y coordinates of a motion step. *)
Definition step_xy (s : gcode_wiper_step) : option (double * double) :=
  match s with
  | step_xyef a b _ _ | step_xyf a b _ => Some (a, b)
  | step_ef _ _ => None
  end.

(** The extrusion coordinate of the last step that has one, and the
    coordinates of the last motion step. *)
Definition last_e (steps : list gcode_wiper_step) : option double :=
  last (omap step_e steps).

Definition last_xy (steps : list gcode_wiper_step) : option (double * double) :=
  last (omap step_xy steps).

(** The sums of the X and of the Y coordinates of the motion steps. *)
Definition sum_x (steps : list gcode_wiper_step) : double :=
  foldr (fun s acc => match step_xy s with Some (a, _) => a + acc | None => acc end)
        (of_Z 0) steps.

Definition sum_y (steps : list gcode_wiper_step) : double :=
  foldr (fun s acc => match step_xy s with Some (_, b) => b + acc | None => acc end)
        (of_Z 0) steps.

(** The length of the path from [from] through the points of [path]. *)
Fixpoint path_length (from : gcode_wiper_position) (path : list gcode_wiper_position)
  : double :=
  match path with
  | [] => of_Z 0
  | to :: path' =>
      get_cartesian_distance (x from) (y from) (x to) (y to) + path_length to path'
  end.

(** The feedrate of the first return step: the travel speed for a full
    wipe, none otherwise. *)
Definition return_feedrate (w : gcode_wiper) : double :=
  if use_full_wipe_ w then x_y_travel_speed (settings_ w) else of_Z (-1).

End Wiper.

(** ** States without initialization *)

Section NeverInitialized.
Context `{U : Utilities}.

(** The states of an engine on which [initialize] has never been called:
    built by [gcode_wiper()] and changed by the other operations only. *)
Inductive never_initialized : gcode_wiper -> Prop :=
| never_initialized_new args u :
    never_initialized (gcode_wiper_new args u)
| never_initialized_use_full_wipe w b :
    never_initialized w -> never_initialized (set_use_full_wipe w b)
| never_initialized_update w current_position previous_position w' :
    never_initialized w -> update current_position previous_position w = Some w' ->
    never_initialized w'
| never_initialized_undo w w' :
    never_initialized w -> undo w = Some w' -> never_initialized w'
| never_initialized_get_wipe_steps w r :
    never_initialized w -> get_wipe_steps w = Some r -> never_initialized (snd (fst r)).

(** [update] as a total step: a call that does not return leaves no state
    behind, and the engine is taken as it was. *)
Definition after_update (current_position previous_position : position) (w : gcode_wiper)
  : gcode_wiper :=
  match update current_position previous_position w with
  | Some w' => w'
  | None => w
  end.

(** The result of [get_wipe_steps], with nothing pushed when the call does
    not return. *)
Definition wipe_steps_of (w : gcode_wiper) : traced (list gcode_wiper_step * gcode_wiper) :=
  match get_wipe_steps w with
  | Some r => r
  | None => (([], w), [])
  end.

End NeverInitialized.

(** ** Concrete engines

    The comparison tolerance of utilities.cpp is not part of the
    specification; the examples take 0.000005. *)

#[export] Instance utilities64 : @Utilities binary64 :=
  @tolerance_utilities binary64 0.000005%float.

(** The settings of the scenario of the specification. *)
Definition scenario_args : @gcode_wiper_args binary64 :=
  {| retraction_length := 2.0%float;
     retract_before_wipe_percent := 0.2%float;
     retract_after_wipe_percent := 0.2%float;
     retraction_feedrate := 1800%float;
     wipe_feedrate := 3600%float;
     x_y_travel_speed := 6000%float |}.

(** Settings with no retraction: the wipe distance is 0. *)
Definition no_retraction_args : @gcode_wiper_args binary64 :=
  {| retraction_length := 0%float;
     retract_before_wipe_percent := 0.2%float;
     retract_after_wipe_percent := 0.2%float;
     retraction_feedrate := 1800%float;
     wipe_feedrate := 3600%float;
     x_y_travel_speed := 6000%float |}.

(** Percentages that sum to more than 1. *)
Definition excess_args : @gcode_wiper_args binary64 :=
  {| retraction_length := 2.0%float;
     retract_before_wipe_percent := 0.6%float;
     retract_after_wipe_percent := 0.7%float;
     retraction_feedrate := 1800%float;
     wipe_feedrate := 3600%float;
     x_y_travel_speed := 6000%float |}.

(** A percentage below 0 by less than the tolerance. *)
Definition small_negative_args : @gcode_wiper_args binary64 :=
  {| retraction_length := 2.0%float;
     retract_before_wipe_percent := (-0.000001)%float;
     retract_after_wipe_percent := 0.2%float;
     retraction_feedrate := 1800%float;
     wipe_feedrate := 3600%float;
     x_y_travel_speed := 6000%float |}.

(** A percentage before the wipe, and one after it, that give a retract
    length of 0.000002, above 0 by less than the tolerance. *)
Definition small_pre_args : @gcode_wiper_args binary64 :=
  {| retraction_length := 2.0%float;
     retract_before_wipe_percent := 0.000001%float;
     retract_after_wipe_percent := 0.2%float;
     retraction_feedrate := 1800%float;
     wipe_feedrate := 3600%float;
     x_y_travel_speed := 6000%float |}.

Definition small_post_args : @gcode_wiper_args binary64 :=
  {| retraction_length := 2.0%float;
     retract_before_wipe_percent := 0.2%float;
     retract_after_wipe_percent := 0.000001%float;
     retraction_feedrate := 1800%float;
     wipe_feedrate := 3600%float;
     x_y_travel_speed := 6000%float |}.

Definition zeros : @indeterminate binary64 :=
  {| any_pre_wipe_retract_length := 0%float;
     any_post_wipe_retract_length := 0%float;
     any_distance_to_retraction_ratio := 0%float;
     any_wipe_distance := 0%float;
     any_half_wipe_distance := 0%float |}.

(** An extruding move to [(a, b)], absolute in X and Y, relative in E. *)
Definition extruding_at (a b : float) : @position binary64 :=
  {| x_ := a; y_ := b; offset_x_ := a; offset_y_ := b; offset_e_ := 10%float;
     is_relative_ := false; is_extruder_relative_ := true; is_extruding_ := true;
     has_xy_position_changed_ := true; is_layer_change_ := false |}.

(** The same position reached by a move that starts a layer. *)
Definition layer_change_at (a b : float) : @position binary64 :=
  {| x_ := a; y_ := b; offset_x_ := a; offset_y_ := b; offset_e_ := 10%float;
     is_relative_ := false; is_extruder_relative_ := true; is_extruding_ := true;
     has_xy_position_changed_ := true; is_layer_change_ := true |}.

Definition scenario_start : @gcode_wiper binary64 :=
  gcode_wiper_new_args scenario_args zeros.

(** One, three and four moves of length 1 along X. *)
Definition scenario_1 : @gcode_wiper binary64 :=
  after_update (extruding_at 1 0) (extruding_at 0 0) scenario_start.

Definition scenario_3 : @gcode_wiper binary64 :=
  after_update (extruding_at 3 0) (extruding_at 2 0)
    (after_update (extruding_at 2 0) (extruding_at 1 0) scenario_1).

Definition scenario_4 : @gcode_wiper binary64 :=
  after_update (extruding_at 4 0) (extruding_at 3 0) scenario_3.

(** One move of length 1 with the small pre-wipe retract length, and one
    move of length 1.000006 and of length 1.5 with the small post-wipe
    retract length. *)
Definition small_pre_1 : @gcode_wiper binary64 :=
  after_update (extruding_at 1 0) (extruding_at 0 0)
    (gcode_wiper_new_args small_pre_args zeros).

Definition small_post_short : @gcode_wiper binary64 :=
  after_update (extruding_at 1.000006 0) (extruding_at 0 0)
    (gcode_wiper_new_args small_post_args zeros).

Definition small_post_long : @gcode_wiper binary64 :=
  after_update (extruding_at 1.5 0) (extruding_at 0 0)
    (gcode_wiper_new_args small_post_args zeros).

(** A move of length 1 and one of length 2.399999: removing the first
    leaves the total below the wipe distance by less than the tolerance. *)
Definition scenario_close : @gcode_wiper binary64 :=
  after_update (extruding_at 3.399999 0) (extruding_at 1 0) scenario_1.

(** An engine with wipe distance 0 after two moves of which the second does
    not start where the first ended. *)
Definition no_retraction_2 : @gcode_wiper binary64 :=
  after_update (extruding_at 5 0) (extruding_at 3 0)
    (after_update (extruding_at 0 0) (extruding_at 0 0)
       (gcode_wiper_new_args no_retraction_args zeros)).

(** A segment from (0, 0) to (5, 12) in a store of its own. *)
Definition segment_store : @gcode_wiper binary64 :=
  set_heap (gcode_wiper_new scenario_args zeros)
    (<[2%positive := gcode_wiper_position_of (extruding_at 5 12)]>
       (<[1%positive := gcode_wiper_position_of (extruding_at 0 0)]> ∅)).

(** ** Exact arithmetic

    The engine read over the real numbers, with any tolerance. *)

Definition exact_utilities (tol : R) : @Utilities exact := @tolerance_utilities exact tol.

(** A position at [(a, b)] over the real numbers. *)
Definition exact_position (a b : R) : @gcode_wiper_position exact :=
  @Build_gcode_wiper_position exact a b a b 0%R false true.

(** A segment from (0, 0) to (3, 4) in a store of its own. *)
Definition exact_segment_store : @gcode_wiper exact :=
  @Build_gcode_wiper exact
    (@Build_gcode_wiper_args exact 2%R (1 / 5)%R (1 / 5)%R 1800%R 3600%R 6000%R)
    0%R 0%R NULL NULL false true 0%R 0%R 0%R 0%R 0%R
    (@history_new exact)
    (<[2%positive := exact_position 3 4]> (<[1%positive := exact_position 0 0]> ∅)).

(** Exact comparisons: a tolerance of 0. *)
Definition exact_comparisons : @Utilities exact := exact_utilities 0.

(** Settings over the real numbers: a retraction of 20, a fifth of it before
    and a fifth after the wipe, and a wipe twice as fast as the retraction.
    [initialize] derives the retract lengths 4 and 4, the wipe distance 24
    and the ratio 1 / 2. *)
Definition exact_args : @gcode_wiper_args exact :=
  @Build_gcode_wiper_args exact 20%R (1 / 5)%R (1 / 5)%R 1800%R 3600%R 6000%R.

Definition exact_zeros : @indeterminate exact :=
  @Build_indeterminate exact 0%R 0%R 0%R 0%R 0%R.

(** A position at [(a, b)] with the offset E 100, in the given modes. *)
Definition exact_entry (a b : R) (relative extruder_relative : bool)
  : @gcode_wiper_position exact :=
  @Build_gcode_wiper_position exact a b a b 100%R relative extruder_relative.

(** An engine with these settings and half wipes, after moves from (0, 0)
    to (3, 4) and on to (6, 8): a path of length 10, below the half wipe
    distance 12. *)
Definition exact_wiper (relative extruder_relative : bool) : @gcode_wiper exact :=
  @Build_gcode_wiper exact exact_args 10%R 5%R (Some (heap_loc 1)) NULL true false
    4%R 4%R (1 / 2)%R 24%R 12%R
    (@Build_position_history exact
       [exact_entry 3 4 relative extruder_relative;
        exact_entry 6 8 relative extruder_relative] 0 None)
    (<[1%positive := exact_entry 0 0 relative extruder_relative]> ∅).

(** A step that does not extrude: its extrusion coordinate, if it has one,
    is not positive. *)
Definition retracts (s : @gcode_wiper_step exact) : Prop :=
  match step_e s with Some e => (e <= 0)%R | None => True end.

(** * Properties *)

Section WiperProperties.
Context `{U : Utilities}.
Local Open Scope double_scope.

(** ** The object store *)

Lemma pointer_eqb_true (p q : pointer) : pointer_eqb p q = true <-> p = q.
Proof. unfold pointer_eqb. apply bool_decide_eq_true. Qed.

Lemma pointer_eqb_false (p q : pointer) : pointer_eqb p q = false <-> p <> q.
Proof. unfold pointer_eqb. apply bool_decide_eq_false. Qed.

Lemma pointer_eqb_refl (p : pointer) : pointer_eqb p p = true.
Proof. by apply pointer_eqb_true. Qed.

Lemma delete_position_live (w : gcode_wiper) (p : pointer) :
  live w p -> delete_position p w = Some (set_heap w (heap_without p (heap_ w))).
Proof.
  intros [-> | (a & -> & [v Hv])]; simpl.
  - by destruct w.
  - by rewrite Hv.
Qed.

Lemma live_heap_without (w : gcode_wiper) (p q : pointer) :
  live w q -> q <> p -> live (set_heap w (heap_without p (heap_ w))) q.
Proof.
  intros [-> | (a & -> & Ha)] Hne; [by left | right].
  exists a. split; [done |]. simpl.
  destruct p as [[b | i] |]; simpl; try done.
  rewrite lookup_delete_ne; [done | congruence].
Qed.

Lemma live_insert (w : gcode_wiper) (a : positive) (v : gcode_wiper_position) (q : pointer) :
  live w q -> live (set_heap w (<[a := v]> (heap_ w))) q.
Proof.
  intros [-> | (b & -> & Hb)]; [by left | right].
  exists b. split; [done |]. simpl.
  destruct (decide (a = b)) as [-> | Hne].
  - rewrite lookup_insert_eq. by eexists.
  - by rewrite lookup_insert_ne.
Qed.

Lemma position_at_nat (ps : list gcode_wiper_position) (i : nat) :
  i < length ps -> position_at ps (Z.of_nat i) = Some (history_loc i).
Proof.
  intros Hi. unfold position_at.
  replace (0 <=? Z.of_nat i)%Z with true by (symmetry; apply Z.leb_le; lia).
  replace (Z.of_nat i <? Z.of_nat (length ps))%Z with true
    by (symmetry; apply Z.ltb_lt; lia).
  simpl. by rewrite Nat2Z.id.
Qed.

Lemma position_at_outside (ps : list gcode_wiper_position) (i : nat) :
  length ps <= i -> position_at ps (Z.of_nat i) = NULL.
Proof.
  intros Hi. unfold position_at.
  replace (Z.of_nat i <? Z.of_nat (length ps))%Z with false
    by (symmetry; apply Z.ltb_ge; lia).
  by rewrite andb_false_r.
Qed.

(** ** Undo data *)

(** What [save_undo_data] leaves: the snapshot aliases the anchor. *)
Lemma save_undo_data_wf (w : gcode_wiper) :
  wf w ->
  exists w1, save_undo_data w = Some w1
    /\ p_starting_position_ w1 = p_starting_position_ w
    /\ p_previous_starting_position_ w1 = p_starting_position_ w
    /\ total_distance_ w1 = total_distance_ w
    /\ previous_total_distance_ w1 = total_distance_ w
    /\ history_ w1 = history_ w
    /\ configuration w1 = configuration w
    /\ deref w1 (p_starting_position_ w) = deref w (p_starting_position_ w)
    /\ live w1 (p_starting_position_ w).
Proof.
  intros [Hs Hp _]. unfold save_undo_data.
  destruct (negb (pointer_eqb (p_previous_starting_position_ w) NULL)
            && negb (pointer_eqb (p_previous_starting_position_ w)
                                 (p_starting_position_ w))) eqn:Hc.
  - apply andb_true_iff in Hc as [_ Hne].
    apply negb_true_iff, pointer_eqb_false in Hne.
    rewrite (delete_position_live _ _ Hp). simpl.
    eexists. split; [reflexivity |]. simpl. repeat split; try done.
    + destruct (p_starting_position_ w) as [[a | i] |]; simpl; try done.
      destruct (p_previous_starting_position_ w) as [[b | j] |]; simpl; try done.
      rewrite lookup_delete_ne; [done | congruence].
    + apply (live_heap_without w _ _ Hs). congruence.
  - simpl. eexists. split; [reflexivity |]. simpl. by repeat split.
Qed.

(** What [restore_undo_data] leaves. *)
Lemma restore_undo_data_wf (w : gcode_wiper) :
  wf w ->
  exists w1, restore_undo_data w = Some w1
    /\ p_starting_position_ w1 = p_previous_starting_position_ w
    /\ p_previous_starting_position_ w1 = NULL
    /\ total_distance_ w1 = previous_total_distance_ w
    /\ previous_total_distance_ w1 = of_Z 0
    /\ history_ w1 = history_ w
    /\ configuration w1 = configuration w
    /\ deref w1 (p_previous_starting_position_ w)
       = deref w (p_previous_starting_position_ w)
    /\ live w1 (p_previous_starting_position_ w).
Proof.
  intros [Hs Hp _]. unfold restore_undo_data.
  destruct (negb (pointer_eqb (p_starting_position_ w) NULL)
            && negb (pointer_eqb (p_starting_position_ w)
                                 (p_previous_starting_position_ w))) eqn:Hc.
  - apply andb_true_iff in Hc as [_ Hne].
    apply negb_true_iff, pointer_eqb_false in Hne.
    rewrite (delete_position_live _ _ Hs). simpl.
    eexists. split; [reflexivity |]. simpl. repeat split; try done.
    + destruct (p_previous_starting_position_ w) as [[a | i] |]; simpl; try done.
      destruct (p_starting_position_ w) as [[b | j] |]; simpl; try done.
      rewrite lookup_delete_ne; [done | congruence].
    + apply (live_heap_without w _ _ Hp). congruence.
  - simpl. eexists. split; [reflexivity |]. simpl. by repeat split.
Qed.

Lemma undo_spec (w : gcode_wiper) :
  wf w ->
  exists w1, undo w = Some w1
    /\ p_starting_position_ w1 = p_previous_starting_position_ w
    /\ p_previous_starting_position_ w1 = NULL
    /\ total_distance_ w1 = previous_total_distance_ w
    /\ previous_total_distance_ w1 = of_Z 0
    /\ history_ w1 = history_undo (history_ w)
    /\ configuration w1 = configuration w
    /\ deref w1 (p_previous_starting_position_ w)
       = deref w (p_previous_starting_position_ w)
    /\ live w1 (p_previous_starting_position_ w).
Proof.
  intros Hwf. unfold undo.
  destruct (restore_undo_data_wf w Hwf)
    as (w1 & -> & Hs & Hp & Ht & Hpt & Hh & Hi & Hd & Hl).
  simpl. eexists. split; [reflexivity |]. simpl.
  rewrite Hh. repeat split; try done.
  rewrite <- Hd.
  by destruct Hl as [-> | (a & -> & _)].
Qed.

(** ** Pruning *)

Lemma fresh_heap_None (m : gmap positive gcode_wiper_position) :
  m !! fresh (dom m) = None.
Proof. apply not_elem_of_dom, is_fresh. Qed.

Lemma prune_front_spec (w : gcode_wiper) (v : gcode_wiper_position) (t : double) :
  live w (p_starting_position_ w) ->
  live w (p_previous_starting_position_ w) ->
  exists w', prune_front w v t = Some w'
    /\ configuration w' = configuration w
    /\ total_distance_ w' = t
    /\ previous_total_distance_ w' = previous_total_distance_ w
    /\ p_previous_starting_position_ w' = p_previous_starting_position_ w
    /\ history_ w' = history_remove (history_ w)
    /\ live w' (p_starting_position_ w')
    /\ live w' (p_previous_starting_position_ w)
    /\ deref w' (p_previous_starting_position_ w)
       = deref w (p_previous_starting_position_ w)
    /\ deref w' (p_starting_position_ w') = Some v.
Proof.
  intros Hs Hp. unfold prune_front.
  set (m := if negb (pointer_eqb (p_starting_position_ w) NULL)
               && negb (pointer_eqb (p_previous_starting_position_ w)
                                    (p_starting_position_ w))
            then heap_without (p_starting_position_ w) (heap_ w) else heap_ w).
  assert (Hw1 : (if negb (pointer_eqb (p_starting_position_ w) NULL)
                    && negb (pointer_eqb (p_previous_starting_position_ w)
                                         (p_starting_position_ w))
                 then delete_position (p_starting_position_ w) w else Some w)
                = Some (set_heap w m)).
  { subst m. destruct (_ && _).
    - by apply delete_position_live.
    - by destruct w. }
  rewrite Hw1. simpl.
  assert (Hpm : forall b, p_previous_starting_position_ w = Some (heap_loc b) ->
                          m !! b = heap_ w !! b /\ is_Some (m !! b)).
  { intros b Hb. destruct Hp as [Hp | (b' & Hp & Hlive)]; [congruence |].
    assert (b' = b) as -> by congruence.
    subst m. destruct (_ && _) eqn:Hc; [| done].
    apply andb_true_iff in Hc as [_ Hne].
    apply negb_true_iff, pointer_eqb_false in Hne.
    destruct (p_starting_position_ w) as [[c | i] |]; simpl; try done.
    rewrite lookup_delete_ne; [done | congruence]. }
  pose proof (fresh_heap_None m) as Hfresh.
  eexists. split; [reflexivity |]. simpl.
  repeat split; try done.
  - right. eexists. split; [reflexivity |]. simpl.
    rewrite lookup_insert_eq. by eexists.
  - destruct (p_previous_starting_position_ w) as [[b | i] |] eqn:Hprev; [| | by left].
    + right. exists b. split; [done |]. simpl.
      destruct (Hpm b eq_refl) as [_ [u Hu]].
      rewrite lookup_insert_ne; [by eexists | congruence].
    + destruct Hp as [Hp | (b' & Hp & _)]; congruence.
  - destruct (p_previous_starting_position_ w) as [[b | i] |] eqn:Hprev; simpl; [| done | done].
    destruct (Hpm b eq_refl) as [Heq [u Hu]].
    rewrite lookup_insert_ne; [done | congruence].
  - by rewrite lookup_insert_eq.
Qed.

(** The loop invariant of [prune_history]: pruning keeps the undo snapshot
    and the configuration, and when it has removed anything the total is not
    [less_than] the distance. *)
Lemma prune_loop_spec (fuel : nat) (d : double) (w w' : gcode_wiper) :
  live w (p_starting_position_ w) ->
  live w (p_previous_starting_position_ w) ->
  prune_loop fuel d w = Some w' ->
  configuration w' = configuration w
  /\ previous_total_distance_ w' = previous_total_distance_ w
  /\ p_previous_starting_position_ w' = p_previous_starting_position_ w
  /\ live w' (p_starting_position_ w')
  /\ live w' (p_previous_starting_position_ w)
  /\ deref w' (p_previous_starting_position_ w)
     = deref w (p_previous_starting_position_ w)
  /\ (w' = w \/ less_than (total_distance_ w') d = false).
Proof.
  revert w. induction fuel as [| fuel IH]; intros w Hs Hp; simpl.
  - destruct (total_distance_ w >? d); [done |].
    intros ?; simplify_eq. repeat split; try done. by left.
  - destruct (total_distance_ w >? d);
      [| intros ?; simplify_eq; repeat split; try done; by left].
    destruct (deref w (history_peek (history_ w))) as [front |]; [| done]. simpl.
    destruct (deref w (p_starting_position_ w)) as [start |]; [| done]. simpl.
    destruct (less_than (total_distance_ w - _) d) eqn:Hlt;
      [intros ?; simplify_eq; repeat split; try done; by left |].
    destruct (prune_front_spec w front
                (total_distance_ w
                 - get_cartesian_distance (x start) (y start) (x front) (y front)) Hs Hp)
      as (w1 & -> & Hc & Ht & Hpt & Hpp & Hh & Hs1 & Hp1 & Hd1 & _).
    simpl. intros Hloop.
    rewrite <- Hpp in Hp1.
    destruct (IH w1 Hs1 Hp1 Hloop) as (Hc' & Hpt' & Hpp' & Hs' & Hp' & Hd' & Hor).
    rewrite Hpp in Hp', Hd'.
    repeat split; try congruence.
    right. destruct Hor as [-> | Hor]; [| done].
    by rewrite Ht.
Qed.

Lemma delete_position_history (p : pointer) (w w' : gcode_wiper) :
  delete_position p w = Some w' -> history_ w' = history_ w.
Proof.
  destruct p as [[a | i] |]; simpl; [| done |].
  - destruct (heap_ w !! a); [| done]. by intros [= <-].
  - by intros [= <-].
Qed.

Lemma prune_front_history (w w' : gcode_wiper) (v : gcode_wiper_position) (t : double) :
  prune_front w v t = Some w' -> history_ w' = history_remove (history_ w).
Proof.
  unfold prune_front.
  destruct (negb (pointer_eqb (p_starting_position_ w) NULL)
            && negb (pointer_eqb (p_previous_starting_position_ w)
                                 (p_starting_position_ w))).
  - destruct (delete_position (p_starting_position_ w) w) as [w1 |] eqn:Hd; [| done].
    simpl. intros [= <-]. simpl. by rewrite (delete_position_history _ _ _ Hd).
  - simpl. by intros [= <-].
Qed.

(** The fuel of [prune_history] is enough: above the number of kept entries
    the result of the loop does not depend on it, so a [None] is never a lack
    of fuel (it is the read through a null pointer, or [peek] on an empty
    history). *)
Lemma prune_loop_fuel (fuel fuel' : nat) (d : double) (w : gcode_wiper) :
  length (positions (history_ w)) - start_index (history_ w) < fuel ->
  length (positions (history_ w)) - start_index (history_ w) < fuel' ->
  prune_loop fuel d w = prune_loop fuel' d w.
Proof.
  revert fuel' w. induction fuel as [| fuel IH]; intros fuel' w Hf Hf'; [lia |].
  destruct fuel' as [| fuel']; [lia |]. simpl.
  destruct (total_distance_ w >? d); [| done].
  unfold history_peek.
  destruct (Nat.lt_ge_cases (start_index (history_ w))
                            (length (positions (history_ w)))) as [Hlt | Hge].
  2:{ by rewrite position_at_outside. }
  rewrite position_at_nat by done.
  destruct (deref w (Some (history_loc (start_index (history_ w))))) as [front |];
    [| done].
  simpl.
  destruct (deref w (p_starting_position_ w)) as [start |]; [| done]. simpl.
  destruct (less_than _ d); [done |].
  destruct (prune_front w front _) as [w1 |] eqn:Hfront; [| done]. simpl.
  pose proof (prune_front_history _ _ _ _ Hfront) as Hh.
  apply IH; rewrite Hh; simpl; lia.
Qed.

(** ** Update *)

Lemma update_not_initialized (cur prev : position) (w : gcode_wiper) :
  is_initialized_ w = false -> update cur prev w = Some w.
Proof. intros Hi. unfold update. by rewrite Hi. Qed.

(** The clearing branch of [update]. *)
Lemma configuration_initialized (w w' : gcode_wiper) :
  configuration w' = configuration w -> is_initialized_ w' = is_initialized_ w.
Proof. unfold configuration. congruence. Qed.

Lemma configuration_wipe_distance (w w' : gcode_wiper) :
  configuration w' = configuration w -> get_wipe_distance w' = get_wipe_distance w.
Proof.
  unfold configuration, get_wipe_distance.
  intros [= _ _ Hu _ _ _ Hwd Hh]. by rewrite Hu, Hwd, Hh.
Qed.

(** The clearing branch of [update]. *)
Lemma update_clear (cur prev : position) (w : gcode_wiper) :
  wf w -> is_initialized_ w = true -> clears_history cur = true ->
  exists w', update cur prev w = Some w'
    /\ configuration w' = configuration w
    /\ total_distance_ w' = of_Z 0
    /\ history_ w' = history_clear (history_ w)
    /\ previous_total_distance_ w' = total_distance_ w
    /\ p_starting_position_ w' = p_starting_position_ w
    /\ p_previous_starting_position_ w' = p_starting_position_ w
    /\ deref w' (p_starting_position_ w) = deref w (p_starting_position_ w)
    /\ live w' (p_starting_position_ w).
Proof.
  intros Hwf Hi Hc. unfold update. rewrite Hi, Hc. simpl.
  destruct (save_undo_data_wf w Hwf)
    as (w1 & -> & Hs & Hp & Ht & Hpt & Hh & Hcfg & Hd & Hl).
  simpl. eexists. split; [reflexivity |]. simpl.
  rewrite Hh. repeat split; try done.
  rewrite <- Hd. by destruct Hl as [-> | (a & -> & _)].
Qed.

(** The appending branch of [update]: the undo snapshot survives the
    pruning, and unless nothing was pruned the total is not [less_than] the
    wipe distance. *)
Lemma update_append (cur prev : position) (w w' : gcode_wiper) :
  wf w -> is_initialized_ w = true -> clears_history cur = false ->
  update cur prev w = Some w' ->
  configuration w' = configuration w
  /\ previous_total_distance_ w' = total_distance_ w
  /\ p_previous_starting_position_ w' = p_starting_position_ w
  /\ live w' (p_starting_position_ w')
  /\ live w' (p_starting_position_ w)
  /\ deref w' (p_starting_position_ w) = deref w (p_starting_position_ w)
  /\ ((total_distance_ w'
       = total_distance_ w + get_cartesian_distance (x_ prev) (y_ prev) (x_ cur) (y_ cur)
       /\ history_ w' = history_push_back cur (history_ w))
      \/ less_than (total_distance_ w') (get_wipe_distance w) = false).
Proof.
  intros Hwf Hi Hc. unfold update. rewrite Hi, Hc. simpl.
  destruct (save_undo_data_wf w Hwf)
    as (w1 & -> & Hs & Hp & Ht & Hpt & Hh & Hcfg & Hd & Hl).
  simpl.
  assert (Halias : pointer_eqb (p_starting_position_ w1)
                               (p_previous_starting_position_ w1) = true).
  { apply pointer_eqb_true. congruence. }
  rewrite Halias, andb_false_r. simpl.
  set (w2 := if (history_size (history_ w1) =? 0)%Z
             then set_p_starting_position
                    (set_heap w1 (<[fresh (dom (heap_ w1)) := gcode_wiper_position_of prev]>
                                    (heap_ w1)))
                    (Some (heap_loc (fresh (dom (heap_ w1)))))
             else w1).
  assert (Hw2 : (if (history_size (history_ w1) =? 0)%Z
                 then Some (set_p_starting_position
                              (set_heap w1 (<[fresh (dom (heap_ w1))
                                              := gcode_wiper_position_of prev]> (heap_ w1)))
                              (Some (heap_loc (fresh (dom (heap_ w1))))))
                 else Some w1) = Some w2).
  { subst w2. by destruct (_ =? _)%Z. }
  rewrite Hw2. simpl. clear Hw2.
  assert (H2 : configuration w2 = configuration w
               /\ total_distance_ w2 = total_distance_ w
               /\ history_ w2 = history_ w
               /\ p_previous_starting_position_ w2 = p_starting_position_ w
               /\ live w2 (p_starting_position_ w2)
               /\ live w2 (p_starting_position_ w)
               /\ deref w2 (p_starting_position_ w) = deref w (p_starting_position_ w)).
  { subst w2. destruct (_ =? _)%Z; simpl.
    - repeat split; try done.
      + right. eexists. split; [reflexivity |]. simpl.
        rewrite lookup_insert_eq. by eexists.
      + by apply live_insert.
      + rewrite <- Hd. destruct Hl as [-> | (a & -> & [v Hv])]; simpl; [done |].
        rewrite lookup_insert_ne; [done |].
        intros Heq. rewrite <- Heq, fresh_heap_None in Hv. done.
    - rewrite Hs. by repeat split. }
  destruct H2 as (Hcfg2 & Ht2 & Hh2 & Hp2 & Hl2 & Hl2' & Hd2).
  unfold prune_history. intros Hloop.
  apply prune_loop_spec in Hloop; simpl; [| done | by rewrite Hp2].
  simpl in Hloop. rewrite Hp2 in Hloop.
  destruct Hloop as (Hc' & Hpt' & Hpp' & Hs' & Hp' & Hd' & Hor).
  assert (Hhl : deref w' (p_starting_position_ w) = deref w (p_starting_position_ w)).
  { rewrite Hd', <- Hd2.
    destruct Hl2' as [-> | (a & -> & _)]; done. }
  repeat split; try done.
  - rewrite Hc', <- Hcfg2. done.
  - rewrite Hpt'. by rewrite Ht2.
  - destruct Hor as [-> | Hor]; [left | right].
    + simpl. rewrite Ht2, Hh2. done.
    + rewrite <- Hor. f_equal.
      transitivity (get_wipe_distance w2).
      * symmetry. by apply configuration_wipe_distance.
      * unfold get_wipe_distance. simpl. done.
Qed.

(** ** Clipping *)

Lemma set_heap_set_heap (w : gcode_wiper) (m m' : gmap positive gcode_wiper_position) :
  set_heap (set_heap w m) m' = set_heap w m'.
Proof. done. Qed.

Lemma set_heap_id (w : gcode_wiper) : set_heap w (heap_ w) = w.
Proof. by destruct w. Qed.

(** Reading an object of [w] after an allocation. *)
Lemma deref_insert_fresh (w : gcode_wiper) (a : positive) (u v : gcode_wiper_position)
    (p : pointer) :
  heap_ w !! a = None -> deref w p = Some v ->
  deref (set_heap w (<[a := u]> (heap_ w))) p = Some v.
Proof.
  intros Ha. destruct p as [[b | i] |]; simpl; try done.
  intros Hb. rewrite lookup_insert_ne; [done | congruence].
Qed.

(** [clip_wipe_path] allocates a copy of [*from_position] and a copy of
    [*to_position] at two fresh addresses, leaves the first as it is and
    stores the clipped coordinates in the second; its one division is by the
    length of the segment. *)
Lemma clip_wipe_path_spec (d : double) (from to : pointer) (w : gcode_wiper)
    (f t : gcode_wiper_position) :
  deref w from = Some f -> deref w to = Some t ->
  exists a1 a2,
    heap_ w !! a1 = None /\ heap_ w !! a2 = None /\ a1 <> a2
    /\ clip_wipe_path d from to w
       = Some ((Some (heap_loc a1), Some (heap_loc a2),
                set_heap w (<[a2 := clipped d f t]> (<[a1 := f]> (heap_ w)))),
               [get_cartesian_distance (x f) (y f) (x t) (y t)]).
Proof.
  intros Hf Ht. unfold clip_wipe_path. rewrite Hf. simpl.
  set (a1 := fresh (dom (heap_ w))).
  assert (Ha1 : heap_ w !! a1 = None) by apply fresh_heap_None.
  rewrite (deref_insert_fresh w a1 f t to Ha1 Ht). simpl.
  set (a2 := fresh (dom (<[a1 := f]> (heap_ w)))).
  assert (Ha2 : <[a1 := f]> (heap_ w) !! a2 = None) by apply fresh_heap_None.
  assert (Hne : a1 <> a2).
  { intros Heq. rewrite <- Heq, lookup_insert_eq in Ha2. done. }
  exists a1, a2. split; [done |]. split.
  { by rewrite lookup_insert_ne in Ha2. }
  split; [done |].
  assert (Hlk : <[a2 := t]> (<[a1 := f]> (heap_ w)) !! a1 = Some f).
  { rewrite lookup_insert_ne by congruence. apply lookup_insert_eq. }
  rewrite Hlk. simpl.
  rewrite !lookup_insert_eq. simpl.
  rewrite !lookup_insert_eq. simpl.
  rewrite !insert_insert_eq. done.
Qed.

(** ** The loops of [get_wipe_steps] *)

Lemma get_wipe_step_motion (w : gcode_wiper) (sp ep : pointer)
    (sv ev : gcode_wiper_position) (rr e f : double) (is_return : bool) :
  deref w sp = Some sv -> deref w ep = Some ev ->
  get_wipe_step w sp ep rr e f is_return = Some (motion_step w sv ev rr e f is_return).
Proof.
  intros Hs He. unfold get_wipe_step, motion_step. rewrite He. simpl.
  destruct (is_relative ev); simpl; [rewrite Hs; simpl |];
    destruct (use_full_wipe_ w && is_return); simpl; try done;
    by destruct (is_extruder_relative ev).
Qed.

Lemma after_walk_nil (w : gcode_wiper) (is_return : bool) (st : wipe_loop_state)
    (from : gcode_wiper_position) (p : pointer) :
  after_walk w is_return st from [] p = st.
Proof. destruct st. unfold after_walk. simpl. by rewrite app_nil_r. Qed.

Section wipe_loop_properties.
Variable w : gcode_wiper.
Variable ps : list gcode_wiper_position.
Variable si : nat.
Variable first_position : pointer.
Variable has_pre : bool.

Local Abbreviation position_for := (current_at ps (Z.of_nat si) first_position).

Hypothesis deref_current :
  forall (i : nat) (v : gcode_wiper_position),
    si <= i -> ps !! i = Some v -> deref w (position_for (Z.of_nat i)) = Some v.

(** An iteration after the first one: one motion step. *)
Lemma wipe_loop_body_step (pass : Z) (i : nat) (st : wipe_loop_state)
    (pv v : gcode_wiper_position) :
  si <= i -> ps !! i = Some v -> deref w (previous_position st) = Some pv ->
  wipe_loop_body w ps (Z.of_nat si) first_position has_pre pass (Z.of_nat i) st
  = Some (after_walk w (negb (pass =? 0)%Z) st pv [v] (position_for (Z.of_nat i))).
Proof.
  intros Hi Hv Hp. unfold wipe_loop_body.
  assert (Hnn : pointer_eqb (previous_position st) NULL = false).
  { apply pointer_eqb_false. intros Heq. by rewrite Heq in Hp. }
  rewrite Hnn, Hp. simpl.
  rewrite (deref_current i v Hi Hv). simpl.
  rewrite (get_wipe_step_motion w _ _ pv v _ _ _ _ Hp (deref_current i v Hi Hv)).
  done.
Qed.

Lemma after_walk_cons (is_return : bool) (st : wipe_loop_state)
    (pv v : gcode_wiper_position) (path : list gcode_wiper_position) (p q : pointer) :
  (path = [] -> p = q) ->
  after_walk w is_return (after_walk w is_return st pv [v] p) v path q
  = after_walk w is_return st pv (v :: path) q.
Proof.
  intros Hpq. unfold after_walk. simpl.
  destruct path as [| v' path']; simpl.
  - rewrite (Hpq eq_refl), app_nil_r. done.
  - rewrite <- app_assoc. done.
Qed.

(** Pass 0 after its first iteration: from index [si + m - 1] down to
    [si], one step per entry. *)
Lemma wipe_loop_backward (m : nat) :
  forall (fuel : nat) (st : wipe_loop_state) (pv : gcode_wiper_position),
    m <= fuel -> si + m <= length ps -> deref w (previous_position st) = Some pv ->
    wipe_loop w ps (Z.of_nat si) first_position has_pre fuel 0
              (Z.of_nat (si + m) - 1) (-1) (Z.of_nat si - 1) st
    = Some (after_walk w false st pv (rev (take m (drop si ps)))
                       (position_for (Z.of_nat si))).
Proof.
  induction m as [| m IH]; intros fuel st pv Hfuel Hlen Hp.
  - rewrite take_0. simpl. rewrite after_walk_nil.
    destruct fuel; simpl;
      replace (Z.of_nat (si + 0) - 1 >? Z.of_nat si - 1)%Z with false
        by (symmetry; rewrite Z.gtb_ltb; apply Z.ltb_ge; lia); done.
  - destruct fuel as [| fuel]; [lia |].
    destruct (lookup_lt_is_Some_2 ps (si + m) ltac:(lia)) as [v Hv].
    simpl.
    replace (Z.of_nat (si + S m) - 1 >? Z.of_nat si - 1)%Z with true
      by (symmetry; rewrite Z.gtb_ltb; apply Z.ltb_lt; lia).
    simpl.
    replace (Z.of_nat (si + S m) - 1)%Z with (Z.of_nat (si + m)) by lia.
    rewrite (wipe_loop_body_step 0 (si + m) st pv v ltac:(lia) Hv Hp). simpl.
    replace (Z.of_nat (si + m) + -1)%Z with (Z.of_nat (si + m) - 1)%Z by lia.
    rewrite (IH fuel _ v ltac:(lia) ltac:(lia)).
    + f_equal.
      assert (Htake : take (S m) (drop si ps) = take m (drop si ps) ++ [v]).
      { apply take_S_r. by rewrite lookup_drop. }
      rewrite Htake, rev_unit.
      apply after_walk_cons.
      intros Hnil. destruct m as [| m']; [by rewrite Nat.add_0_r |].
      exfalso. apply (f_equal (@length _)) in Hnil.
      rewrite length_rev, length_take, length_drop in Hnil.
      change (length (@nil gcode_wiper_position)) with 0 in Hnil. lia.
    + simpl. by apply deref_current; [lia |].
Qed.

(** Pass 1: from index [i] up to the last one. *)
Lemma wipe_loop_forward (path : list gcode_wiper_position) :
  forall (fuel i : nat) (st : wipe_loop_state) (pv : gcode_wiper_position),
    drop i ps = path -> si < i -> length path <= fuel ->
    deref w (previous_position st) = Some pv ->
    wipe_loop w ps (Z.of_nat si) first_position has_pre fuel 1
              (Z.of_nat i) 1 (Z.of_nat (length ps)) st
    = Some (after_walk w true st pv path (position_for (Z.of_nat (length ps) - 1))).
Proof.
  induction path as [| v path IH]; intros fuel i st pv Hdrop Hi Hfuel Hp.
  - rewrite after_walk_nil.
    assert (length ps <= i).
    { apply (f_equal (@length _)) in Hdrop. rewrite length_drop in Hdrop.
      simpl in Hdrop. lia. }
    destruct fuel; simpl;
      replace (Z.of_nat i <? Z.of_nat (length ps))%Z with false
        by (symmetry; apply Z.ltb_ge; lia); done.
  - simpl in Hfuel. destruct fuel as [| fuel]; [lia |].
    assert (Hv : ps !! i = Some v).
    { rewrite <- (Nat.add_0_r i), <- lookup_drop, Hdrop. done. }
    assert (Hlt : i < length ps) by (by apply lookup_lt_Some in Hv).
    assert (Hdrop' : drop (S i) ps = path).
    { replace (S i) with (i + 1)%nat by lia. rewrite <- drop_drop, Hdrop. done. }
    simpl.
    replace (Z.of_nat i <? Z.of_nat (length ps))%Z with true
      by (symmetry; apply Z.ltb_lt; lia).
    simpl.
    rewrite (wipe_loop_body_step 1 i st pv v ltac:(lia) Hv Hp). simpl.
    replace (Z.of_nat i + 1)%Z with (Z.of_nat (S i)) by lia.
    rewrite (IH fuel (S i) _ v Hdrop' ltac:(lia) ltac:(lia)).
    + f_equal. apply after_walk_cons.
      intros ->. f_equal.
      apply (f_equal (@length _)) in Hdrop'. rewrite length_drop in Hdrop'.
      simpl in Hdrop'. lia.
    + simpl. by apply deref_current; [lia |].
Qed.

Variable start_position : pointer.

Lemma last_cons_default (v d : gcode_wiper_position) (rest : list gcode_wiper_position) :
  List.last (v :: rest) d = List.last rest v.
Proof.
  revert v d. induction rest as [| u rest IH]; intros v d; [done |].
  change (List.last (v :: u :: rest) d) with (List.last (u :: rest) d).
  rewrite (IH u d). symmetry. apply IH.
Qed.

Lemma lookup_last_cons (first : gcode_wiper_position) (rest : list gcode_wiper_position) :
  (first :: rest) !! length rest = Some (List.last rest first).
Proof.
  revert first. induction rest as [| v rest IH]; intros first; [done |].
  rewrite last_cons_default. apply (IH v).
Qed.

Lemma rev_take_tail (first : gcode_wiper_position) (rest : list gcode_wiper_position) :
  rev (take (length rest) (first :: rest)) = tail (rev (first :: rest)).
Proof.
  destruct (exists_last (l := first :: rest) ltac:(done)) as (l' & z & Heq).
  rewrite Heq, rev_unit. simpl.
  assert (Hlen : length rest = length l').
  { apply (f_equal (@length _)) in Heq. rewrite length_app in Heq.
    simpl in Heq. lia. }
  rewrite Hlen, take_app_length. done.
Qed.

(** What the entries of the history give the loops. *)
Lemma kept_entries (first : gcode_wiper_position) (rest : list gcode_wiper_position) :
  drop si ps = first :: rest ->
  length ps = (si + S (length rest))%nat
  /\ ps !! si = Some first
  /\ ps !! (si + length rest)%nat = Some (List.last rest first)
  /\ drop (S si) ps = rest.
Proof.
  intros Hdrop.
  assert (Hlen : length ps = (si + S (length rest))%nat).
  { apply (f_equal (@length _)) in Hdrop. rewrite length_drop in Hdrop.
    simpl in Hdrop. lia. }
  repeat split; [done | | |].
  - rewrite <- (Nat.add_0_r si), <- lookup_drop, Hdrop. done.
  - rewrite <- lookup_drop, Hdrop. apply lookup_last_cons.
  - replace (S si) with (si + 1)%nat by lia. rewrite <- drop_drop, Hdrop. done.
Qed.

(** Pass 0: the outbound segments, then the turn-around pair. *)
Lemma wipe_pass_0 (st0 : wipe_loop_state) (first anchor : gcode_wiper_position)
    (rest : list gcode_wiper_position) :
  drop si ps = first :: rest ->
  previous_position st0 = NULL ->
  deref w start_position = Some anchor ->
  let newest := List.last rest first in
  let e0 :=
    if has_pre then get_offset_e newest - pre_wipe_retract_length_ w
    else get_offset_e newest in
  let back := tail (rev (first :: rest)) in
  let out := wipe_segments w false newest back e0 (feedrate st0) in
  let turn_retraction := segment_retraction w first anchor in
  let t1 :=
    motion_step w first anchor turn_retraction (snd out)
                (feedrate_after back (feedrate st0)) false in
  let f2 := if use_full_wipe_ w then x_y_travel_speed (settings_ w) else of_Z (-1) in
  let t2 := motion_step w anchor first turn_retraction (snd t1) f2 true in
  exists st1,
    wipe_pass w ps (Z.of_nat si) first_position start_position has_pre 0 st0 = Some st1
    /\ deref w (previous_position st1) = Some first
    /\ deref w (current_position st1) = Some first
    /\ current_offset_e st1 = snd t2
    /\ feedrate st1 = f2
    /\ wipe_steps st1 = wipe_steps st0 ++ fst out ++ [fst t1; fst t2].
Proof.
  intros Hdrop Hnull Hanchor newest e0 back out turn_retraction t1 f2 t2.
  destruct (kept_entries first rest Hdrop) as (Hlen & Hfirst & Hnewest & Hrest).
  unfold wipe_pass. simpl.
  replace (Z.of_nat (length ps) - 1 >? Z.of_nat si - 1)%Z with true
    by (symmetry; rewrite Z.gtb_ltb; apply Z.ltb_lt; lia).
  simpl. unfold wipe_loop_body at 1. rewrite Hnull. simpl.
  replace (Z.of_nat (length ps) - 1)%Z with (Z.of_nat (si + length rest)) by lia.
  rewrite (deref_current (si + length rest)%nat _ ltac:(lia) Hnewest). simpl.
  fold newest. fold e0.
  set (st' := {| previous_position := position_for (Z.of_nat (si + length rest));
                 current_position := position_for (Z.of_nat (si + length rest));
                 current_offset_e := e0; feedrate := feedrate st0;
                 wipe_steps := wipe_steps st0 |}).
  replace (Z.of_nat (si + length rest) + -1)%Z
    with (Z.of_nat (si + length rest) - 1)%Z by lia.
  rewrite (wipe_loop_backward (length rest) (length ps) st' newest
             ltac:(lia) ltac:(lia)
             (deref_current (si + length rest)%nat _ ltac:(lia) Hnewest)).
  rewrite Hdrop, rev_take_tail. fold back.
  remember (after_walk w false st' newest back (position_for (Z.of_nat si)))
    as sw eqn:Hsw.
  simpl.
  assert (Hprev : deref w (previous_position sw) = Some first
                  /\ deref w (current_position sw) = Some first).
  { rewrite Hsw. unfold after_walk. simpl.
    destruct back as [| b back'] eqn:Hback.
    - assert (rest = []) as ->.
      { subst back. rewrite <- rev_take_tail in Hback.
        apply (f_equal (@length _)) in Hback.
        rewrite length_rev, length_take in Hback.
        destruct rest; [done | simpl in Hback; lia]. }
      simpl. rewrite Nat.add_0_r.
      by rewrite (deref_current si first ltac:(lia) Hfirst).
    - by rewrite (deref_current si first ltac:(lia) Hfirst). }
  destruct Hprev as [Hprev Hcurrent].
  rewrite Hprev. simpl. rewrite Hanchor. simpl.
  rewrite (get_wipe_step_motion w _ _ first anchor _ _ _ _ Hprev Hanchor). simpl.
  rewrite (get_wipe_step_motion w _ _ anchor first _ _ _ _ Hanchor Hprev). simpl.
  eexists. split; [reflexivity |]. simpl.
  repeat split; try done.
  - by rewrite Hsw.
  - rewrite Hsw. unfold after_walk. simpl. by rewrite <- app_assoc.
Qed.

(** Pass 1: the return segments. *)
Lemma wipe_pass_1 (st1 : wipe_loop_state) (first : gcode_wiper_position)
    (rest : list gcode_wiper_position) :
  drop si ps = first :: rest ->
  deref w (previous_position st1) = Some first ->
  deref w (current_position st1) = Some first ->
  let ret := wipe_segments w true first rest (current_offset_e st1) (feedrate st1) in
  exists st2,
    wipe_pass w ps (Z.of_nat si) first_position start_position has_pre 1 st1 = Some st2
    /\ deref w (current_position st2) = Some (List.last rest first)
    /\ current_offset_e st2 = snd ret
    /\ feedrate st2 = feedrate_after rest (feedrate st1)
    /\ wipe_steps st2 = wipe_steps st1 ++ fst ret.
Proof.
  intros Hdrop Hprev Hcurrent ret.
  destruct (kept_entries first rest Hdrop) as (Hlen & Hfirst & Hnewest & Hrest).
  unfold wipe_pass.
  change (1 =? 0)%Z with false. cbv iota.
  replace (Z.of_nat si + 1)%Z with (Z.of_nat (S si)) by lia.
  rewrite (wipe_loop_forward rest (S (length ps)) (S si) st1 first Hrest
             ltac:(lia) ltac:(lia) Hprev).
  simpl. eexists. split; [reflexivity |]. simpl.
  repeat split; try done.
  destruct rest as [| v rest']; [done |].
  replace (Z.of_nat (length ps) - 1)%Z with (Z.of_nat (si + length (v :: rest'))) by lia.
  by apply deref_current; [lia |].
Qed.

End wipe_loop_properties.

(** ** The generated steps *)

Lemma deref_current_at (w : gcode_wiper) (ps : list gcode_wiper_position) (si : nat)
    (fp : pointer) (first : gcode_wiper_position) :
  positions (history_ w) = ps -> ps !! si = Some first -> deref w fp = Some first ->
  forall (i : nat) (v : gcode_wiper_position),
    si <= i -> ps !! i = Some v ->
    deref w (current_at ps (Z.of_nat si) fp (Z.of_nat i)) = Some v.
Proof.
  intros Hps Hfirst Hfp i v Hi Hv. unfold current_at.
  destruct (Z.eqb_spec (Z.of_nat i) (Z.of_nat si)) as [Heq | Hne].
  - apply Nat2Z.inj in Heq. subst i. congruence.
  - rewrite position_at_nat by (by apply lookup_lt_Some in Hv).
    simpl. by rewrite Hps.
Qed.

(** The steps that [get_wipe_steps] pushes are the five parts of the plan,
    in order. *)
Lemma push_wipe_steps_spec (w : gcode_wiper) (ps : list gcode_wiper_position) (si : nat)
    (fp sp : pointer) (first anchor : gcode_wiper_position)
    (rest : list gcode_wiper_position) :
  drop si ps = first :: rest ->
  positions (history_ w) = ps ->
  deref w fp = Some first ->
  deref w sp = Some anchor ->
  push_wipe_steps w ps (Z.of_nat si) fp sp (resolved_post_wipe_retract_length w)
  = Some (plan_steps (wipe_plan_from w first rest anchor)).
Proof.
  intros Hdrop Hps Hfp Hsp.
  destruct (kept_entries ps si first rest Hdrop) as (Hlen & Hfirst & Hnewest & Hrest).
  pose proof (deref_current_at w ps si fp first Hps Hfirst Hfp) as Hcur.
  unfold push_wipe_steps.
  replace (Z.of_nat (length ps) - 1)%Z with (Z.of_nat (si + length rest)) by lia.
  rewrite position_at_nat by lia.
  assert (Hlast : deref w (Some (history_loc (si + length rest)))
                  = Some (List.last rest first)).
  { simpl. by rewrite Hps. }
  rewrite Hlast. simpl.
  set (has_pre := greater_than (pre_wipe_retract_length_ w) (of_Z 0)).
  set (pre_steps :=
         if has_pre then
           [step_ef (if is_extruder_relative (List.last rest first)
                     then of_Z (-1) * pre_wipe_retract_length_ w
                     else get_offset_e (List.last rest first) - pre_wipe_retract_length_ w)
                    (retraction_feedrate (settings_ w))]
         else []).
  assert (Hpre : (if has_pre then
                    Some (true,
                          [get_retract_step
                             (if is_extruder_relative (List.last rest first)
                              then of_Z (-1) * pre_wipe_retract_length_ w
                              else get_offset_e (List.last rest first)
                                   - pre_wipe_retract_length_ w)
                             (retraction_feedrate (settings_ w))])
                  else Some (false, [])) = Some (has_pre, pre_steps)).
  { subst pre_steps. by destruct has_pre. }
  rewrite Hpre. simpl. clear Hpre.
  destruct (wipe_pass_0 w ps si fp has_pre Hcur sp
              {| previous_position := NULL; current_position := NULL;
                 current_offset_e := of_Z 0; feedrate := wipe_feedrate (settings_ w);
                 wipe_steps := pre_steps |}
              first anchor rest Hdrop eq_refl Hsp)
    as (st1 & -> & Hp1 & Hc1 & He1 & Hf1 & Hs1).
  simpl.
  destruct (wipe_pass_1 w ps si fp has_pre Hcur sp st1 first rest Hdrop Hp1 Hc1)
    as (st2 & -> & Hc2 & He2 & Hf2 & Hs2).
  simpl.
  assert (Hnn : pointer_eqb (current_position st2) NULL = false).
  { apply pointer_eqb_false. intros Heq. by rewrite Heq in Hc2. }
  rewrite Hnn, Hc2, andb_true_r. simpl.
  unfold plan_steps, wipe_plan_from. simpl.
  fold has_pre. fold pre_steps.
  rewrite Hs2, Hs1, He2, Hf2, He1, Hf1. simpl.
  destruct (resolved_post_wipe_retract_length w >? of_Z 0); simpl.
  - rewrite <- !app_assoc. done.
  - rewrite app_nil_r, <- !app_assoc. done.
Qed.

Lemma wipe_segments_set_heap (w : gcode_wiper) (m : gmap positive gcode_wiper_position)
    (is_return : bool) (path : list gcode_wiper_position) :
  forall (from : gcode_wiper_position) (e f : double),
    wipe_segments (set_heap w m) is_return from path e f
    = wipe_segments w is_return from path e f.
Proof.
  induction path as [| v path IH]; intros from e f; [done |].
  simpl. rewrite !IH. done.
Qed.

Lemma wipe_plan_from_set_heap (w : gcode_wiper) (m : gmap positive gcode_wiper_position)
    (first anchor : gcode_wiper_position) (rest : list gcode_wiper_position) :
  wipe_plan_from (set_heap w m) first rest anchor = wipe_plan_from w first rest anchor.
Proof.
  unfold wipe_plan_from. rewrite !wipe_segments_set_heap. done.
Qed.

Lemma get_wipe_steps_nothing (w : gcode_wiper) :
  nothing_to_wipe w = true -> get_wipe_steps w = Some (([], w), []).
Proof. intros Hn. unfold get_wipe_steps. by rewrite Hn. Qed.

(** [get_wipe_steps] on a state with something to wipe: it returns, leaves
    the state as it was, and the steps are the plan for the kept entries and
    the (clipped) starting position. *)
Lemma get_wipe_steps_spec (w : gcode_wiper) :
  wf w -> nothing_to_wipe w = false ->
  exists first rest anchor,
    drop (start_index (history_ w)) (positions (history_ w)) = first :: rest
    /\ deref w (p_starting_position_ w) = Some anchor
    /\ get_wipe_steps w
       = Some ((plan_steps (wipe_plan_of w first rest anchor), w),
               wipe_divisors w first anchor).
Proof.
  intros [Hstart _ _] Hn.
  unfold nothing_to_wipe in Hn.
  apply orb_false_iff in Hn as [Hn Hsize].
  apply orb_false_iff in Hn as [Htotal Hnull].
  apply pointer_eqb_false in Hnull.
  apply Z.ltb_ge in Hsize. unfold history_size in Hsize.
  destruct Hstart as [Hstart | (a & Hstart & [anchor Hanchor])]; [done |].
  set (ps := positions (history_ w)) in *.
  set (si := start_index (history_ w)) in *.
  destruct (lookup_lt_is_Some_2 ps si ltac:(lia)) as [first Hfirst].
  exists first, (drop (S si) ps), anchor.
  assert (Hdrop : drop si ps = first :: drop (S si) ps) by (by apply drop_S).
  assert (Hderef : deref w (p_starting_position_ w) = Some anchor).
  { by rewrite Hstart. }
  split; [done |]. split; [done |].
  unfold get_wipe_steps, wipe_plan_of, wipe_anchor, wipe_divisors.
  unfold nothing_to_wipe, history_size. fold ps. fold si.
  replace ((total_distance_ w =? of_Z 0) || pointer_eqb (p_starting_position_ w) NULL
           || (Z.of_nat (length ps) - Z.of_nat si <? 1)%Z) with false.
  2:{ symmetry. apply orb_false_iff. split; [apply orb_false_iff; split |].
      - done.
      - by apply pointer_eqb_false.
      - apply Z.ltb_ge. lia. }
  unfold get_position_history. fold ps. fold si.
  rewrite position_at_nat by lia.
  fold (resolved_post_wipe_retract_length w).
  destruct (greater_than (get_extra_retraction w) (of_Z 0)) eqn:Hextra.
  - destruct (clip_wipe_path_spec (get_extra_retraction w) (Some (history_loc si))
                (p_starting_position_ w) w first anchor)
      as (a1 & a2 & Ha1 & Ha2 & Hne & ->); [done | done |].
    simpl.
    set (m1 := <[a2 := clipped (get_extra_retraction w) first anchor]>
                 (<[a1 := first]> (heap_ w))).
    change (resolved_post_wipe_retract_length w)
      with (resolved_post_wipe_retract_length (set_heap w m1)).
    rewrite (push_wipe_steps_spec (set_heap w m1) ps si _ _ first
               (clipped (get_extra_retraction w) first anchor) (drop (S si) ps) Hdrop).
    + simpl. subst m1. rewrite !lookup_insert_eq. simpl.
      rewrite delete_insert_eq, lookup_delete_ne, lookup_insert_eq by done. simpl.
      rewrite wipe_plan_from_set_heap, !set_heap_set_heap.
      assert (Hheap : delete a1 (delete a2 (<[a1 := first]> (heap_ w))) = heap_ w).
      { rewrite delete_insert_ne by done.
        rewrite delete_insert_eq.
        rewrite (delete_id _ a2) by done. by apply delete_id. }
      by rewrite Hheap, set_heap_id.
    + done.
    + simpl. subst m1. rewrite lookup_insert_ne by done. apply lookup_insert_eq.
    + simpl. subst m1. apply lookup_insert_eq.
  - simpl.
    rewrite (push_wipe_steps_spec w ps si _ _ first anchor (drop (S si) ps) Hdrop);
      [done | done | by simpl | done].
Qed.

Lemma get_wipe_steps_state (w : gcode_wiper) (r : traced (list gcode_wiper_step * gcode_wiper)) :
  wf w -> get_wipe_steps w = Some r -> snd (fst r) = w.
Proof.
  intros Hwf Hr. destruct (nothing_to_wipe w) eqn:Hn.
  - rewrite (get_wipe_steps_nothing w Hn) in Hr. by simplify_eq.
  - destruct (get_wipe_steps_spec w Hwf Hn) as (first & rest & anchor & _ & _ & Heq).
    rewrite Heq in Hr. by simplify_eq.
Qed.

(** ** The invariant *)

Lemma wf_new (args : gcode_wiper_args) (u : indeterminate) : wf (gcode_wiper_new args u).
Proof. split; simpl; try by left. done. Qed.

Lemma wf_initialize (w : gcode_wiper) : wf w -> wf (initialize w).
Proof.
  intros [Hs Hp _]. split; simpl; try done.
Qed.

Lemma wf_set_settings (w : gcode_wiper) (args : gcode_wiper_args) :
  wf w -> wf (set_settings w args).
Proof. intros [Hs Hp Hi]. by split. Qed.

Lemma wf_set_use_full_wipe (w : gcode_wiper) (b : bool) :
  wf w -> wf (set_use_full_wipe w b).
Proof. intros [Hs Hp Hi]. by split. Qed.

Lemma wf_undo (w w' : gcode_wiper) : wf w -> undo w = Some w' -> wf w'.
Proof.
  intros Hwf Hu.
  destruct (undo_spec w Hwf)
    as (w1 & Heq & Hs & Hp & Ht & Hpt & Hh & Hcfg & Hd & Hl).
  rewrite Heq in Hu. injection Hu as ->.
  split.
  - by rewrite Hs.
  - rewrite Hp. by left.
  - intros Hi. rewrite (configuration_initialized _ _ Hcfg) in Hi.
    destruct (wf_not_initialized w Hwf Hi) as (Hs0 & Hp0 & Ht0 & Hpt0 & Hh0).
    rewrite Hs, Hp, Ht, Hpt, Hh, Hh0. by repeat split.
Qed.

Lemma wf_update (cur prev : position) (w w' : gcode_wiper) :
  wf w -> update cur prev w = Some w' -> wf w'.
Proof.
  intros Hwf Hu. destruct (is_initialized_ w) eqn:Hi.
  - destruct (clears_history cur) eqn:Hc.
    + destruct (update_clear cur prev w Hwf Hi Hc)
        as (w1 & Heq & Hcfg & Ht & Hh & Hpt & Hs & Hp & Hd & Hl).
      rewrite Heq in Hu. injection Hu as ->.
      split.
      * by rewrite Hs.
      * by rewrite Hp.
      * intros Hi'. rewrite (configuration_initialized _ _ Hcfg) in Hi'. congruence.
    + destruct (update_append cur prev w w' Hwf Hi Hc Hu)
        as (Hcfg & Hpt & Hp & Hl & Hl' & Hd & _).
      split.
      * done.
      * by rewrite Hp.
      * intros Hi'. rewrite (configuration_initialized _ _ Hcfg) in Hi'. congruence.
  - rewrite (update_not_initialized cur prev w Hi) in Hu. by simplify_eq.
Qed.

(** Every reachable state satisfies the invariant. *)
Lemma reachable_wf (w : gcode_wiper) : reachable w -> wf w.
Proof.
  induction 1 as [args u | args u | w args _ IH | w b _ IH
                  | w cur prev w' _ IH Hu | w w' _ IH Hu | w r _ IH Hr].
  - apply wf_new.
  - apply wf_initialize, wf_new.
  - by apply wf_initialize, wf_set_settings.
  - by apply wf_set_use_full_wipe.
  - by apply (wf_update cur prev w).
  - by apply (wf_undo w).
  - by rewrite (get_wipe_steps_state w r IH Hr).
Qed.

Lemma reachable_after_update (cur prev : position) (w : gcode_wiper) :
  reachable w -> reachable (after_update cur prev w).
Proof.
  intros Hr. unfold after_update.
  destruct (update cur prev w) as [w' |] eqn:Hu; [| done].
  by eapply reachable_update.
Qed.

Lemma never_initialized_reachable (w : gcode_wiper) :
  never_initialized w -> reachable w.
Proof.
  induction 1 as [args u | w b _ IH | w cur prev w' _ IH Hu | w w' _ IH Hu | w r _ IH Hr].
  - apply reachable_new.
  - by apply reachable_use_full_wipe.
  - by eapply reachable_update.
  - by eapply reachable_undo.
  - by eapply reachable_get_wipe_steps.
Qed.

Lemma never_initialized_flag (w : gcode_wiper) :
  never_initialized w -> is_initialized_ w = false.
Proof.
  induction 1 as [args u | w b H0 IH | w cur prev w' H0 IH Hu | w w' H0 IH Hu
                  | w r H0 IH Hr].
  - done.
  - done.
  - rewrite (update_not_initialized cur prev w IH) in Hu. congruence.
  - pose proof (reachable_wf w (never_initialized_reachable w H0)) as Hwf.
    destruct (undo_spec w Hwf) as (w1 & Heq & _ & _ & _ & _ & _ & Hcfg & _).
    rewrite Heq in Hu. injection Hu as <-.
    by rewrite (configuration_initialized _ _ Hcfg).
  - pose proof (reachable_wf w (never_initialized_reachable w H0)) as Hwf.
    by rewrite (get_wipe_steps_state w r Hwf Hr).
Qed.

(** ** The shape of the step sequence *)

Lemma motion_step_not_retract (w : gcode_wiper) (from to : gcode_wiper_position)
    (rr e f : double) (is_return : bool) :
  is_retract_only (fst (motion_step w from to rr e f is_return)) = false.
Proof.
  unfold motion_step.
  destruct (use_full_wipe_ w && is_return); [done |].
  by destruct (is_extruder_relative to).
Qed.

Lemma wipe_segments_shape (w : gcode_wiper) (is_return : bool)
    (path : list gcode_wiper_position) :
  forall (from : gcode_wiper_position) (e f : double),
    length (fst (wipe_segments w is_return from path e f)) = length path
    /\ Forall (fun s => is_retract_only s = false)
              (fst (wipe_segments w is_return from path e f)).
Proof.
  induction path as [| v path IH]; intros from e f; simpl.
  - split; [done | constructor].
  - destruct (IH v (snd (motion_step w from v (segment_retraction w from v) e f is_return))
                (of_Z (-1))) as [Hlen Hall].
    split; [by rewrite Hlen |].
    constructor; [apply motion_step_not_retract | done].
Qed.

Lemma begins_with_motion (middle tail : list gcode_wiper_step) :
  Forall (fun s => is_retract_only s = false) middle -> middle <> [] ->
  begins_with_retract (middle ++ tail) = false.
Proof.
  intros Hall Hne. destruct middle as [| s middle]; [done |].
  simpl. by inversion Hall.
Qed.

Lemma ends_with_motion (head middle : list gcode_wiper_step) :
  Forall (fun s => is_retract_only s = false) middle -> middle <> [] ->
  ends_with_retract (head ++ middle) = false.
Proof.
  intros Hall Hne. unfold ends_with_retract.
  rewrite rev_app_distr. apply begins_with_motion.
  - apply Forall_forall. intros s Hs.
    rewrite Forall_forall in Hall. apply Hall.
    apply list_elem_of_In. apply list_elem_of_In, in_rev in Hs. done.
  - intros Hnil. apply Hne.
    apply (f_equal (@rev _)) in Hnil. by rewrite rev_involutive in Hnil.
Qed.

(** The parts of a plan: at most one retract before and after, and between
    them only motion steps. *)
Lemma wipe_plan_from_shape (w : gcode_wiper) (first : gcode_wiper_position)
    (rest : list gcode_wiper_position) (anchor : gcode_wiper_position) :
  let plan := wipe_plan_from w first rest anchor in
  (exists e f,
      pre_retract plan
      = if greater_than (pre_wipe_retract_length_ w) (of_Z 0) then [step_ef e f] else [])
  /\ (exists e f,
         post_retract plan
         = if resolved_post_wipe_retract_length w >? of_Z 0 then [step_ef e f] else [])
  /\ length (outbound plan) = length rest
  /\ length (turn_around plan) = 2%nat
  /\ length (returning plan) = length rest
  /\ Forall (fun s => is_retract_only s = false)
            (outbound plan ++ turn_around plan ++ returning plan).
Proof.
  cbv zeta. unfold wipe_plan_from. cbn [pre_retract post_retract outbound turn_around returning].
  split; [by eexists _, _ |]. split; [by eexists _, _ |].
  split.
  { rewrite (proj1 (wipe_segments_shape _ _ _ _ _ _)).
    rewrite <- rev_take_tail, length_rev, length_take.
    change (length (first :: rest)) with (S (length rest)). lia. }
  split; [done |].
  split; [apply wipe_segments_shape |].
  apply Forall_app. split; [apply wipe_segments_shape |].
  repeat constructor; try apply motion_step_not_retract.
  apply wipe_segments_shape.
Qed.

(** ** The claims *)

(** C1, as the code has it.  For every reachable state in which
    [get_wipe_steps] pushes steps, the output is, in this order: the pre-wipe
    retract, the outbound wipe segments (one per kept entry after the first),
    the two steps of the turn-around, the return wipe segments (as many), the
    post-wipe retract.  It begins with a retract-only step if and only if
    [utilities::greater_than(pre_wipe_retract_length_, 0)], the
    tolerance-based comparison; and it ends with one if and only if the
    resolved post-wipe retract length (the base value, plus
    [get_missing_retraction()] when
    [utilities::greater_than_or_equal(missing_retraction, 0)],
    tolerance-based too) is [> 0] in the comparison of the language; no step
    between them is retract-only. *)
Theorem wipe_steps_order (w w' : gcode_wiper) (steps : list gcode_wiper_step)
    (divisors : list double) :
  reachable w -> get_wipe_steps w = Some ((steps, w'), divisors) -> steps <> [] ->
  exists first rest anchor,
    drop (start_index (history_ w)) (positions (history_ w)) = first :: rest
    /\ deref w (p_starting_position_ w) = Some anchor
    /\ let plan := wipe_plan_of w first rest anchor in
       steps = pre_retract plan ++ outbound plan ++ turn_around plan
               ++ returning plan ++ post_retract plan
       /\ begins_with_retract steps
          = greater_than (pre_wipe_retract_length_ w) (of_Z 0)
       /\ ends_with_retract steps
          = (resolved_post_wipe_retract_length w >? of_Z 0)
       /\ length (pre_retract plan)
          = (if greater_than (pre_wipe_retract_length_ w) (of_Z 0) then 1 else 0)%nat
       /\ length (outbound plan) = length rest
       /\ length (turn_around plan) = 2%nat
       /\ length (returning plan) = length rest
       /\ length (post_retract plan)
          = (if resolved_post_wipe_retract_length w >? of_Z 0 then 1 else 0)%nat
       /\ Forall (fun s => is_retract_only s = false)
                 (outbound plan ++ turn_around plan ++ returning plan).
Proof.
  intros Hr Hsteps Hne. pose proof (reachable_wf w Hr) as Hwf.
  destruct (nothing_to_wipe w) eqn:Hn.
  { rewrite (get_wipe_steps_nothing w Hn) in Hsteps. by simplify_eq. }
  destruct (get_wipe_steps_spec w Hwf Hn) as (first & rest & anchor & Hdrop & Hd & Heq).
  rewrite Heq in Hsteps. injection Hsteps as <- _ _.
  exists first, rest, anchor. split; [done |]. split; [done |].
  cbv zeta. unfold wipe_plan_of.
  destruct (wipe_plan_from_shape w first rest (wipe_anchor w first anchor))
    as ((e1 & f1 & Hpre) & (e2 & f2 & Hpost) & Hout & Hturn & Hret & Hmiddle).
  remember (wipe_plan_from w first rest (wipe_anchor w first anchor)) as plan eqn:Hplan.
  assert (Hnonempty : outbound plan ++ turn_around plan ++ returning plan <> []).
  { intros Hnil. apply (f_equal (@length _)) in Hnil.
    rewrite !length_app, Hturn in Hnil. simpl in Hnil. lia. }
  unfold plan_steps.
  repeat split; try done.
  - rewrite Hpre.
    destruct (greater_than (pre_wipe_retract_length_ w) (of_Z 0)); [done |].
    simpl. rewrite 2!app_assoc, <- (app_assoc _ _ (returning _)).
    by apply begins_with_motion.
  - rewrite Hpost.
    destruct (resolved_post_wipe_retract_length w >? of_Z 0).
    + unfold ends_with_retract. rewrite !app_assoc, rev_unit. done.
    + rewrite !app_nil_r. by apply ends_with_motion.
  - rewrite Hpre. by destruct (greater_than _ _).
  - rewrite Hpost. by destruct (_ >? _).
Qed.

(** C10. For every reachable state, two calls of [undo] with no [update]
    between them return and leave the starting position null and
    [total_distance] equal to 0: the first call consumes the snapshot (it
    leaves the saved anchor null and the saved distance 0), and the second
    call restores from that emptied snapshot. *)
Theorem undo_twice_clears (w : gcode_wiper) :
  reachable w ->
  exists w1 w2,
    undo w = Some w1 /\ undo w1 = Some w2
    /\ p_previous_starting_position_ w1 = NULL
    /\ previous_total_distance_ w1 = of_Z 0
    /\ p_starting_position_ w2 = NULL
    /\ total_distance_ w2 = of_Z 0.
Proof.
  intros Hr. pose proof (reachable_wf w Hr) as Hwf.
  destruct (undo_spec w Hwf) as (w1 & Hu1 & _ & Hp1 & _ & Hpt1 & _).
  pose proof (wf_undo w w1 Hwf Hu1) as Hwf1.
  destruct (undo_spec w1 Hwf1) as (w2 & Hu2 & Hs2 & _ & Ht2 & _).
  exists w1, w2. repeat split; try done; congruence.
Qed.

(** C9. On an engine whose [initialize] has never been called, whatever
    calls came before, [update] returns and leaves the whole state as it
    was, for every pair of positions, and [get_wipe_steps] returns no step
    (and performs no division). *)
Theorem never_initialized_no_op (w : gcode_wiper) (cur prev : position) :
  never_initialized w ->
  update cur prev w = Some w /\ get_wipe_steps w = Some (([], w), []).
Proof.
  intros Hn.
  pose proof (never_initialized_flag w Hn) as Hi.
  pose proof (reachable_wf w (never_initialized_reachable w Hn)) as Hwf.
  split; [by apply update_not_initialized |].
  apply get_wipe_steps_nothing. unfold nothing_to_wipe.
  destruct (wf_not_initialized w Hwf Hi) as (Hs & _).
  rewrite Hs, pointer_eqb_refl. by destruct (total_distance_ w =? of_Z 0).
Qed.

(** C6. For every reachable state and every current position that is a
    layer change, or that is not an extruding move in X and Y, [update]
    returns a state whose history is empty and whose [total_distance] is 0. *)
Theorem update_clears_history (w : gcode_wiper) (cur prev : position) :
  reachable w ->
  is_layer_change_ cur = true
  \/ has_xy_position_changed_ cur && is_extruding_ cur = false ->
  exists w',
    update cur prev w = Some w'
    /\ positions (history_ w') = []
    /\ history_size (history_ w') = 0%Z
    /\ total_distance_ w' = of_Z 0.
Proof.
  intros Hr Hcur. pose proof (reachable_wf w Hr) as Hwf.
  assert (Hc : clears_history cur = true).
  { unfold clears_history. destruct Hcur as [-> | ->]; [done |].
    by rewrite orb_true_r. }
  destruct (is_initialized_ w) eqn:Hi.
  - destruct (update_clear cur prev w Hwf Hi Hc) as (w' & Hu & _ & Ht & Hh & _).
    exists w'. rewrite Hh. by repeat split.
  - exists w. destruct (wf_not_initialized w Hwf Hi) as (_ & _ & Ht & _ & Hh).
    rewrite Hh. repeat split; try done. by apply update_not_initialized.
Qed.


(** C4, as the code has it.  For every appending [update] that returns,
    after the pruning loop either nothing was removed (the state is the
    appended one, and its total may be below the wipe distance), or the total
    is not [less_than] [get_wipe_distance()] in the tolerance-based comparison
    of the utilities: the loop never removes a front entry whose removal would
    leave the total [less_than] the required distance. *)
Theorem prune_keeps_wipe_distance (w w' : gcode_wiper) (cur prev : position) :
  reachable w -> is_initialized_ w = true -> clears_history cur = false ->
  update cur prev w = Some w' ->
  (total_distance_ w'
   = total_distance_ w + get_cartesian_distance (x_ prev) (y_ prev) (x_ cur) (y_ cur)
   /\ history_ w' = history_push_back cur (history_ w))
  \/ less_than (total_distance_ w') (get_wipe_distance w') = false.
Proof.
  intros Hr Hi Hc Hu. pose proof (reachable_wf w Hr) as Hwf.
  destruct (update_append cur prev w w' Hwf Hi Hc Hu) as (Hcfg & _ & _ & _ & _ & _ & Hor).
  by rewrite (configuration_wipe_distance _ _ Hcfg).
Qed.

(** The divisions of [initialize]: the guarded one by the sum of the
    percentages, then the two that nothing guards. *)
Lemma initialize_divisors (w : gcode_wiper) :
  exists guarded,
    snd (initialize_traced w)
    = guarded ++ [retraction_feedrate (settings_ w); wipe_distance_ (initialize w)]
    /\ (guarded = []
        \/ exists t, guarded = [t] /\ greater_than t (of_Z 1) = true /\ is_zero t = false).
Proof.
  unfold initialize, initialize_traced.
  set (before := clamp_percent (retract_before_wipe_percent (settings_ w))).
  set (after := clamp_percent (retract_after_wipe_percent (settings_ w))).
  destruct (greater_than (before + after) (of_Z 1) && negb (is_zero (before + after)))
    eqn:Hguard.
  - exists [before + after]. split; [done |]. right.
    apply andb_true_iff in Hguard as [Hgt Hz]. apply negb_true_iff in Hz.
    by exists (before + after).
  - exists []. split; [done | by left].
Qed.

(** C7, as the code has it.  [initialize] divides by [retraction_feedrate]
    and by the wipe distance that it computes, without a guard: when the
    settings make [wipe_distance] equal to 0, a division by zero has been
    performed.  [get_wipe_steps] does not test [wipe_distance]: on every
    reachable state it returns an empty sequence exactly when
    [total_distance == 0], the starting position is null or the history is
    empty. *)
Theorem wipe_distance_not_guarded (w : gcode_wiper)
    (r : traced (list gcode_wiper_step * gcode_wiper)) :
  reachable w -> get_wipe_steps w = Some r ->
  In (retraction_feedrate (settings_ w)) (snd (initialize_traced w))
  /\ In (wipe_distance_ (initialize w)) (snd (initialize_traced w))
  /\ (fst (fst r) = [] <-> nothing_to_wipe w = true).
Proof.
  intros Hr Hsteps. pose proof (reachable_wf w Hr) as Hwf.
  destruct (initialize_divisors w) as (guarded & -> & _).
  split; [apply in_or_app; right; by left |].
  split; [apply in_or_app; right; right; by left |].
  destruct (nothing_to_wipe w) eqn:Hn.
  - rewrite (get_wipe_steps_nothing w Hn) in Hsteps. injection Hsteps as <-. done.
  - destruct (get_wipe_steps_spec w Hwf Hn) as (first & rest & anchor & _ & _ & Heq).
    rewrite Heq in Hsteps. injection Hsteps as <-. simpl.
    split; [| done]. intros Hnil. exfalso.
    destruct (wipe_plan_from_shape w first rest (wipe_anchor w first anchor))
      as (_ & _ & _ & Hturn & _).
    apply (f_equal (@length _)) in Hnil.
    unfold plan_steps, wipe_plan_of in Hnil. rewrite !length_app, Hturn in Hnil.
    simpl in Hnil. lia.
Qed.

End WiperProperties.

(** * Further properties

    Properties of the member functions beyond the specification: the
    ownership of the allocated objects and the destructor, the effect of
    [update] on the history, and the steps that [get_wipe_steps] pushes. *)

Section WiperCoverage.
Context `{U : Utilities}.
Local Open Scope double_scope.

(** ** Ownership of the objects *)

Lemma heap_without_is_Some (p : pointer) (m : gmap positive gcode_wiper_position)
    (a : positive) :
  is_Some (heap_without p m !! a) -> is_Some (m !! a) /\ p <> Some (heap_loc a).
Proof.
  destruct p as [[b | i] |]; simpl; [| done | done].
  rewrite lookup_delete_is_Some. intros [Hne Ha]. split; [done | congruence].
Qed.

Lemma save_undo_data_owned (w w1 : gcode_wiper) :
  wf w -> anchors_own_heap w -> save_undo_data w = Some w1 -> anchors_own_heap w1.
Proof.
  intros [Hs Hp _] Hown. unfold save_undo_data.
  destruct (negb (pointer_eqb (p_previous_starting_position_ w) NULL)
            && negb (pointer_eqb (p_previous_starting_position_ w)
                                 (p_starting_position_ w))) eqn:Hc.
  - rewrite (delete_position_live _ _ Hp). simpl. intros [= <-] a Ha. simpl in *.
    apply heap_without_is_Some in Ha as [Ha Hne].
    destruct (Hown a Ha) as [Hx | Hx]; [by left | congruence].
  - simpl. intros [= <-] a Ha. simpl in *.
    destruct (Hown a Ha) as [Hx | Hx]; [by left |].
    apply andb_false_iff in Hc as [Hc | Hc]; apply negb_false_iff, pointer_eqb_true in Hc.
    + congruence.
    + left. congruence.
Qed.

Lemma restore_undo_data_owned (w w1 : gcode_wiper) :
  wf w -> anchors_own_heap w -> restore_undo_data w = Some w1 -> anchors_own_heap w1.
Proof.
  intros [Hs Hp _] Hown. unfold restore_undo_data.
  destruct (negb (pointer_eqb (p_starting_position_ w) NULL)
            && negb (pointer_eqb (p_starting_position_ w)
                                 (p_previous_starting_position_ w))) eqn:Hc.
  - rewrite (delete_position_live _ _ Hs). simpl. intros [= <-] a Ha. simpl in *.
    apply heap_without_is_Some in Ha as [Ha Hne].
    destruct (Hown a Ha) as [Hx | Hx]; [congruence | by left].
  - simpl. intros [= <-] a Ha. simpl in *.
    destruct (Hown a Ha) as [Hx | Hx]; [| by left].
    apply andb_false_iff in Hc as [Hc | Hc]; apply negb_false_iff, pointer_eqb_true in Hc.
    + congruence.
    + left. congruence.
Qed.

Lemma undo_owned (w w1 : gcode_wiper) :
  wf w -> anchors_own_heap w -> undo w = Some w1 -> anchors_own_heap w1.
Proof.
  intros Hwf Hown. unfold undo.
  destruct (restore_undo_data w) as [w0 |] eqn:Hr; [| done].
  simpl. intros [= <-].
  exact (restore_undo_data_owned w w0 Hwf Hown Hr).
Qed.

Lemma prune_front_owned (w w' : gcode_wiper) (v : gcode_wiper_position) (t : double) :
  live w (p_starting_position_ w) -> anchors_own_heap w ->
  prune_front w v t = Some w' -> anchors_own_heap w'.
Proof.
  intros Hs Hown. unfold prune_front.
  destruct (negb (pointer_eqb (p_starting_position_ w) NULL)
            && negb (pointer_eqb (p_previous_starting_position_ w)
                                 (p_starting_position_ w))) eqn:Hc.
  - rewrite (delete_position_live _ _ Hs). simpl. intros [= <-] a Ha. simpl in *.
    destruct (decide (a = fresh (dom (heap_without (p_starting_position_ w) (heap_ w)))))
      as [-> | Hne]; [by left |].
    rewrite lookup_insert_ne in Ha by done.
    apply heap_without_is_Some in Ha as [Ha Hne'].
    destruct (Hown a Ha) as [Hx | Hx]; [congruence | by right].
  - simpl. intros [= <-] a Ha. simpl in *.
    destruct (decide (a = fresh (dom (heap_ w)))) as [-> | Hne]; [by left |].
    rewrite lookup_insert_ne in Ha by done.
    destruct (Hown a Ha) as [Hx | Hx]; [| by right].
    apply andb_false_iff in Hc as [Hc | Hc]; apply negb_false_iff, pointer_eqb_true in Hc.
    + congruence.
    + right. congruence.
Qed.

Lemma history_peek_Some (w : gcode_wiper) (front : gcode_wiper_position) :
  deref w (history_peek (history_ w)) = Some front ->
  positions (history_ w) !! start_index (history_ w) = Some front.
Proof.
  unfold history_peek.
  destruct (Nat.lt_ge_cases (start_index (history_ w)) (length (positions (history_ w))))
    as [Hlt | Hge].
  - by rewrite position_at_nat.
  - by rewrite position_at_outside.
Qed.

(** What the pruning loop has done when it returns: it has removed [k]
    entries from the front; the starting position is then a copy of the last
    one removed; and it has stopped because the total is not above the
    distance, or because removing one more entry would leave the total
    [less_than] the distance. *)
Lemma prune_loop_removed (fuel : nat) (d : double) (w w' : gcode_wiper) :
  live w (p_starting_position_ w) ->
  live w (p_previous_starting_position_ w) ->
  prune_loop fuel d w = Some w' ->
  exists k : nat,
    positions (history_ w') = positions (history_ w)
    /\ start_index (history_ w') = (start_index (history_ w) + k)%nat
    /\ match k with
       | O => w' = w
       | S k' =>
           (start_index (history_ w) + k <= length (positions (history_ w)))%nat
           /\ deref w' (p_starting_position_ w')
              = positions (history_ w) !! (start_index (history_ w) + k')%nat
       end
    /\ ((total_distance_ w' >? d) = false
        \/ exists front anchor,
             deref w' (history_peek (history_ w')) = Some front
             /\ deref w' (p_starting_position_ w') = Some anchor
             /\ less_than (total_distance_ w'
                           - get_cartesian_distance (x anchor) (y anchor)
                                                    (x front) (y front)) d = true)
    /\ (anchors_own_heap w -> anchors_own_heap w').
Proof.
  revert w. induction fuel as [| fuel IH]; intros w Hs Hp; simpl.
  - destruct (total_distance_ w >? d) eqn:Hgt; [done |].
    intros [= <-]. exists 0%nat. rewrite Nat.add_0_r. repeat split; try done. by left.
  - destruct (total_distance_ w >? d) eqn:Hgt.
    2:{ intros [= <-]. exists 0%nat. rewrite Nat.add_0_r. repeat split; try done. by left. }
    destruct (deref w (history_peek (history_ w))) as [front |] eqn:Hfront; [| done]. simpl.
    destruct (deref w (p_starting_position_ w)) as [start |] eqn:Hstart; [| done]. simpl.
    destruct (less_than (total_distance_ w - _) d) eqn:Hlt.
    { intros [= <-]. exists 0%nat. rewrite Nat.add_0_r. repeat split; try done.
      right. by exists front, start. }
    destruct (prune_front_spec w front
                (total_distance_ w
                 - get_cartesian_distance (x start) (y start) (x front) (y front)) Hs Hp)
      as (w1 & Hw1 & _ & _ & _ & Hpp & Hh & Hs1 & Hp1 & _ & Hd1).
    rewrite Hw1. simpl. intros Hloop.
    rewrite <- Hpp in Hp1.
    destruct (IH w1 Hs1 Hp1 Hloop) as (k & Hps & Hsi & Hk & Hstop & Hown).
    rewrite Hh in Hps, Hsi. simpl in Hps, Hsi.
    pose proof (history_peek_Some w front Hfront) as Hlk.
    pose proof (lookup_lt_Some _ _ _ Hlk) as Hlen.
    exists (S k). split; [done |]. split; [lia |]. split.
    + destruct k as [| k'].
      * subst w'. rewrite Nat.add_0_r, Hd1. split; [lia | done].
      * destruct Hk as [Hle Hk]. rewrite Hh in Hle, Hk. simpl in Hle, Hk.
        split; [lia |]. rewrite Hk. f_equal. lia.
    + split; [done |]. intros Hw. apply Hown.
      exact (prune_front_owned w w1 front _ Hs Hw Hw1).
Qed.
(** The state of an appending [update] when it calls [prune_history]. *)
Lemma update_append_state (cur prev : position) (w : gcode_wiper) :
  wf w -> is_initialized_ w = true -> clears_history cur = false ->
  exists w5,
    update cur prev w = prune_history w5
    /\ configuration w5 = configuration w
    /\ history_ w5 = history_push_back cur (history_ w)
    /\ total_distance_ w5
       = total_distance_ w
         + get_cartesian_distance (x_ prev) (y_ prev) (x_ cur) (y_ cur)
    /\ live w5 (p_starting_position_ w5)
    /\ live w5 (p_previous_starting_position_ w5)
    /\ deref w5 (p_starting_position_ w5)
       = (if (history_size (history_ w) =? 0)%Z
          then Some (gcode_wiper_position_of prev)
          else deref w (p_starting_position_ w))
    /\ (anchors_own_heap w -> anchors_own_heap w5).
Proof.
  intros Hwf Hi Hc. unfold update. rewrite Hi, Hc. simpl.
  destruct (save_undo_data_wf w Hwf)
    as (w1 & Hsave & Hs & Hp & Ht & Hpt & Hh & Hcfg & Hd & Hl).
  rewrite Hsave. simpl.
  assert (Halias : pointer_eqb (p_starting_position_ w1)
                               (p_previous_starting_position_ w1) = true).
  { apply pointer_eqb_true. congruence. }
  rewrite Halias, andb_false_r. simpl.
  assert (Hl1 : live w1 (p_starting_position_ w1)) by (by rewrite Hs).
  destruct (history_size (history_ w1) =? 0)%Z eqn:Hsize; simpl;
    rewrite Hh in Hsize; rewrite Hsize.
  - eexists. split; [reflexivity |]. simpl. rewrite Ht, Hh.
    repeat split; try done.
    + right. eexists. split; [reflexivity |]. simpl.
      rewrite lookup_insert_eq. by eexists.
    + rewrite Hp. exact (live_insert w1 _ _ _ Hl).
    + by rewrite lookup_insert_eq.
    + intros Hown a Ha. simpl in *.
      destruct (decide (a = fresh (dom (heap_ w1)))) as [-> | Hne]; [by left |].
      rewrite lookup_insert_ne in Ha by done.
      right.
      destruct (save_undo_data_owned w w1 Hwf Hown Hsave a Ha); congruence.
  - eexists. split; [reflexivity |]. simpl. rewrite Ht, Hh.
    repeat split; try done.
    + by rewrite Hp, <- Hs.
    + rewrite Hs, <- Hd.
      by destruct Hl as [-> | (a & -> & _)].
    + intros Hown. exact (save_undo_data_owned w w1 Hwf Hown Hsave).
Qed.
Lemma prune_history_removed (w w' : gcode_wiper) :
  live w (p_starting_position_ w) ->
  live w (p_previous_starting_position_ w) ->
  prune_history w = Some w' ->
  exists k : nat,
    positions (history_ w') = positions (history_ w)
    /\ start_index (history_ w') = (start_index (history_ w) + k)%nat
    /\ match k with
       | O => w' = w
       | S k' =>
           (start_index (history_ w) + k <= length (positions (history_ w)))%nat
           /\ deref w' (p_starting_position_ w')
              = positions (history_ w) !! (start_index (history_ w) + k')%nat
       end
    /\ ((total_distance_ w' >? get_wipe_distance w) = false
        \/ exists front anchor,
             deref w' (history_peek (history_ w')) = Some front
             /\ deref w' (p_starting_position_ w') = Some anchor
             /\ less_than (total_distance_ w'
                           - get_cartesian_distance (x anchor) (y anchor)
                                                    (x front) (y front))
                          (get_wipe_distance w) = true)
    /\ (anchors_own_heap w -> anchors_own_heap w').
Proof. unfold prune_history. apply prune_loop_removed. Qed.

Lemma update_owned (cur prev : position) (w w' : gcode_wiper) :
  wf w -> anchors_own_heap w -> update cur prev w = Some w' -> anchors_own_heap w'.
Proof.
  intros Hwf Hown Hu. destruct (is_initialized_ w) eqn:Hi.
  2:{ rewrite (update_not_initialized cur prev w Hi) in Hu. by simplify_eq. }
  destruct (clears_history cur) eqn:Hc.
  - unfold update in Hu. rewrite Hi, Hc in Hu. simpl in Hu.
    destruct (save_undo_data w) as [w1 |] eqn:Hsave; [| done].
    simpl in Hu. injection Hu as <-.
    exact (save_undo_data_owned w w1 Hwf Hown Hsave).
  - destruct (update_append_state cur prev w Hwf Hi Hc)
      as (w5 & Heq & _ & _ & _ & Hl & Hl' & _ & Hown5).
    rewrite Heq in Hu.
    destruct (prune_history_removed w5 w' Hl Hl' Hu) as (k & _ & _ & _ & _ & Hown').
    auto.
Qed.

(** No object leaks: on every reachable state the allocated objects are the
    objects of the anchors. *)
Lemma reachable_owned (w : gcode_wiper) : reachable w -> anchors_own_heap w.
Proof.
  induction 1 as [args u | args u | w args Hr IH | w b Hr IH
                  | w cur prev w' Hr IH Hu | w w' Hr IH Hu | w r Hr IH Hg].
  - intros a [v Hv]. simpl in Hv. by rewrite lookup_empty in Hv.
  - intros a [v Hv]. simpl in Hv. by rewrite lookup_empty in Hv.
  - exact IH.
  - exact IH.
  - exact (update_owned cur prev w w' (reachable_wf w Hr) IH Hu).
  - exact (undo_owned w w' (reachable_wf w Hr) IH Hu).
  - by rewrite (get_wipe_steps_state w r (reachable_wf w Hr) Hg).
Qed.

(** X1.  The destructor on a reachable state returns (it deletes no object
    twice and nothing that is not an object of the heap), and after it no
    object that the engine allocated is left: both anchors are null and the
    heap is empty. *)
Theorem destructor_deletes_every_object (w : gcode_wiper) :
  reachable w ->
  exists w',
    gcode_wiper_destructor w = Some w'
    /\ heap_ w' = ∅
    /\ p_starting_position_ w' = NULL
    /\ p_previous_starting_position_ w' = NULL.
Proof.
  intros Hr. pose proof (reachable_wf w Hr) as [Hs Hp _].
  pose proof (reachable_owned w Hr) as Hown.
  unfold gcode_wiper_destructor.
  destruct (pointer_eqb (p_starting_position_ w) (p_previous_starting_position_ w)
            && negb (pointer_eqb (p_starting_position_ w) NULL)) eqn:Hc.
  - apply andb_true_iff in Hc as [Heq Hnn]. apply pointer_eqb_true in Heq.
    rewrite (delete_position_live _ _ Hs). simpl.
    eexists. split; [reflexivity |]. simpl. split; [| done].
    apply map_empty. intros a. apply eq_None_not_Some. intros Ha.
    apply heap_without_is_Some in Ha as [Ha Hne].
    destruct (Hown a Ha); congruence.
  - destruct (pointer_eqb (p_starting_position_ w) NULL) eqn:Hnull; simpl.
    + apply pointer_eqb_true in Hnull.
      destruct (pointer_eqb (p_previous_starting_position_ w) NULL) eqn:Hnull'; simpl.
      * apply pointer_eqb_true in Hnull'.
        exists w. repeat split; try done.
        apply map_empty. intros a. apply eq_None_not_Some. intros Ha.
        destruct (Hown a Ha); congruence.
      * rewrite (delete_position_live _ _ Hp). simpl.
        eexists. split; [reflexivity |]. simpl. split; [| done].
        apply map_empty. intros a. apply eq_None_not_Some. intros Ha.
        apply heap_without_is_Some in Ha as [Ha Hne].
        destruct (Hown a Ha); congruence.
    + rewrite andb_true_r in Hc. apply pointer_eqb_false in Hc.
      rewrite (delete_position_live _ _ Hs). simpl.
      pose proof (live_heap_without w _ _ Hp (not_eq_sym Hc)) as Hp'.
      destruct (pointer_eqb (p_previous_starting_position_ w) NULL) eqn:Hnull'; simpl.
      * apply pointer_eqb_true in Hnull'.
        eexists. split; [reflexivity |]. simpl. split; [| done].
        apply map_empty. intros a. apply eq_None_not_Some. intros Ha.
        apply heap_without_is_Some in Ha as [Ha Hne].
        destruct (Hown a Ha); congruence.
      * pose proof (delete_position_live
                      (set_p_starting_position
                         (set_heap w (heap_without (p_starting_position_ w) (heap_ w))) NULL)
                      (p_previous_starting_position_ w)) as Hdel.
        simpl in Hdel. rewrite Hdel by exact Hp'. simpl.
        eexists. split; [reflexivity |]. simpl. split; [| done].
        apply map_empty. intros a. apply eq_None_not_Some. intros Ha.
        apply heap_without_is_Some in Ha as [Ha Hne].
        apply heap_without_is_Some in Ha as [Ha Hne'].
        destruct (Hown a Ha); congruence.
Qed.
Lemma pointer_addresses_size (p : pointer) :
  size (match p with Some (heap_loc a) => {[a]} | _ => (∅ : gset positive) end) <= 1.
Proof.
  destruct p as [[a | i] |].
  - by rewrite size_singleton.
  - rewrite size_empty. lia.
  - rewrite size_empty. lia.
Qed.

(** X2.  On every reachable state each object that the engine has allocated
    and not deleted is the object of the starting position or of the undo
    snapshot, so at most two such objects exist between two calls: [update],
    [undo] and [get_wipe_steps] leak nothing (the two copies that
    [get_wipe_steps] makes for clipping are deleted before it returns). *)
Theorem at_most_two_objects (w : gcode_wiper) :
  reachable w ->
  anchors_own_heap w /\ size (heap_ w) <= 2.
Proof.
  intros Hr. pose proof (reachable_owned w Hr) as Hown.
  split; [done |].
  rewrite <- size_dom.
  set (X := match p_starting_position_ w with
            | Some (heap_loc a) => {[a]} | _ => (∅ : gset positive) end).
  set (Y := match p_previous_starting_position_ w with
            | Some (heap_loc a) => {[a]} | _ => (∅ : gset positive) end).
  transitivity (size (X ∪ Y)).
  - apply subseteq_size. intros a Ha. apply elem_of_dom in Ha.
    apply elem_of_union. subst X Y.
    destruct (Hown a Ha) as [-> | ->]; [left | right]; by apply elem_of_singleton.
  - rewrite size_union_alt.
    pose proof (pointer_addresses_size (p_starting_position_ w)) as HX.
    pose proof (pointer_addresses_size (p_previous_starting_position_ w)) as HY.
    fold X in HX. fold Y in HY.
    assert (Hdiff : size (Y ∖ X) <= size Y).
    { apply subseteq_size. intros a Ha. by apply elem_of_difference in Ha as [Ha _]. }
    lia.
Qed.

(** X3.  On every reachable state [get_wipe_steps] returns (it reads
    through no null or dangling pointer and deletes only what it has
    allocated) and leaves the engine exactly as it was: members, history and
    heap. *)
Theorem get_wipe_steps_leaves_state (w : gcode_wiper) :
  reachable w ->
  exists steps divisors, get_wipe_steps w = Some ((steps, w), divisors).
Proof.
  intros Hr. pose proof (reachable_wf w Hr) as Hwf.
  destruct (nothing_to_wipe w) eqn:Hn.
  - exists [], []. by apply get_wipe_steps_nothing.
  - destruct (get_wipe_steps_spec w Hwf Hn) as (first & rest & anchor & _ & _ & Heq).
    by eexists _, _.
Qed.

(** X4.  After an [update] with a position that clears the wipe queue (a
    layer change, or a move that is not an extruding move in X and Y), the
    next [get_wipe_steps] pushes no step and performs no division. *)
Theorem no_wipe_after_clearing_update (w : gcode_wiper) (cur prev : position) :
  reachable w -> clears_history cur = true ->
  exists w', update cur prev w = Some w' /\ get_wipe_steps w' = Some (([], w'), []).
Proof.
  intros Hr Hc. pose proof (reachable_wf w Hr) as Hwf.
  destruct (is_initialized_ w) eqn:Hi.
  - destruct (update_clear cur prev w Hwf Hi Hc) as (w' & Hu & _ & _ & Hh & _).
    exists w'. split; [done |].
    apply get_wipe_steps_nothing. unfold nothing_to_wipe. rewrite Hh. simpl.
    apply orb_true_r.
  - exists w. split; [by apply update_not_initialized |].
    apply get_wipe_steps_nothing. unfold nothing_to_wipe.
    destruct (wf_not_initialized w Hwf Hi) as (Hs & _).
    rewrite Hs, pointer_eqb_refl. by destruct (total_distance_ w =? of_Z 0).
Qed.

(** X5.  An appending [update] that returns has appended the current
    position to the kept entries and then removed some number [k] of entries
    from the front.  With [k = 0] the starting position reads as before the
    call, or as a copy of [previous_position] when the history was empty;
    with [k > 0] it is a copy of the last entry removed. *)
Theorem update_appends_then_prunes (w w' : gcode_wiper) (cur prev : position) :
  reachable w -> is_initialized_ w = true -> clears_history cur = false ->
  update cur prev w = Some w' ->
  let entries :=
    drop (start_index (history_ w)) (positions (history_ w))
    ++ [gcode_wiper_position_of cur] in
  exists k : nat,
    (k <= length entries)%nat
    /\ positions (history_ w') = entries
    /\ start_index (history_ w') = k
    /\ deref w' (p_starting_position_ w')
       = match k with
         | O => if (history_size (history_ w) =? 0)%Z
                then Some (gcode_wiper_position_of prev)
                else deref w (p_starting_position_ w)
         | S k' => entries !! k'
         end.
Proof.
  intros Hr Hi Hc Hu entries. pose proof (reachable_wf w Hr) as Hwf.
  destruct (update_append_state cur prev w Hwf Hi Hc)
    as (w5 & Heq & _ & Hh & _ & Hl & Hl' & Hd & _).
  rewrite Heq in Hu.
  destruct (prune_history_removed w5 w' Hl Hl' Hu) as (k & Hps & Hsi & Hk & _).
  rewrite Hh in Hps, Hsi, Hk. simpl in Hps, Hsi, Hk.
  exists k. fold entries in Hps, Hk.
  destruct k as [| k'].
  - subst w'. repeat split; try done. lia.
  - destruct Hk as [Hle Hk]. repeat split; try done.
Qed.

(** X6.  The pruning of an appending [update] stops as late as it may: when
    it returns, the total is not above the wipe distance, or removing the
    oldest kept entry would leave the total [less_than] the wipe distance. *)
Theorem pruning_is_maximal (w w' : gcode_wiper) (cur prev : position) :
  reachable w -> is_initialized_ w = true -> clears_history cur = false ->
  update cur prev w = Some w' ->
  (total_distance_ w' >? get_wipe_distance w') = false
  \/ exists front anchor,
       deref w' (history_peek (history_ w')) = Some front
       /\ deref w' (p_starting_position_ w') = Some anchor
       /\ less_than (total_distance_ w'
                     - get_cartesian_distance (x anchor) (y anchor) (x front) (y front))
                    (get_wipe_distance w') = true.
Proof.
  intros Hr Hi Hc Hu. pose proof (reachable_wf w Hr) as Hwf.
  destruct (update_append cur prev w w' Hwf Hi Hc Hu) as (Hcfg & _).
  destruct (update_append_state cur prev w Hwf Hi Hc)
    as (w5 & Heq & Hcfg5 & _ & _ & Hl & Hl' & _ & _).
  rewrite Heq in Hu.
  destruct (prune_history_removed w5 w' Hl Hl' Hu) as (k & _ & _ & _ & Hstop & _).
  rewrite (configuration_wipe_distance _ _ Hcfg).
  by rewrite (configuration_wipe_distance _ _ Hcfg5) in Hstop.
Qed.
(** ** The steps of a wipe *)

Lemma tail_snoc (l : list gcode_wiper_position) (a : gcode_wiper_position) :
  l <> [] -> tail (l ++ [a]) = tail l ++ [a].
Proof. by destruct l. Qed.

Lemma rev_cons_nonempty (v : gcode_wiper_position) (l : list gcode_wiper_position) :
  rev (v :: l) <> [].
Proof. simpl. by destruct (rev l). Qed.

(** The walk back ends at the oldest entry. *)
Lemma back_ends_at_first (first : gcode_wiper_position) (rest : list gcode_wiper_position) :
  List.last (tail (rev (first :: rest))) (List.last rest first) = first.
Proof.
  destruct rest as [| v rest]; [done |].
  change (rev (first :: v :: rest)) with (rev (v :: rest) ++ [first]).
  rewrite tail_snoc by apply rev_cons_nonempty.
  apply last_last.
Qed.

Lemma last_e_cons_Some (s : gcode_wiper_step) (e : double) (steps : list gcode_wiper_step) :
  step_e s = Some e ->
  last_e (s :: steps) = match last_e steps with Some e' => Some e' | None => Some e end.
Proof. intros Hs. unfold last_e. simpl. rewrite Hs. apply last_cons. Qed.

Lemma last_e_cons_None (s : gcode_wiper_step) (steps : list gcode_wiper_step) :
  step_e s = None -> last_e (s :: steps) = last_e steps.
Proof. intros Hs. unfold last_e. simpl. by rewrite Hs. Qed.

Lemma last_e_app (a b : list gcode_wiper_step) :
  last_e (a ++ b) = match last_e b with Some e => Some e | None => last_e a end.
Proof. unfold last_e. rewrite omap_app. apply last_app. Qed.

Lemma Forall_back (P : gcode_wiper_position -> Prop) (first : gcode_wiper_position)
    (rest : list gcode_wiper_position) :
  Forall P (first :: rest) -> Forall P (tail (rev (first :: rest))).
Proof.
  intros Hall. rewrite <- rev_take_tail. apply Forall_rev.
  by apply Forall_take.
Qed.

Lemma wipe_anchor_extruder_relative (w : gcode_wiper) (first anchor : gcode_wiper_position) :
  is_extruder_relative (wipe_anchor w first anchor) = is_extruder_relative anchor.
Proof. unfold wipe_anchor. by destruct (greater_than _ _). Qed.

Lemma wipe_anchor_relative (w : gcode_wiper) (first anchor : gcode_wiper_position) :
  is_relative (wipe_anchor w first anchor) = is_relative anchor.
Proof. unfold wipe_anchor. by destruct (greater_than _ _). Qed.

(** A call of [get_wipe_steps] that pushes steps: the plan that it follows. *)
Lemma get_wipe_steps_plan (w w' : gcode_wiper) (steps : list gcode_wiper_step)
    (divisors : list double) :
  wf w -> get_wipe_steps w = Some ((steps, w'), divisors) -> steps <> [] ->
  exists first rest anchor,
    drop (start_index (history_ w)) (positions (history_ w)) = first :: rest
    /\ deref w (p_starting_position_ w) = Some anchor
    /\ steps = plan_steps (wipe_plan_of w first rest anchor)
    /\ history_size (history_ w) = Z.of_nat (S (length rest))
    /\ last (positions (history_ w)) = Some (List.last rest first).
Proof.
  intros Hwf Hsteps Hne.
  destruct (nothing_to_wipe w) eqn:Hn.
  { rewrite (get_wipe_steps_nothing w Hn) in Hsteps. by simplify_eq. }
  destruct (get_wipe_steps_spec w Hwf Hn) as (first & rest & anchor & Hdrop & Hd & Heq).
  rewrite Heq in Hsteps. injection Hsteps as <- _ _.
  exists first, rest, anchor.
  destruct (kept_entries _ _ first rest Hdrop) as (Hlen & _ & Hnewest & _).
  repeat split; try done.
  - unfold history_size. lia.
  - rewrite last_lookup, Hlen, <- Hnewest. f_equal. lia.
Qed.

(** A call of [get_wipe_steps] on a state with something to wipe pushes
    steps. *)
Lemma get_wipe_steps_some (w : gcode_wiper) :
  wf w -> nothing_to_wipe w = false ->
  exists first rest anchor steps divisors,
    drop (start_index (history_ w)) (positions (history_ w)) = first :: rest
    /\ deref w (p_starting_position_ w) = Some anchor
    /\ get_wipe_steps w = Some ((steps, w), divisors)
    /\ steps <> [].
Proof.
  intros Hwf Hn.
  destruct (get_wipe_steps_spec w Hwf Hn) as (first & rest & anchor & Hdrop & Hd & Heq).
  exists first, rest, anchor. eexists _, _.
  split; [done |]. split; [done |]. split; [done |].
  intros Hnil.
  destruct (wipe_plan_from_shape w first rest (wipe_anchor w first anchor))
    as (_ & _ & _ & Hturn & _).
  apply (f_equal (@length _)) in Hnil.
  unfold plan_steps, wipe_plan_of in Hnil. rewrite !length_app, Hturn in Hnil.
  simpl in Hnil. lia.
Qed.

(** X7.  On every reachable state [get_wipe_steps] divides at most once:
    only when it clips, that is when [get_extra_retraction()] is
    [greater_than] 0, and then by the distance from the oldest kept entry to
    the starting position, which it does not compare with 0. *)
Theorem get_wipe_steps_divides_to_clip (w w' : gcode_wiper)
    (steps : list gcode_wiper_step) (divisors : list double) :
  reachable w -> get_wipe_steps w = Some ((steps, w'), divisors) ->
  divisors = []
  \/ exists first anchor,
       positions (history_ w) !! start_index (history_ w) = Some first
       /\ deref w (p_starting_position_ w) = Some anchor
       /\ greater_than (get_extra_retraction w) (of_Z 0) = true
       /\ divisors = [get_cartesian_distance (x first) (y first) (x anchor) (y anchor)].
Proof.
  intros Hr Hsteps. pose proof (reachable_wf w Hr) as Hwf.
  destruct (nothing_to_wipe w) eqn:Hn.
  { rewrite (get_wipe_steps_nothing w Hn) in Hsteps. injection Hsteps as _ _ <-.
    by left. }
  destruct (get_wipe_steps_spec w Hwf Hn) as (first & rest & anchor & Hdrop & Hd & Heq).
  rewrite Heq in Hsteps. injection Hsteps as _ _ <-.
  unfold wipe_divisors.
  destruct (greater_than (get_extra_retraction w) (of_Z 0)) eqn:Hextra; [| by left].
  right. exists first, anchor.
  destruct (kept_entries _ _ first rest Hdrop) as (_ & Hfirst & _).
  by repeat split.
Qed.

Lemma motion_step_kind (w : gcode_wiper) (from to : gcode_wiper_position)
    (rr e f : double) (is_return : bool) :
  is_travel (fst (motion_step w from to rr e f is_return)) = use_full_wipe_ w && is_return
  /\ is_wipe (fst (motion_step w from to rr e f is_return))
     = negb (use_full_wipe_ w && is_return)
  /\ step_feedrate (fst (motion_step w from to rr e f is_return)) = f.
Proof.
  unfold motion_step.
  destruct (use_full_wipe_ w && is_return); [done |].
  by destruct (is_extruder_relative to).
Qed.

Lemma wipe_segments_kind (w : gcode_wiper) (is_return : bool)
    (path : list gcode_wiper_position) :
  forall (from : gcode_wiper_position) (e f : double),
    Forall (fun s => is_travel s = use_full_wipe_ w && is_return
                     /\ is_wipe s = negb (use_full_wipe_ w && is_return))
           (fst (wipe_segments w is_return from path e f)).
Proof.
  induction path as [| v path IH]; intros from e f; simpl; constructor.
  - split; apply motion_step_kind.
  - apply IH.
Qed.

Lemma wipe_segments_feedrate (w : gcode_wiper) (is_return : bool)
    (path : list gcode_wiper_position) :
  forall (from : gcode_wiper_position) (e f : double),
    map step_feedrate (fst (wipe_segments w is_return from path e f))
    = match path with
      | [] => []
      | _ :: path' => f :: replicate (length path') (of_Z (-1))
      end.
Proof.
  induction path as [| v path IH]; intros from e f; [done |].
  simpl. rewrite IH. f_equal; [apply motion_step_kind |].
  by destruct path.
Qed.

Lemma back_length (first : gcode_wiper_position) (rest : list gcode_wiper_position) :
  length (tail (rev (first :: rest))) = length rest.
Proof.
  rewrite <- rev_take_tail, length_rev, length_take.
  change (length (first :: rest)) with (S (length rest)). lia.
Qed.
(** X8.  The steps that [get_wipe_steps] pushes are: retract-only steps
    [pre] and [post] around as many steps [out] away from the newest position
    as there are kept entries, and as many steps [back].  Every step of [out]
    is a wipe (it has X, Y and E).  With [use_full_wipe_] every step of [back]
    is a travel (X and Y only: nothing is retracted on the way back), and
    without it every step of [back] is a wipe. *)
Theorem return_steps_travel_in_full_wipe (w w' : gcode_wiper)
    (steps : list gcode_wiper_step) (divisors : list double) :
  reachable w -> get_wipe_steps w = Some ((steps, w'), divisors) -> steps <> [] ->
  exists pre out back post,
    steps = pre ++ out ++ back ++ post
    /\ Forall (fun s => is_retract_only s = true) (pre ++ post)
    /\ length out = Z.to_nat (history_size (history_ w))
    /\ length back = Z.to_nat (history_size (history_ w))
    /\ Forall (fun s => is_wipe s = true) out
    /\ Forall (fun s => is_travel s = use_full_wipe_ w
                        /\ is_wipe s = negb (use_full_wipe_ w)) back.
Proof.
  intros Hr Hsteps Hne. pose proof (reachable_wf w Hr) as Hwf.
  destruct (get_wipe_steps_plan w w' steps divisors Hwf Hsteps Hne)
    as (first & rest & anchor & _ & _ & -> & Hsize & _).
  unfold plan_steps, wipe_plan_of, wipe_plan_from.
  cbn [pre_retract outbound turn_around returning post_retract].
  set (anchor' := wipe_anchor w first anchor).
  set (newest := List.last rest first).
  set (has_pre := greater_than (pre_wipe_retract_length_ w) (of_Z 0)).
  set (e0 := if has_pre then get_offset_e newest - pre_wipe_retract_length_ w
             else get_offset_e newest).
  set (back := tail (rev (first :: rest))).
  set (out := wipe_segments w false newest back e0 (wipe_feedrate (settings_ w))).
  set (t1 := motion_step w first anchor' (segment_retraction w first anchor') (snd out)
               (feedrate_after back (wipe_feedrate (settings_ w))) false).
  set (f2 := if use_full_wipe_ w then x_y_travel_speed (settings_ w) else of_Z (-1)).
  set (t2 := motion_step w anchor' first (segment_retraction w first anchor') (snd t1) f2 true).
  set (ret := wipe_segments w true first rest (snd t2) f2).
  match goal with
  | |- context [?a ++ fst out ++ [fst t1; fst t2] ++ fst ret ++ ?b] =>
      exists a, (fst out ++ [fst t1]), (fst t2 :: fst ret), b
  end.
  split. { by rewrite <- !app_assoc. }
  split.
  { apply Forall_app. split.
    - destruct has_pre; by repeat constructor.
    - destruct (resolved_post_wipe_retract_length w >? of_Z 0); by repeat constructor. }
  rewrite Hsize, Nat2Z.id.
  split.
  { rewrite length_app. subst out.
    rewrite (proj1 (wipe_segments_shape _ _ _ _ _ _)). subst back.
    rewrite back_length. simpl. lia. }
  split.
  { simpl. subst ret. by rewrite (proj1 (wipe_segments_shape _ _ _ _ _ _)). }
  split.
  { apply Forall_app. split.
    - subst out. eapply Forall_impl; [apply wipe_segments_kind |].
      intros s [_ Hs]. by rewrite Hs, andb_false_r.
    - repeat constructor. subst t1.
      destruct (motion_step_kind w first anchor' (segment_retraction w first anchor')
                  (snd out) (feedrate_after back (wipe_feedrate (settings_ w))) false)
        as (_ & Hs & _).
      by rewrite Hs, andb_false_r. }
  constructor.
  - subst t2.
    destruct (motion_step_kind w anchor' first (segment_retraction w first anchor')
                (snd t1) f2 true) as (Ht & Hs & _).
    by rewrite Ht, Hs, andb_true_r.
  - subst ret. eapply Forall_impl; [apply wipe_segments_kind |].
    intros s [Ht Hs]. by rewrite Ht, Hs, andb_true_r.
Qed.
(** X9.  The feedrates of the steps that [get_wipe_steps] pushes, with [n + 1]
    kept entries: the pre-wipe retract has the retraction feedrate; the first
    step out has the wipe feedrate and the other steps out have none (-1);
    the first step back has the travel speed for a full wipe and none
    otherwise, the second step back has the same once more, and the other
    steps back have none; the post-wipe retract has the retraction feedrate
    when that is not [is_equal] to the wipe feedrate, and otherwise the
    feedrate that the last step back left. *)
Theorem feedrate_is_set_once_per_phase (w w' : gcode_wiper)
    (steps : list gcode_wiper_step) (divisors : list double) :
  reachable w -> get_wipe_steps w = Some ((steps, w'), divisors) -> steps <> [] ->
  exists (n : nat) pre out back post,
    history_size (history_ w) = Z.of_nat (S n)
    /\ steps = pre ++ out ++ back ++ post
    /\ map step_feedrate pre
       = (if greater_than (pre_wipe_retract_length_ w) (of_Z 0)
          then [retraction_feedrate (settings_ w)] else [])
    /\ map step_feedrate out = wipe_feedrate (settings_ w) :: replicate n (of_Z (-1))
    /\ map step_feedrate back
       = return_feedrate w
         :: match n with
            | O => []
            | S m => return_feedrate w :: replicate m (of_Z (-1))
            end
    /\ map step_feedrate post
       = if resolved_post_wipe_retract_length w >? of_Z 0 then
           [if negb (is_equal (retraction_feedrate (settings_ w))
                              (wipe_feedrate (settings_ w)))
            then retraction_feedrate (settings_ w)
            else match n with O => return_feedrate w | S _ => of_Z (-1) end]
         else [].
Proof.
  intros Hr Hsteps Hne. pose proof (reachable_wf w Hr) as Hwf.
  destruct (get_wipe_steps_plan w w' steps divisors Hwf Hsteps Hne)
    as (first & rest & anchor & _ & _ & -> & Hsize & _).
  unfold plan_steps, wipe_plan_of, wipe_plan_from.
  cbn [pre_retract outbound turn_around returning post_retract].
  set (anchor' := wipe_anchor w first anchor).
  set (newest := List.last rest first).
  set (has_pre := greater_than (pre_wipe_retract_length_ w) (of_Z 0)).
  set (e0 := if has_pre then get_offset_e newest - pre_wipe_retract_length_ w
             else get_offset_e newest).
  pose proof (back_length first rest) as Hback.
  set (back := tail (rev (first :: rest))) in *.
  set (out := wipe_segments w false newest back e0 (wipe_feedrate (settings_ w))).
  set (t1 := motion_step w first anchor' (segment_retraction w first anchor') (snd out)
               (feedrate_after back (wipe_feedrate (settings_ w))) false).
  fold (return_feedrate w).
  set (t2 := motion_step w anchor' first (segment_retraction w first anchor') (snd t1)
               (return_feedrate w) true).
  set (ret := wipe_segments w true first rest (snd t2) (return_feedrate w)).
  match goal with
  | |- context [?a ++ fst out ++ [fst t1; fst t2] ++ fst ret ++ ?b] =>
      exists (length rest), a, (fst out ++ [fst t1]), (fst t2 :: fst ret), b
  end.
  split; [done |].
  split. { by rewrite <- !app_assoc. }
  split. { by destruct has_pre. }
  split.
  { rewrite map_app. subst out. rewrite wipe_segments_feedrate. simpl. subst t1.
    rewrite (proj2 (proj2 (motion_step_kind _ _ _ _ _ _ _))).
    rewrite <- Hback. destruct back as [| b back']; [done |].
    simpl. by rewrite <- replicate_S_end. }
  split.
  { simpl. subst t2 ret.
    rewrite (proj2 (proj2 (motion_step_kind _ _ _ _ _ _ _))), wipe_segments_feedrate.
    by destruct rest. }
  destruct (resolved_post_wipe_retract_length w >? of_Z 0); [| done].
  simpl. by destruct rest.
Qed.

Lemma motion_step_xy (w : gcode_wiper) (from to : gcode_wiper_position)
    (rr e f : double) (is_return : bool) :
  step_xy (fst (motion_step w from to rr e f is_return))
  = Some (if is_relative to then x to - x from else get_offset_x to,
          if is_relative to then y to - y from else get_offset_y to).
Proof.
  unfold motion_step.
  destruct (use_full_wipe_ w && is_return); [done |].
  by destruct (is_extruder_relative to).
Qed.

Lemma omap_step_xy_cons (s : gcode_wiper_step) (xy : double * double)
    (steps : list gcode_wiper_step) :
  step_xy s = Some xy -> omap step_xy (s :: steps) = xy :: omap step_xy steps.
Proof. intros Hs. simpl. by rewrite Hs. Qed.

(** The last step of a walk goes to the last point of the path. *)
Lemma wipe_segments_last_xy (w : gcode_wiper) (is_return : bool)
    (path : list gcode_wiper_position) :
  forall (from to : gcode_wiper_position) (e f : double),
    is_relative (List.last path to) = false ->
    last (omap step_xy (fst (wipe_segments w is_return from (to :: path) e f)))
    = Some (get_offset_x (List.last path to), get_offset_y (List.last path to)).
Proof.
  induction path as [| v path IH]; intros from to e f Habs.
  - simpl in Habs.
    change (fst (wipe_segments w is_return from [to] e f))
      with [fst (motion_step w from to (segment_retraction w from to) e f is_return)].
    rewrite (omap_step_xy_cons _ _ _ (motion_step_xy _ _ _ _ _ _ _)).
    simpl. by rewrite Habs.
  - rewrite last_cons_default in Habs |- *.
    change (fst (wipe_segments w is_return from (to :: v :: path) e f))
      with (fst (motion_step w from to (segment_retraction w from to) e f is_return)
            :: fst (wipe_segments w is_return to (v :: path)
                      (snd (motion_step w from to (segment_retraction w from to) e f
                              is_return)) (of_Z (-1)))).
    rewrite (omap_step_xy_cons _ _ _ (motion_step_xy _ _ _ _ _ _ _)).
    rewrite last_cons, (IH to v _ _ Habs). done.
Qed.

(** X10.  When [get_wipe_steps] pushes steps and the newest entry of the
    history is in absolute positioning, the last motion step goes to the
    offset coordinates of that entry: the wipe ends where the nozzle was. *)
Theorem wipe_returns_to_newest_position (w w' : gcode_wiper)
    (steps : list gcode_wiper_step) (divisors : list double)
    (newest : gcode_wiper_position) :
  reachable w -> get_wipe_steps w = Some ((steps, w'), divisors) -> steps <> [] ->
  last (positions (history_ w)) = Some newest -> is_relative newest = false ->
  last_xy steps = Some (get_offset_x newest, get_offset_y newest).
Proof.
  intros Hr Hsteps Hne Hnewest Habs. pose proof (reachable_wf w Hr) as Hwf.
  destruct (get_wipe_steps_plan w w' steps divisors Hwf Hsteps Hne)
    as (first & rest & anchor & _ & _ & -> & _ & Hlast).
  rewrite Hlast in Hnewest. injection Hnewest as <-.
  unfold last_xy, plan_steps, wipe_plan_of, wipe_plan_from.
  cbn [pre_retract outbound turn_around returning post_retract].
  set (anchor' := wipe_anchor w first anchor).
  set (newest := List.last rest first) in *.
  set (has_pre := greater_than (pre_wipe_retract_length_ w) (of_Z 0)).
  set (e0 := if has_pre then get_offset_e newest - pre_wipe_retract_length_ w
             else get_offset_e newest).
  set (back := tail (rev (first :: rest))).
  set (out := wipe_segments w false newest back e0 (wipe_feedrate (settings_ w))).
  set (t1 := motion_step w first anchor' (segment_retraction w first anchor') (snd out)
               (feedrate_after back (wipe_feedrate (settings_ w))) false).
  set (f2 := if use_full_wipe_ w then x_y_travel_speed (settings_ w) else of_Z (-1)).
  set (t2 := motion_step w anchor' first (segment_retraction w first anchor') (snd t1) f2 true).
  set (ret := wipe_segments w true first rest (snd t2) f2).
  rewrite !omap_app.
  assert (Hpost : omap step_xy
                    (if resolved_post_wipe_retract_length w >? of_Z 0
                     then [step_ef (if is_extruder_relative newest
                                    then of_Z (-1) * resolved_post_wipe_retract_length w
                                    else snd ret - resolved_post_wipe_retract_length w)
                                   (if negb (is_equal (retraction_feedrate (settings_ w))
                                                      (wipe_feedrate (settings_ w)))
                                    then retraction_feedrate (settings_ w)
                                    else feedrate_after rest f2)]
                     else []) = []).
  { by destruct (_ >? _). }
  rewrite Hpost, app_nil_r. clear Hpost.
  rewrite !last_app.
  destruct rest as [| v rest'].
  - subst newest. simpl in Habs. subst ret t2 t1. simpl.
    rewrite !motion_step_xy. simpl. by rewrite Habs.
  - subst ret newest. rewrite (wipe_segments_last_xy w true rest' first v _ _).
    + by rewrite last_cons_default.
    + by rewrite last_cons_default in Habs.
Qed.
End WiperCoverage.

(** ** Exact arithmetic *)

Lemma Rltb_true (a b : R) : Rltb a b = true <-> (a < b)%R.
Proof. unfold Rltb. destruct (Rlt_dec a b); split; intros; done || lra. Qed.

Lemma Rltb_false (a b : R) : Rltb a b = false <-> (b <= a)%R.
Proof. unfold Rltb. destruct (Rlt_dec a b); split; intros; done || lra. Qed.

Lemma budget_algebra (a wf rf : R) :
  rf <> 0%R -> (a * (wf / rf))%R <> 0%R ->
  (a * (wf / rf) * (a / (a * (wf / rf))) = a)%R
  /\ (a / (a * (wf / rf)) * wf = rf)%R.
Proof.
  intros Hrf Hwd.
  assert (Ha : a <> 0%R) by (intros ->; apply Hwd; ring).
  assert (Hwf : wf <> 0%R) by (intros ->; apply Hwd; unfold Rdiv; ring).
  split; field; done.
Qed.

Section ExactArithmetic.
Variable tol : R.
Local Existing Instance exact.
Local Instance exact_tolerance : Utilities := exact_utilities tol.

Lemma less_than_0_false (v : R) :
  less_than v (of_Z 0) = false <-> (0 <= v \/ Rabs v < tol)%R.
Proof.
  simpl. rewrite andb_false_iff, negb_false_iff, Rltb_false, Rltb_true.
  replace (v - 0)%R with v by lra. tauto.
Qed.

Lemma greater_than_1_true (v : R) :
  greater_than v (of_Z 1) = true <-> (1 < v /\ tol <= Rabs (v - 1))%R.
Proof.
  simpl. rewrite andb_true_iff, negb_true_iff, Rltb_false, Rltb_true. tauto.
Qed.

Lemma clamp_percent_not_less (v : R) : less_than (clamp_percent v) (of_Z 0) = false.
Proof.
  unfold clamp_percent.
  destruct (@less_than exact _ v (of_Z 0)) eqn:Hlt; [| done].
  apply less_than_0_false. left. simpl. lra.
Qed.

(** C3, in exact arithmetic.  For every settings input and every tolerance
    of the comparisons, after [initialize] neither percentage is [less_than]
    0 (a percentage [less_than] 0 was set to 0, one within the tolerance of 0
    is kept); and when the sum of the clamped percentages is [greater_than]
    1, the sum after [initialize] equals 1 and the two percentages keep their
    ratio; otherwise they are the clamped percentages.  (In binary64 the sum
    is 1 up to rounding only.) *)
Theorem initialize_normalizes_exactly (w : gcode_wiper) :
  let before := clamp_percent (retract_before_wipe_percent (settings_ w)) in
  let after := clamp_percent (retract_after_wipe_percent (settings_ w)) in
  let before' := retract_before_wipe_percent (settings_ (initialize w)) in
  let after' := retract_after_wipe_percent (settings_ (initialize w)) in
  less_than before' (of_Z 0) = false
  /\ less_than after' (of_Z 0) = false
  /\ if greater_than (before + after)%D (of_Z 1)
     then (before' + after')%D = of_Z 1 /\ (before' * after)%D = (after' * before)%D
     else before' = before /\ after' = after.
Proof.
  intros before after before' after'.
  pose proof (clamp_percent_not_less (retract_before_wipe_percent (settings_ w))) as Hb.
  pose proof (clamp_percent_not_less (retract_after_wipe_percent (settings_ w))) as Ha.
  fold before in Hb. fold after in Ha.
  subst before' after'. unfold initialize, initialize_traced.
  fold before. fold after.
  destruct (greater_than (before + after)%D (of_Z 1)) eqn:Hgt.
  - apply greater_than_1_true in Hgt as [Hgt Htol].
    assert (Hz : is_zero (before + after)%D = false).
    { simpl. apply Rltb_false. simpl in Hgt, Htol.
      rewrite Rabs_right in Htol by lra. rewrite Rabs_right by lra. lra. }
    rewrite Hz. simpl. simpl in Hgt.
    apply less_than_0_false in Hb, Ha.
    assert (Hr : (0 < 1 / (before + after) < 1)%R).
    { unfold Rdiv. rewrite Rmult_1_l. split.
      - apply Rinv_0_lt_compat. lra.
      - apply (Rmult_lt_reg_l (before + after)%R); [lra |].
        rewrite Rinv_r by lra. lra. }
    repeat split.
    + apply less_than_0_false.
      destruct Hb as [Hb | Hb]; [left; nra |].
      right. rewrite Rabs_mult, (Rabs_right (1 / _)) by lra.
      pose proof (Rabs_pos before). nra.
    + apply less_than_0_false.
      destruct Ha as [Ha | Ha]; [left; nra |].
      right. rewrite Rabs_mult, (Rabs_right (1 / _)) by lra.
      pose proof (Rabs_pos after). nra.
    + field. lra.
    + ring.
  - simpl. done.
Qed.

(** C8, in exact arithmetic.  For every segment of positive length and every
    [0 <= distance_to_clip <= segment_length], [clip_wipe_path] returns two
    fresh copies: every object of the store before the call (the originals
    of [from] and [to], the starting position, the entries of the history)
    reads as before, the copy of [from] equals [from], and the copy of [to]
    has [x] and [y] set to
    [from + (to - from) * (segment_length - distance_to_clip) / segment_length],
    so that its cartesian distance from [from] is
    [segment_length - distance_to_clip].  (In binary64 the last equality holds
    up to rounding only.) *)
Theorem clip_wipe_path_exact (w : gcode_wiper) (from to : pointer)
    (f t : gcode_wiper_position) (d : double) :
  deref w from = Some f -> deref w to = Some t ->
  let seg := get_cartesian_distance (x f) (y f) (x t) (y t) in
  (0 < seg)%R -> (0 <= d <= seg)%R ->
  exists a1 a2 w' t',
    clip_wipe_path d from to w
    = Some ((Some (heap_loc a1), Some (heap_loc a2), w'), [seg])
    /\ heap_ w !! a1 = None /\ heap_ w !! a2 = None /\ a1 <> a2
    /\ (forall p v, deref w p = Some v -> deref w' p = Some v)
    /\ history_ w' = history_ w
    /\ p_starting_position_ w' = p_starting_position_ w
    /\ deref w' (Some (heap_loc a1)) = Some f
    /\ deref w' (Some (heap_loc a2)) = Some t'
    /\ x t' = (x f + (x t - x f) * (seg - d) / seg)%R
    /\ y t' = (y f + (y t - y f) * (seg - d) / seg)%R
    /\ get_cartesian_distance (x f) (y f) (x t') (y t') = (seg - d)%R.
Proof.
  intros Hf Ht seg Hseg Hd.
  destruct (clip_wipe_path_spec d from to w f t Hf Ht) as (a1 & a2 & Ha1 & Ha2 & Hne & Heq).
  exists a1, a2, (set_heap w (<[a2 := clipped d f t]> (<[a1 := f]> (heap_ w)))),
         (clipped d f t).
  split; [done |]. split; [done |]. split; [done |]. split; [done |].
  split.
  { intros p v Hp.
    pose proof (deref_insert_fresh w a1 f v p Ha1 Hp) as H1.
    assert (Hfresh : heap_ (set_heap w (<[a1 := f]> (heap_ w))) !! a2 = None).
    { simpl. by rewrite lookup_insert_ne. }
    exact (deref_insert_fresh _ a2 (clipped d f t) v p Hfresh H1). }
  split; [done |]. split; [done |].
  split. { simpl. rewrite lookup_insert_ne by done. apply lookup_insert_eq. }
  split. { simpl. apply lookup_insert_eq. }
  unfold clipped. fold seg. simpl.
  split; [unfold Rdiv; ring |]. split; [unfold Rdiv; ring |].
  assert (Hsegdef : seg = sqrt ((x f - x t) * (x f - x t) + (y f - y t) * (y f - y t))%R)
    by done.
  clearbody seg.
  set (r := ((seg - d) / seg)%R).
  assert (Hr : (0 <= r)%R).
  { subst r. apply Rmult_le_pos; [lra |]. left. apply Rinv_0_lt_compat. lra. }
  replace ((x f - (x f + (x t - x f) * r)) * (x f - (x f + (x t - x f) * r))
           + (y f - (y f + (y t - y f) * r)) * (y f - (y f + (y t - y f) * r)))%R
    with ((r * r) * ((x f - x t) * (x f - x t) + (y f - y t) * (y f - y t)))%R by ring.
  rewrite sqrt_mult_alt by nra.
  rewrite sqrt_square by done. rewrite <- Hsegdef.
  subst r. field. lra.
Qed.

(** ** Further properties in exact arithmetic *)

(** X11, in exact arithmetic.  When the retraction feedrate and the wipe
    distance that [initialize] computes are not 0, the lengths that it
    derives add up: the pre-wipe and the post-wipe retract lengths plus the
    retraction of a wipe over the whole wipe distance are the retraction
    length; the ratio of retraction to distance is the retraction feedrate
    over the wipe feedrate; and the half wipe distance is half the wipe
    distance. *)
Theorem initialize_retraction_budget (w : gcode_wiper) :
  let s := settings_ w in
  let w' := initialize w in
  retraction_feedrate s <> 0%R -> wipe_distance_ w' <> 0%R ->
  (pre_wipe_retract_length_ w' + post_wipe_retract_length_ w'
   + wipe_distance_ w' * distance_to_retraction_ratio_ w' = retraction_length s)%R
  /\ (distance_to_retraction_ratio_ w' * wipe_feedrate s = retraction_feedrate s)%R
  /\ (half_wipe_distance_ w' * 2 = wipe_distance_ w')%R.
Proof.
  intros s w'. subst w'. unfold initialize, initialize_traced. fold s.
  set (before := clamp_percent (retract_before_wipe_percent s)).
  set (after := clamp_percent (retract_after_wipe_percent s)).
  destruct (greater_than (before + after)%D (of_Z 1) && negb (is_zero (before + after)%D));
    simpl; intros Hrf Hwd;
    match type of Hwd with
    | (?a * _)%R <> _ =>
        destruct (budget_algebra a (wipe_feedrate s) (retraction_feedrate s) Hrf Hwd)
          as [H1 H2]
    end;
    (split; [rewrite H1; ring | split; [exact H2 | lra]]).
Qed.
Lemma distance_symmetric (a b c d : R) :
  get_cartesian_distance a b c d = get_cartesian_distance c d a b.
Proof. simpl. f_equal. ring. Qed.

Lemma distance_nonnegative (a b c d : R) : (0 <= get_cartesian_distance a b c d)%R.
Proof. simpl. apply sqrt_pos. Qed.

Lemma path_length_app (path tl : list gcode_wiper_position) :
  forall from : gcode_wiper_position,
    path_length from (path ++ tl)
    = (path_length from path + path_length (List.last path from) tl)%R.
Proof.
  induction path as [| v path IH]; intros from.
  - cbn. lra.
  - rewrite last_cons_default. cbn [app path_length]. rewrite IH.
    change (@dadd exact) with Rplus. lra.
Qed.

(** The walk back is as long as the recorded path. *)
Lemma back_path_length (rest : list gcode_wiper_position) :
  forall first : gcode_wiper_position,
    path_length (List.last rest first) (tail (rev (first :: rest)))
    = path_length first rest.
Proof.
  induction rest as [| v rest IH]; intros first; [done |].
  change (rev (first :: v :: rest)) with (rev (v :: rest) ++ [first]).
  rewrite tail_snoc by apply rev_cons_nonempty.
  rewrite last_cons_default, path_length_app, back_ends_at_first, IH.
  cbn [path_length]. rewrite (distance_symmetric (x v)).
  change (@of_Z exact 0) with 0%R. change (@dadd exact) with Rplus. lra.
Qed.
Lemma motion_step_absolute (w : gcode_wiper) (from to : gcode_wiper_position)
    (rr e f : R) (is_return : bool) :
  is_extruder_relative to = false ->
  snd (motion_step w from to rr e f is_return)
  = (if use_full_wipe_ w && is_return then e else e - rr)%R
  /\ step_e (fst (motion_step w from to rr e f is_return))
     = if use_full_wipe_ w && is_return then None else Some (e - rr)%R.
Proof.
  intros Habs. unfold motion_step. rewrite Habs.
  by destruct (use_full_wipe_ w && is_return).
Qed.

(** In absolute extrusion mode the running offset goes down by the
    retraction of the path walked, and the last step carries it. *)
Lemma wipe_segments_absolute (w : gcode_wiper) (is_return : bool)
    (path : list gcode_wiper_position) :
  forall (from : gcode_wiper_position) (e f : R),
    Forall (fun p => is_extruder_relative p = false) path ->
    snd (wipe_segments w is_return from path e f)
    = (if use_full_wipe_ w && is_return then e
       else e - path_length from path * distance_to_retraction_ratio_ w)%R
    /\ last_e (fst (wipe_segments w is_return from path e f))
       = if use_full_wipe_ w && is_return then None
         else match path with
              | [] => None
              | _ :: _ => Some (snd (wipe_segments w is_return from path e f))
              end.
Proof.
  induction path as [| v path IH]; intros from e f Habs.
  - cbn. destruct (use_full_wipe_ w && is_return); split; try done. lra.
  - inversion Habs as [| ? ? Hv Hpath]; subst.
    destruct (motion_step_absolute w from v (segment_retraction w from v) e f is_return Hv)
      as [Hoff He].
    destruct (IH v (snd (motion_step w from v (segment_retraction w from v) e f is_return))
                (@of_Z exact (-1)) Hpath) as [IHoff IHe].
    cbn [wipe_segments fst snd].
    destruct (use_full_wipe_ w && is_return) eqn:Hmode.
    + rewrite IHoff, (last_e_cons_None _ _ He), IHe, Hoff. done.
    + rewrite (last_e_cons_Some _ _ _ He), IHe.
      assert (Hsum : snd (wipe_segments w is_return v path
                            (snd (motion_step w from v (segment_retraction w from v) e f
                                    is_return)) (@of_Z exact (-1)))
                     = (e - path_length from (v :: path) * distance_to_retraction_ratio_ w)%R).
      { rewrite IHoff, Hoff. cbn [path_length].
        unfold segment_retraction, wipe_distance_to_retraction_.
        change (@dadd exact) with Rplus. change (@dmul exact) with Rmult. lra. }
      split; [done |].
      destruct path as [| u path]; [| done].
      cbn [wipe_segments snd]. by rewrite Hoff.
Qed.
(** In absolute extrusion mode the last extrusion coordinate of a plan is
    the offset E of the newest entry less all that the plan retracts. *)
Lemma wipe_plan_last_e (w : gcode_wiper) (first anchor : gcode_wiper_position)
    (rest : list gcode_wiper_position) :
  Forall (fun p => is_extruder_relative p = false) (anchor :: first :: rest) ->
  last_e (plan_steps (wipe_plan_from w first rest anchor))
  = Some (get_offset_e (List.last rest first)
          - (if greater_than (pre_wipe_retract_length_ w) 0%R
             then pre_wipe_retract_length_ w else 0)
          - (if use_full_wipe_ w then 1 else 2)
            * (path_length anchor (first :: rest) * distance_to_retraction_ratio_ w)
          - (if Rltb 0 (resolved_post_wipe_retract_length w)
             then resolved_post_wipe_retract_length w else 0))%R.
Proof.
  intros Habs.
  inversion Habs as [| ? ? Ha Hkept]; subst.
  assert (Hnewest : is_extruder_relative (List.last rest first) = false).
  { exact (Forall_lookup_1 _ _ _ _ Hkept (lookup_last_cons first rest)). }
  assert (Hfirst : is_extruder_relative first = false) by (by inversion Hkept).
  assert (Hrest : Forall (fun p => is_extruder_relative p = false) rest)
    by (by inversion Hkept).
  unfold plan_steps, wipe_plan_from.
  cbn [pre_retract outbound turn_around returning post_retract].
  set (newest := List.last rest first) in *.
  set (has_pre := greater_than (pre_wipe_retract_length_ w) (of_Z 0)).
  change (greater_than (pre_wipe_retract_length_ w) 0%R) with has_pre.
  set (e0 := if has_pre then (get_offset_e newest - pre_wipe_retract_length_ w)%D
             else get_offset_e newest).
  pose proof (back_path_length rest first) as Hback. fold newest in Hback.
  pose proof (Forall_back _ first rest Hkept) as Habs_back.
  set (back := tail (rev (first :: rest))) in *.
  destruct (wipe_segments_absolute w false back newest e0 (wipe_feedrate (settings_ w))
              Habs_back) as [Hout _].
  rewrite andb_false_r, Hback in Hout.
  set (out := wipe_segments w false newest back e0 (wipe_feedrate (settings_ w))) in *.
  set (sr := segment_retraction w first anchor).
  destruct (motion_step_absolute w first anchor sr (snd out)
              (feedrate_after back (wipe_feedrate (settings_ w))) false Ha)
    as [Ht1 He1].
  rewrite andb_false_r in Ht1, He1.
  set (t1 := motion_step w first anchor sr (snd out)
               (feedrate_after back (wipe_feedrate (settings_ w))) false) in *.
  set (f2 := if use_full_wipe_ w then x_y_travel_speed (settings_ w) else of_Z (-1)).
  destruct (motion_step_absolute w anchor first sr (snd t1) f2 true Hfirst) as [Ht2 He2].
  rewrite andb_true_r in Ht2, He2.
  set (t2 := motion_step w anchor first sr (snd t1) f2 true) in *.
  destruct (wipe_segments_absolute w true rest first (snd t2) f2 Hrest) as [Hret Her].
  rewrite andb_true_r in Hret, Her.
  set (ret := wipe_segments w true first rest (snd t2) f2) in *.
  rewrite Hnewest.
  assert (Hsr : sr = (get_cartesian_distance (x anchor) (y anchor) (x first) (y first)
                      * distance_to_retraction_ratio_ w)%R).
  { subst sr. unfold segment_retraction, wipe_distance_to_retraction_.
    by rewrite (distance_symmetric (x first)). }
  cbn [path_length]. change (@dadd exact) with Rplus.
  set (d := get_cartesian_distance (x anchor) (y anchor) (x first) (y first)) in *.
  set (p := path_length first rest) in *.
  set (ratio := distance_to_retraction_ratio_ w) in *.
  set (post := resolved_post_wipe_retract_length w).
  assert (He0 : e0 = (get_offset_e newest
                      - (if has_pre then pre_wipe_retract_length_ w else 0))%R).
  { subst e0. destruct has_pre; simpl; lra. }
  rewrite !last_e_app.
  change (post >? of_Z 0)%D with (Rltb 0 post).
  destruct (Rltb 0 post).
  - unfold last_e. simpl. f_equal.
    change (@double exact) with R in *.
    destruct (use_full_wipe_ w); lra.
  - change (last_e []) with (@None R).
    rewrite Her.
    rewrite (last_e_cons_Some _ _ [fst t2] He1).
    destruct (use_full_wipe_ w).
    + rewrite (last_e_cons_None _ [] He2). change (last_e []) with (@None R).
      f_equal. rewrite Hout, He0, Hsr. lra.
    + rewrite (last_e_cons_Some _ _ [] He2). change (last_e []) with (@None R).
      destruct rest as [| v rest'].
      * f_equal. rewrite Ht1, Hout, He0, Hsr. subst p. cbn. lra.
      * f_equal. rewrite Hret, Ht2, Ht1, Hout, He0, Hsr. lra.
Qed.

(** X12, in exact arithmetic.  On a state whose anchors are null or live (as
    every reachable state is) and with every recorded position in absolute
    extrusion mode, the extrusion coordinate of the last step that has one is
    the offset E of the newest entry, less the pre-wipe retract length (when
    that retract is made), less the retraction of the wiped path (from the
    starting position, clipped when the history is longer than the wipe,
    through the kept entries), once for a full wipe and twice otherwise, less
    the resolved post-wipe retract length (when that retract is made). *)
Theorem absolute_extrusion_accounting (w w' : gcode_wiper)
    (steps : list gcode_wiper_step) (divisors : list double)
    (first anchor : gcode_wiper_position) (rest : list gcode_wiper_position) :
  wf w -> get_wipe_steps w = Some ((steps, w'), divisors) -> steps <> [] ->
  drop (start_index (history_ w)) (positions (history_ w)) = first :: rest ->
  deref w (p_starting_position_ w) = Some anchor ->
  Forall (fun p => is_extruder_relative p = false) (anchor :: first :: rest) ->
  last_e steps
  = Some (get_offset_e (List.last rest first)
          - (if greater_than (pre_wipe_retract_length_ w) 0%R
             then pre_wipe_retract_length_ w else 0)
          - (if use_full_wipe_ w then 1 else 2)
            * (path_length (wipe_anchor w first anchor) (first :: rest)
               * distance_to_retraction_ratio_ w)
          - (if Rltb 0 (resolved_post_wipe_retract_length w)
             then resolved_post_wipe_retract_length w else 0))%R.
Proof.
  intros Hwf Hsteps Hne Hdrop Hanchor Habs.
  destruct (get_wipe_steps_plan w w' steps divisors Hwf Hsteps Hne)
    as (first' & rest' & anchor' & Hdrop' & Hanchor' & -> & _ & _).
  rewrite Hdrop in Hdrop'. injection Hdrop' as <- <-.
  rewrite Hanchor in Hanchor'. injection Hanchor' as <-.
  apply wipe_plan_last_e.
  inversion Habs as [| ? ? Ha Hkept]; subst.
  constructor; [| done]. by rewrite wipe_anchor_extruder_relative.
Qed.

Lemma sum_xy_app (a b : list gcode_wiper_step) :
  sum_x (a ++ b) = (sum_x a + sum_x b)%R /\ sum_y (a ++ b) = (sum_y a + sum_y b)%R.
Proof.
  unfold sum_x, sum_y. induction a as [| s a IH]; simpl in *.
  - split; lra.
  - destruct IH as [-> ->]. destruct (step_xy s) as [[u v] |]; split; lra.
Qed.

Lemma sum_xy_cons (s : gcode_wiper_step) (u v : R) (steps : list gcode_wiper_step) :
  step_xy s = Some (u, v) ->
  sum_x (s :: steps) = (u + sum_x steps)%R /\ sum_y (s :: steps) = (v + sum_y steps)%R.
Proof. intros Hs. unfold sum_x, sum_y. cbn [foldr]. by rewrite Hs. Qed.

(** In relative positioning the steps of a walk add up to the displacement
    from its first to its last point. *)
Lemma wipe_segments_relative (w : gcode_wiper) (is_return : bool)
    (path : list gcode_wiper_position) :
  forall (from : gcode_wiper_position) (e f : R),
    Forall (fun p => is_relative p = true) path ->
    sum_x (fst (wipe_segments w is_return from path e f))
    = (x (List.last path from) - x from)%R
    /\ sum_y (fst (wipe_segments w is_return from path e f))
       = (y (List.last path from) - y from)%R.
Proof.
  induction path as [| v path IH]; intros from e f Hrel.
  - cbn. split; lra.
  - inversion Hrel as [| ? ? Hv Hpath]; subst.
    pose proof (motion_step_xy w from v (segment_retraction w from v) e f is_return) as Hxy.
    rewrite Hv in Hxy.
    cbn [wipe_segments fst].
    destruct (sum_xy_cons _ _ _
                (fst (wipe_segments w is_return v path
                        (snd (motion_step w from v (segment_retraction w from v) e f
                                is_return)) (@of_Z exact (-1)))) Hxy) as [-> ->].
    destruct (IH v (snd (motion_step w from v (segment_retraction w from v) e f is_return))
                (@of_Z exact (-1)) Hpath) as [-> ->].
    rewrite last_cons_default. change (@dsub exact) with Rminus. split; lra.
Qed.

(** X13, in exact arithmetic.  On a state whose anchors are null or live (as
    every reachable state is) and with every recorded position in relative
    positioning, the X coordinates of the steps that [get_wipe_steps] pushes
    sum to 0 and so do the Y coordinates: the steps lead back to the point
    where they start. *)
Theorem relative_moves_sum_to_zero (w w' : gcode_wiper)
    (steps : list gcode_wiper_step) (divisors : list double)
    (first anchor : gcode_wiper_position) (rest : list gcode_wiper_position) :
  wf w -> get_wipe_steps w = Some ((steps, w'), divisors) -> steps <> [] ->
  drop (start_index (history_ w)) (positions (history_ w)) = first :: rest ->
  deref w (p_starting_position_ w) = Some anchor ->
  Forall (fun p => is_relative p = true) (anchor :: first :: rest) ->
  sum_x steps = 0%R /\ sum_y steps = 0%R.
Proof.
  intros Hwf Hsteps Hne Hdrop Hanchor Hrel.
  destruct (get_wipe_steps_plan w w' steps divisors Hwf Hsteps Hne)
    as (first' & rest' & anchor' & Hdrop' & Hanchor' & -> & _ & _).
  rewrite Hdrop in Hdrop'. injection Hdrop' as <- <-.
  rewrite Hanchor in Hanchor'. injection Hanchor' as <-.
  inversion Hrel as [| ? ? Ha Hkept]; subst.
  assert (Hfirst : is_relative first = true) by (by inversion Hkept).
  assert (Hrest : Forall (fun p => is_relative p = true) rest) by (by inversion Hkept).
  pose proof (wipe_anchor_relative w first anchor) as Ha'. rewrite Ha in Ha'.
  unfold plan_steps, wipe_plan_of, wipe_plan_from.
  cbn [pre_retract outbound turn_around returning post_retract].
  set (anchor' := wipe_anchor w first anchor) in *.
  set (newest := List.last rest first) in *.
  set (has_pre := greater_than (pre_wipe_retract_length_ w) (of_Z 0)).
  set (e0 := if has_pre then (get_offset_e newest - pre_wipe_retract_length_ w)%D
             else get_offset_e newest).
  pose proof (back_ends_at_first first rest) as Hend. fold newest in Hend.
  pose proof (Forall_back _ first rest Hkept) as Hrel_back.
  set (back := tail (rev (first :: rest))) in *.
  destruct (wipe_segments_relative w false back newest e0 (wipe_feedrate (settings_ w))
              Hrel_back) as [Hox Hoy].
  rewrite Hend in Hox, Hoy.
  set (out := wipe_segments w false newest back e0 (wipe_feedrate (settings_ w))) in *.
  set (sr := segment_retraction w first anchor').
  pose proof (motion_step_xy w first anchor' sr (snd out)
                (feedrate_after back (wipe_feedrate (settings_ w))) false) as Hxy1.
  rewrite Ha' in Hxy1.
  set (t1 := motion_step w first anchor' sr (snd out)
               (feedrate_after back (wipe_feedrate (settings_ w))) false) in *.
  set (f2 := if use_full_wipe_ w then x_y_travel_speed (settings_ w) else of_Z (-1)).
  pose proof (motion_step_xy w anchor' first sr (snd t1) f2 true) as Hxy2.
  rewrite Hfirst in Hxy2.
  set (t2 := motion_step w anchor' first sr (snd t1) f2 true) in *.
  destruct (wipe_segments_relative w true rest first (snd t2) f2 Hrest) as [Hrx Hry].
  fold newest in Hrx, Hry.
  set (ret := wipe_segments w true first rest (snd t2) f2) in *.
  destruct (sum_xy_cons _ _ _ [fst t2] Hxy1) as [Hx1 Hy1].
  destruct (sum_xy_cons _ _ _ [] Hxy2) as [Hx2 Hy2].
  set (pre := if has_pre then _ else _).
  set (post := if (_ >? _)%D then _ else _).
  assert (Hpre : sum_x pre = 0%R /\ sum_y pre = 0%R).
  { subst pre. by destruct has_pre. }
  assert (Hpost : sum_x post = 0%R /\ sum_y post = 0%R).
  { subst post. by destruct (_ >? _)%D. }
  destruct Hpre as [Hpx Hpy]. destruct Hpost as [Hqx Hqy].
  rewrite !(proj1 (sum_xy_app _ _)), !(proj2 (sum_xy_app _ _)).
  rewrite Hpx, Hpy, Hqx, Hqy, Hox, Hoy, Hx1, Hy1, Hx2, Hy2, Hrx, Hry.
  change (sum_x []) with 0%R. change (sum_y []) with 0%R.
  change (@dsub exact) with Rminus. split; lra.
Qed.
Lemma motion_step_retracts (w : gcode_wiper) (from to : gcode_wiper_position)
    (rr e f : R) (is_return : bool) :
  is_extruder_relative to = true -> (0 <= rr)%R ->
  retracts (fst (motion_step w from to rr e f is_return)).
Proof.
  intros Hrel Hrr. unfold motion_step, retracts. rewrite Hrel.
  destruct (use_full_wipe_ w && is_return); simpl; [done | lra].
Qed.

Lemma segment_retraction_nonnegative (w : gcode_wiper) (from to : gcode_wiper_position) :
  (0 <= distance_to_retraction_ratio_ w)%R -> (0 <= segment_retraction w from to)%R.
Proof.
  intros Hratio. unfold segment_retraction, wipe_distance_to_retraction_.
  apply Rmult_le_pos; [apply distance_nonnegative | done].
Qed.

Lemma wipe_segments_retracts (w : gcode_wiper) (is_return : bool)
    (path : list gcode_wiper_position) :
  (0 <= distance_to_retraction_ratio_ w)%R ->
  forall (from : gcode_wiper_position) (e f : R),
    Forall (fun p => is_extruder_relative p = true) path ->
    Forall retracts (fst (wipe_segments w is_return from path e f)).
Proof.
  intros Hratio. induction path as [| v path IH]; intros from e f Hrel.
  - constructor.
  - inversion Hrel as [| ? ? Hv Hpath]; subst.
    cbn [wipe_segments fst]. constructor.
    + apply motion_step_retracts; [done |]. by apply segment_retraction_nonnegative.
    + by apply IH.
Qed.

(** X14, in exact arithmetic.  On a state whose anchors are null or live (as
    every reachable state is), with every recorded position in relative
    extrusion mode and a ratio of retraction to distance that is not
    negative, no step that [get_wipe_steps] pushes extrudes: every extrusion
    coordinate is at most 0. *)
Theorem relative_extrusion_never_positive (w w' : gcode_wiper)
    (steps : list gcode_wiper_step) (divisors : list double)
    (first anchor : gcode_wiper_position) (rest : list gcode_wiper_position) :
  wf w -> get_wipe_steps w = Some ((steps, w'), divisors) -> steps <> [] ->
  drop (start_index (history_ w)) (positions (history_ w)) = first :: rest ->
  deref w (p_starting_position_ w) = Some anchor ->
  Forall (fun p => is_extruder_relative p = true) (anchor :: first :: rest) ->
  (0 <= distance_to_retraction_ratio_ w)%R ->
  Forall retracts steps.
Proof.
  intros Hwf Hsteps Hne Hdrop Hanchor Hrel Hratio.
  destruct (get_wipe_steps_plan w w' steps divisors Hwf Hsteps Hne)
    as (first' & rest' & anchor' & Hdrop' & Hanchor' & -> & _ & _).
  rewrite Hdrop in Hdrop'. injection Hdrop' as <- <-.
  rewrite Hanchor in Hanchor'. injection Hanchor' as <-.
  inversion Hrel as [| ? ? Ha Hkept]; subst.
  assert (Hnewest : is_extruder_relative (List.last rest first) = true).
  { exact (Forall_lookup_1 _ _ _ _ Hkept (lookup_last_cons first rest)). }
  assert (Hfirst : is_extruder_relative first = true) by (by inversion Hkept).
  assert (Hrest : Forall (fun p => is_extruder_relative p = true) rest)
    by (by inversion Hkept).
  pose proof (wipe_anchor_extruder_relative w first anchor) as Ha'. rewrite Ha in Ha'.
  pose proof (Forall_back _ first rest Hkept) as Hrel_back.
  unfold plan_steps, wipe_plan_of, wipe_plan_from.
  cbn [pre_retract outbound turn_around returning post_retract].
  rewrite Hnewest.
  repeat apply Forall_app_2.
  - destruct (greater_than (pre_wipe_retract_length_ w) (of_Z 0)) eqn:Hpre;
      [| constructor].
    repeat constructor. unfold retracts. simpl.
    simpl in Hpre. apply andb_true_iff in Hpre as [Hpre _].
    apply Rltb_true in Hpre. lra.
  - by apply wipe_segments_retracts.
  - repeat constructor; apply motion_step_retracts; try done;
      by apply segment_retraction_nonnegative.
  - by apply wipe_segments_retracts.
  - destruct (_ >? _)%D eqn:Hpost; [| constructor].
    repeat constructor. unfold retracts. simpl.
    simpl in Hpost. apply Rltb_true in Hpost. lra.
Qed.

(** The clipped end of a segment is at the kept distance from its start. *)
Lemma clipped_distance (d : R) (f t : gcode_wiper_position) :
  let seg := get_cartesian_distance (x f) (y f) (x t) (y t) in
  (0 < seg)%R -> (0 <= d <= seg)%R ->
  get_cartesian_distance (x f) (y f) (x (clipped d f t)) (y (clipped d f t))
  = (seg - d)%R.
Proof.
  intros seg Hseg Hd. unfold clipped. fold seg. simpl.
  assert (Hsegdef : seg = sqrt ((x f - x t) * (x f - x t) + (y f - y t) * (y f - y t))%R)
    by done.
  clearbody seg.
  set (r := ((seg - d) / seg)%R).
  assert (Hr : (0 <= r)%R).
  { subst r. apply Rmult_le_pos; [lra |]. left. apply Rinv_0_lt_compat. lra. }
  replace ((x f - (x f + (x t - x f) * r)) * (x f - (x f + (x t - x f) * r))
           + (y f - (y f + (y t - y f) * r)) * (y f - (y f + (y t - y f) * r)))%R
    with ((r * r) * ((x f - x t) * (x f - x t) + (y f - y t) * (y f - y t)))%R by ring.
  rewrite sqrt_mult_alt by nra.
  rewrite sqrt_square by done. rewrite <- Hsegdef.
  subst r. field. lra.
Qed.

Lemma greater_than_exact (a b : R) :
  tol = 0%R -> greater_than a b = Rltb b a.
Proof.
  intros Htol. simpl. rewrite Htol.
  rewrite (proj2 (Rltb_false (Rabs (a - b)) 0)) by apply Rabs_pos.
  apply andb_true_r.
Qed.

Lemma greater_than_or_equal_exact (a b : R) :
  tol = 0%R -> greater_than_or_equal a b = Rltb b a.
Proof.
  intros Htol. simpl. rewrite Htol.
  rewrite (proj2 (Rltb_false (Rabs (a - b)) 0)) by apply Rabs_pos.
  apply orb_false_r.
Qed.

(** X15, in exact arithmetic with exact comparisons (a tolerance of 0).
    On a state whose anchors are null or live, without [use_full_wipe_], with
    every recorded position in absolute extrusion mode, lengths that add up
    to the retraction length (as [initialize] derives them) and are not
    negative, a [total_distance] that is the length of the recorded path, and
    no more to clip than the oldest segment is long: the extrusion coordinate
    of the last step that [get_wipe_steps] pushes is the offset E of the
    newest entry less the retraction length.  A half wipe retracts the
    configured length, whether the history is shorter or longer than the
    wipe. *)
Theorem half_wipe_retracts_retraction_length (w w' : gcode_wiper)
    (steps : list gcode_wiper_step) (divisors : list double)
    (first anchor : gcode_wiper_position) (rest : list gcode_wiper_position) :
  tol = 0%R ->
  wf w -> get_wipe_steps w = Some ((steps, w'), divisors) -> steps <> [] ->
  drop (start_index (history_ w)) (positions (history_ w)) = first :: rest ->
  deref w (p_starting_position_ w) = Some anchor ->
  Forall (fun p => is_extruder_relative p = false) (anchor :: first :: rest) ->
  use_full_wipe_ w = false ->
  total_distance_ w = path_length anchor (first :: rest) ->
  (pre_wipe_retract_length_ w + post_wipe_retract_length_ w
   + wipe_distance_ w * distance_to_retraction_ratio_ w
   = retraction_length (settings_ w))%R ->
  (half_wipe_distance_ w * 2 = wipe_distance_ w)%R ->
  (0 <= pre_wipe_retract_length_ w)%R ->
  (0 <= post_wipe_retract_length_ w)%R ->
  (0 <= distance_to_retraction_ratio_ w)%R ->
  (get_extra_retraction w
   <= get_cartesian_distance (x first) (y first) (x anchor) (y anchor))%R ->
  last_e steps
  = Some (get_offset_e (List.last rest first) - retraction_length (settings_ w))%R.
Proof.
  intros Htol Hwf Hsteps Hne Hdrop Hanchor Habs Hhalf Htotal Hbudget Hwd Hpre Hpost
    Hratio Hclip.
  destruct (get_wipe_steps_plan w w' steps divisors Hwf Hsteps Hne)
    as (first' & rest' & anchor' & Hdrop' & Hanchor' & -> & _ & _).
  rewrite Hdrop in Hdrop'. injection Hdrop' as <- <-.
  rewrite Hanchor in Hanchor'. injection Hanchor' as <-.
  unfold wipe_plan_of.
  rewrite wipe_plan_last_e.
  2:{ inversion Habs as [| ? ? Ha Hkept]; subst.
      constructor; [| done]. by rewrite wipe_anchor_extruder_relative. }
  f_equal. rewrite Hhalf.
  rewrite (greater_than_exact _ _ Htol).
  unfold resolved_post_wipe_retract_length.
  rewrite (greater_than_or_equal_exact _ _ Htol).
  unfold wipe_anchor. rewrite (greater_than_exact _ _ Htol).
  unfold get_missing_retraction, wipe_distance_to_retraction_.
  unfold get_extra_retraction in *. rewrite Hhalf in *.
  cbn [path_length] in *.
  change (@dadd exact) with Rplus in *. change (@dsub exact) with Rminus in *.
  change (@dmul exact) with Rmult in *. change (@of_Z exact 0) with 0%R in *.
  change (@of_Z exact 2) with 2%R.
  set (seg := get_cartesian_distance (x first) (y first) (x anchor) (y anchor)) in *.
  assert (Hsym : get_cartesian_distance (x anchor) (y anchor) (x first) (y first) = seg).
  { apply distance_symmetric. }
  rewrite Hsym in Htotal.
  set (p := path_length first rest) in *.
  set (ratio := distance_to_retraction_ratio_ w) in *.
  set (total := total_distance_ w) in *.
  set (half := half_wipe_distance_ w) in *.
  set (pre := pre_wipe_retract_length_ w) in *.
  set (post := post_wipe_retract_length_ w) in *.
  change (@double exact) with R in *.
  assert (Hpre' : (if Rltb 0 pre then pre else 0%R) = pre).
  { destruct (Rltb 0 pre) eqn:Hp; [done |]. apply Rltb_false in Hp. lra. }
  rewrite Hpre'. clear Hpre'.
  set (m := ((half - total) * 2 * ratio)%R).
  destruct (Rltb 0 (total - half)) eqn:Hextra.
  - apply Rltb_true in Hextra.
    match goal with
    | |- context [get_cartesian_distance (x ?c) (y ?c) (x first) (y first)] =>
        rewrite (distance_symmetric (x c) (y c))
    end.
    pose proof (clipped_distance (total - half) first anchor) as Hd.
    cbv zeta in Hd. fold seg in Hd. rewrite Hd by lra. clear Hd.
    assert (Hm : (m <= 0)%R) by (subst m; nra).
    rewrite (proj2 (Rltb_false 0 m)) by done.
    destruct (Rltb 0 post) eqn:Hp; [| apply Rltb_false in Hp]; nra.
  - apply Rltb_false in Hextra. rewrite Hsym.
    assert (Hm : (0 <= m)%R) by (subst m; nra).
    destruct (Rltb 0 m) eqn:Hm'.
    + rewrite (proj2 (Rltb_true 0 (post + m))) by (apply Rltb_true in Hm'; lra).
      subst m. nra.
    + apply Rltb_false in Hm'. assert (Hm0 : m = 0%R) by lra.
      destruct (Rltb 0 post) eqn:Hp; [| apply Rltb_false in Hp]; subst m; nra.
Qed.

End ExactArithmetic.

(** * The claims on concrete engines (binary64) *)

(** The scenario of the specification: the constants that [initialize]
    derives, to the nearest binary64 values, and the total after three moves
    of length 1, which the pruning leaves at 3 (removing the first entry
    would leave 2, below the wipe distance). *)
Example scenario_constants :
  pre_wipe_retract_length_ scenario_start = 0.40000000000000002%float
  /\ post_wipe_retract_length_ scenario_start = 0.40000000000000002%float
  /\ wipe_distance_ scenario_start = 2.4000000000000004%float
  /\ half_wipe_distance_ scenario_start = 1.2000000000000002%float
  /\ distance_to_retraction_ratio_ scenario_start = 0.5%float
  /\ total_distance_ scenario_3 = 3%float
  /\ history_size (history_ scenario_3) = 3%Z
  /\ total_distance_ scenario_4 = 3%float
  /\ history_size (history_ scenario_4) = 3%Z.
Proof. repeat apply conj; vm_compute; reflexivity. Qed.

Lemma reachable_scenario_start : reachable scenario_start.
Proof. apply reachable_new_args. Qed.

Lemma reachable_scenario_3 : reachable scenario_3.
Proof. repeat apply reachable_after_update. apply reachable_scenario_start. Qed.

Lemma reachable_scenario_4 : reachable scenario_4.
Proof. apply reachable_after_update, reachable_scenario_3. Qed.

Lemma reachable_no_retraction_2 : reachable no_retraction_2.
Proof. repeat apply reachable_after_update. apply reachable_new_args. Qed.

(** The fourth move of the scenario prunes the first entry. *)
Lemma scenario_4_update :
  update (extruding_at 4 0) (extruding_at 3 0) scenario_3 = Some scenario_4.
Proof. vm_compute. reflexivity. Qed.

Lemma scenario_4_wipe_steps :
  get_wipe_steps scenario_4
  = Some ((fst (fst (wipe_steps_of scenario_4)), snd (fst (wipe_steps_of scenario_4))),
          snd (wipe_steps_of scenario_4)).
Proof. vm_compute. reflexivity. Qed.

(** C1 on the scenario after four moves. *)
Lemma wipe_steps_order_witness :
  reachable scenario_4
  /\ fst (fst (wipe_steps_of scenario_4)) <> []
  /\ exists first rest anchor,
       drop (start_index (history_ scenario_4)) (positions (history_ scenario_4))
       = first :: rest
       /\ deref scenario_4 (p_starting_position_ scenario_4) = Some anchor
       /\ fst (fst (wipe_steps_of scenario_4))
          = plan_steps (wipe_plan_of scenario_4 first rest anchor)
       /\ begins_with_retract (fst (fst (wipe_steps_of scenario_4))) = true
       /\ ends_with_retract (fst (fst (wipe_steps_of scenario_4))) = true.
Proof.
  assert (Hne : fst (fst (wipe_steps_of scenario_4)) <> []).
  { intros Hnil. vm_compute in Hnil. discriminate Hnil. }
  split; [apply reachable_scenario_4 |]. split; [exact Hne |].
  destruct (wipe_steps_order scenario_4 _ _ _ reachable_scenario_4 scenario_4_wipe_steps Hne)
    as (first & rest & anchor & Hdrop & Hd & Hsteps & Hb & He & _).
  exists first, rest, anchor.
  split; [exact Hdrop |]. split; [exact Hd |]. split; [exact Hsteps |].
  split; [rewrite Hb | rewrite He]; vm_compute; reflexivity.
Defined.

(** C1 as stated fails in binary64, whichever comparison its two [> 0] are
    read as.  With a pre-wipe retract length of 0.000002 the length is [> 0]
    and the output begins with a motion step, because the test of the code is
    [utilities::greater_than].  With a post-wipe retract length of 0.000002
    and a missing retraction of -0.000003, which is negative, the base length
    is [> 0] and the output ends with a motion step, because
    [utilities::greater_than_or_equal] takes the missing retraction for
    non-negative and the sum is below 0.  With the same length and a missing
    retraction of -0.25 the resolved length 0.000002 is not
    [utilities::greater_than] 0 and the output ends with a retract-only step,
    because this test of the code is the [>] of the language. *)
Lemma wipe_steps_order_counterexample :
  (reachable small_pre_1
   /\ get_wipe_steps small_pre_1 = Some (wipe_steps_of small_pre_1)
   /\ fst (fst (wipe_steps_of small_pre_1))
      = [step_xyef 0 0 (-0.5) 3600; step_xyf 1 0 6000;
         step_ef (-0.40000000000000002) 1800]%float
   /\ pre_wipe_retract_length_ small_pre_1 = 1.9999999999999999e-06%float
   /\ (pre_wipe_retract_length_ small_pre_1 >? of_Z 0)%D = true
   /\ begins_with_retract (fst (fst (wipe_steps_of small_pre_1))) = false)
  /\ (reachable small_post_short
      /\ get_wipe_steps small_post_short = Some (wipe_steps_of small_post_short)
      /\ fst (fst (wipe_steps_of small_post_short))
         = [step_ef (-0.40000000000000002) 1800;
            step_xyef 0 0 (-0.50000299999999998) 3600;
            step_xyf 1.000006 0 6000]%float
      /\ post_wipe_retract_length_ small_post_short = 1.9999999999999999e-06%float
      /\ get_missing_retraction small_post_short = (-2.9999999999752447e-06)%float
      /\ (get_missing_retraction small_post_short <? of_Z 0)%D = true
      /\ (post_wipe_retract_length_ small_post_short >? of_Z 0)%D = true
      /\ ends_with_retract (fst (fst (wipe_steps_of small_post_short))) = false)
  /\ (reachable small_post_long
      /\ get_wipe_steps small_post_long = Some (wipe_steps_of small_post_long)
      /\ fst (fst (wipe_steps_of small_post_long))
         = [step_ef (-0.40000000000000002) 1800; step_xyef 0 0 (-0.75) 3600;
            step_xyf 1.5 0 6000; step_ef (-1.9999999999999999e-06) 1800]%float
      /\ get_missing_retraction small_post_long = (-0.25)%float
      /\ resolved_post_wipe_retract_length small_post_long
         = 1.9999999999999999e-06%float
      /\ greater_than (resolved_post_wipe_retract_length small_post_long) (of_Z 0) = false
      /\ ends_with_retract (fst (fst (wipe_steps_of small_post_long))) = true).
Proof.
  split; [| split].
  - split; [apply reachable_after_update, reachable_new_args |].
    repeat apply conj; vm_compute; reflexivity.
  - split; [apply reachable_after_update, reachable_new_args |].
    repeat apply conj; vm_compute; reflexivity.
  - split; [apply reachable_after_update, reachable_new_args |].
    repeat apply conj; vm_compute; reflexivity.
Qed.

(** C4 on the fourth move of the scenario, which prunes. *)
Lemma prune_keeps_wipe_distance_witness :
  reachable scenario_3
  /\ is_initialized_ scenario_3 = true
  /\ clears_history (extruding_at 4 0) = false
  /\ update (extruding_at 4 0) (extruding_at 3 0) scenario_3 = Some scenario_4
  /\ ((total_distance_ scenario_4
       = (total_distance_ scenario_3
          + get_cartesian_distance (x_ (extruding_at 3 0)) (y_ (extruding_at 3 0))
                                   (x_ (extruding_at 4 0)) (y_ (extruding_at 4 0)))%D
       /\ history_ scenario_4
          = history_push_back (extruding_at 4 0) (history_ scenario_3))
      \/ less_than (total_distance_ scenario_4) (get_wipe_distance scenario_4) = false).
Proof.
  assert (Hi : is_initialized_ scenario_3 = true) by (vm_compute; reflexivity).
  assert (Hc : clears_history (extruding_at 4 0) = false) by (vm_compute; reflexivity).
  split; [apply reachable_scenario_3 |]. split; [exact Hi |]. split; [exact Hc |].
  split; [exact scenario_4_update |].
  exact (prune_keeps_wipe_distance scenario_3 scenario_4 (extruding_at 4 0)
           (extruding_at 3 0) reachable_scenario_3 Hi Hc scenario_4_update).
Defined.

(** C4 as stated fails on the first move of the scenario: after the pruning
    loop the history, which was not empty before it, still holds its one
    entry, and [total_distance] is 1, below the wipe distance of 2.4. *)
Lemma prune_lower_bound_counterexample :
  update (extruding_at 1 0) (extruding_at 0 0) scenario_start = Some scenario_1
  /\ history_size (history_ scenario_1) = 1%Z
  /\ total_distance_ scenario_1 = 1%float
  /\ get_wipe_distance scenario_1 = 2.4000000000000004%float
  /\ (total_distance_ scenario_1 <? get_wipe_distance scenario_1)%D = true.
Proof. repeat apply conj; vm_compute; reflexivity. Qed.



(** C6 on a layer change after four moves. *)
Lemma update_clears_history_witness :
  reachable scenario_4
  /\ is_layer_change_ (layer_change_at 5 0) = true
  /\ history_size (history_ scenario_4) = 3%Z
  /\ exists w',
       update (layer_change_at 5 0) (extruding_at 4 0) scenario_4 = Some w'
       /\ positions (history_ w') = []
       /\ history_size (history_ w') = 0%Z
       /\ total_distance_ w' = of_Z 0.
Proof.
  split; [apply reachable_scenario_4 |]. split; [reflexivity |].
  split; [vm_compute; reflexivity |].
  apply (update_clears_history scenario_4 (layer_change_at 5 0) (extruding_at 4 0)
           reachable_scenario_4).
  left. reflexivity.
Defined.

(** C9 on a freshly constructed engine. *)
Lemma never_initialized_no_op_witness :
  never_initialized (gcode_wiper_new scenario_args zeros)
  /\ update (extruding_at 1 0) (extruding_at 0 0) (gcode_wiper_new scenario_args zeros)
     = Some (gcode_wiper_new scenario_args zeros)
  /\ get_wipe_steps (gcode_wiper_new scenario_args zeros)
     = Some (([], gcode_wiper_new scenario_args zeros), []).
Proof.
  split; [apply never_initialized_new |].
  apply (never_initialized_no_op (gcode_wiper_new scenario_args zeros)
           (extruding_at 1 0) (extruding_at 0 0)).
  apply never_initialized_new.
Defined.

(** C10 on the scenario after four moves, where the first [undo] restores a
    starting position and a distance of 3. *)
Lemma undo_twice_clears_witness :
  reachable scenario_4
  /\ (undo scenario_4 ≫= fun w1 => Some (p_starting_position_ w1, total_distance_ w1))
     = Some (Some (heap_loc 1), 3%float)
  /\ exists w1 w2,
       undo scenario_4 = Some w1 /\ undo w1 = Some w2
       /\ p_previous_starting_position_ w1 = NULL
       /\ previous_total_distance_ w1 = of_Z 0
       /\ p_starting_position_ w2 = NULL
       /\ total_distance_ w2 = of_Z 0.
Proof.
  split; [apply reachable_scenario_4 |].
  split; [vm_compute; reflexivity |].
  exact (undo_twice_clears scenario_4 reachable_scenario_4).
Defined.

(** C7 on the scenario after four moves. *)
Lemma wipe_distance_not_guarded_witness :
  reachable scenario_4
  /\ get_wipe_steps scenario_4 = Some (wipe_steps_of scenario_4)
  /\ In (retraction_feedrate (settings_ scenario_4)) (snd (initialize_traced scenario_4))
  /\ In (wipe_distance_ (initialize scenario_4)) (snd (initialize_traced scenario_4))
  /\ (fst (fst (wipe_steps_of scenario_4)) = [] <-> nothing_to_wipe scenario_4 = true).
Proof.
  assert (Hsteps : get_wipe_steps scenario_4 = Some (wipe_steps_of scenario_4))
    by (vm_compute; reflexivity).
  split; [apply reachable_scenario_4 |]. split; [exact Hsteps |].
  exact (wipe_distance_not_guarded scenario_4 (wipe_steps_of scenario_4)
           reachable_scenario_4 Hsteps).
Defined.

(** C7 as stated fails.  With no retraction configured the wipe distance is
    0 and [initialize] has divided by it (the ratio is 0 / 0); and there is
    a reachable state with wipe distance 0 in which [get_wipe_steps] pushes
    two steps, after a division by the length 5 of the clipped segment. *)
Lemma wipe_distance_zero_counterexample :
  wipe_distance_ (initialize (gcode_wiper_new no_retraction_args zeros)) = 0%float
  /\ snd (initialize_traced (gcode_wiper_new no_retraction_args zeros))
     = [1800%float; 0%float]
  /\ distance_to_retraction_ratio_ (initialize (gcode_wiper_new no_retraction_args zeros))
     = nan
  /\ wipe_distance_ no_retraction_2 = 0%float
  /\ get_wipe_steps no_retraction_2
     = Some (([step_xyef 0 0 nan 3600; step_xyf 5 0 6000]%float, no_retraction_2),
             [5%float]).
Proof. repeat apply conj; vm_compute; reflexivity. Qed.

(** C3 as stated fails in binary64: for the percentages 0.6 and 0.7 the sum
    after [initialize] is not 1. *)
Lemma normalization_counterexample :
  greater_than (retract_before_wipe_percent excess_args
                + retract_after_wipe_percent excess_args)%D (of_Z 1) = true
  /\ (retract_before_wipe_percent (settings_ (gcode_wiper_new_args excess_args zeros))
      + retract_after_wipe_percent (settings_ (gcode_wiper_new_args excess_args zeros)))%D
     = 1.0000000000000002%float
  /\ ((retract_before_wipe_percent (settings_ (gcode_wiper_new_args excess_args zeros))
       + retract_after_wipe_percent (settings_ (gcode_wiper_new_args excess_args zeros)))
      =? of_Z 1)%D = false.
Proof. repeat apply conj; vm_compute; reflexivity. Qed.

(** The clamping of [initialize] is by [less_than]: with a tolerance of
    0.000005, a percentage of -0.000001 stays as it is. *)
Example clamp_keeps_small_negative :
  retract_before_wipe_percent (settings_ (gcode_wiper_new_args small_negative_args zeros))
  = (-0.000001)%float
  /\ (retract_before_wipe_percent (settings_ (gcode_wiper_new_args small_negative_args zeros))
      <? of_Z 0)%D = true.
Proof. repeat apply conj; vm_compute; reflexivity. Qed.

(** The pruning is by [less_than] too: with a tolerance of 0.000005 the
    first of two entries is removed although the total that is left,
    2.399999, is below the wipe distance. *)
Example prune_within_tolerance :
  history_size (history_ scenario_close) = 1%Z
  /\ start_index (history_ scenario_close) = 1%nat
  /\ (total_distance_ scenario_close <? get_wipe_distance scenario_close)%D = true
  /\ less_than (total_distance_ scenario_close) (get_wipe_distance scenario_close) = false.
Proof. repeat apply conj; vm_compute; reflexivity. Qed.

(** C2 fails on the code: in full-wipe mode [get_missing_retraction]
    subtracts from the flag [use_full_wipe_] (1 as a [double]) and not from
    [wipe_distance_].  After the first move of the scenario it returns
    (1 - 1) * 0.5 = 0, while (wipe_distance - total_distance) * ratio is
    (2.4 - 1) * 0.5 = 0.7. *)
Lemma missing_retraction_full_wipe :
  use_full_wipe_ scenario_1 = true
  /\ total_distance_ scenario_1 = 1%float
  /\ wipe_distance_ scenario_1 = 2.4000000000000004%float
  /\ distance_to_retraction_ratio_ scenario_1 = 0.5%float
  /\ get_missing_retraction scenario_1 = 0%float
  /\ ((wipe_distance_ scenario_1 - total_distance_ scenario_1)
      * distance_to_retraction_ratio_ scenario_1)%D = 0.70000000000000018%float.
Proof. repeat apply conj; vm_compute; reflexivity. Qed.

(** C8 as stated fails in binary64: clipping 3 from the segment of length 13
    from (0, 0) to (5, 12) gives a copy of [to] whose distance from [from]
    is not 13 - 3. *)
Lemma clip_distance_counterexample :
  get_cartesian_distance 0%float 0%float 5%float 12%float = 13%float
  /\ (clip_wipe_path 3%float (Some (heap_loc 1)) (Some (heap_loc 2)) segment_store
      ≫= fun r => deref (snd (fst r)) (snd (fst (fst r)))
      ≫= fun to' => Some (get_cartesian_distance 0%float 0%float (x to') (y to')))
     = Some 10.000000000000002%float
  /\ (13 - 3)%float = 10%float
  /\ (10.000000000000002 =? 10)%float = false.
Proof. repeat apply conj; vm_compute; reflexivity. Qed.

(** * The claims in exact arithmetic on a concrete segment *)

Lemma exact_segment_length :
  @get_cartesian_distance exact (exact_tolerance 0) 0%R 0%R 3%R 4%R = 5%R.
Proof.
  simpl. replace ((0 - 3) * (0 - 3) + (0 - 4) * (0 - 4))%R with (5 * 5)%R by lra.
  apply sqrt_square. lra.
Qed.

(** C8 on the segment from (0, 0) to (3, 4), clipped by 1: the copy of [to]
    is at distance 4. *)
Lemma clip_wipe_path_exact_witness :
  deref exact_segment_store (Some (heap_loc 1)) = Some (exact_position 0 0)
  /\ deref exact_segment_store (Some (heap_loc 2)) = Some (exact_position 3 4)
  /\ (0 < @get_cartesian_distance exact (exact_tolerance 0) 0 0 3 4)%R
  /\ (0 <= 1 <= @get_cartesian_distance exact (exact_tolerance 0) 0 0 3 4)%R
  /\ exists a1 a2 w' t',
       @clip_wipe_path exact (exact_tolerance 0) 1%R (Some (heap_loc 1)) (Some (heap_loc 2))
         exact_segment_store
       = Some ((Some (heap_loc a1), Some (heap_loc a2), w'), [5%R])
       /\ deref exact_segment_store (Some (heap_loc 2)) = deref w' (Some (heap_loc 2))
       /\ deref w' (Some (heap_loc a2)) = Some t'
       /\ @get_cartesian_distance exact (exact_tolerance 0) 0%R 0%R (x t') (y t') = 4%R.
Proof.
  assert (H1 : deref exact_segment_store (Some (heap_loc 1)) = Some (exact_position 0 0)).
  { simpl. rewrite lookup_insert_ne by done. apply lookup_insert_eq. }
  assert (H2 : deref exact_segment_store (Some (heap_loc 2)) = Some (exact_position 3 4)).
  { simpl. apply lookup_insert_eq. }
  assert (H3 : (0 < @get_cartesian_distance exact (exact_tolerance 0) 0 0 3 4)%R).
  { rewrite exact_segment_length. lra. }
  assert (H4 : (0 <= 1 <= @get_cartesian_distance exact (exact_tolerance 0) 0 0 3 4)%R).
  { rewrite exact_segment_length. lra. }
  split; [exact H1 |]. split; [exact H2 |]. split; [exact H3 |]. split; [exact H4 |].
  destruct (clip_wipe_path_exact 0 exact_segment_store (Some (heap_loc 1))
              (Some (heap_loc 2)) (exact_position 0 0) (exact_position 3 4) 1%R
              H1 H2 H3 H4)
    as (a1 & a2 & w' & t' & Hclip & _ & _ & _ & Hkeep & _ & _ & _ & Hto & _ & _ & Hdist).
  exists a1, a2, w', t'.
  split. { rewrite Hclip. simpl x. simpl y. rewrite exact_segment_length. reflexivity. }
  split. { rewrite H2. symmetry. apply Hkeep. exact H2. }
  split; [exact Hto |].
  simpl x in Hdist. simpl y in Hdist. rewrite exact_segment_length in Hdist.
  rewrite Hdist. lra.
Defined.

(** * The further properties on concrete engines (binary64) *)

Lemma scenario_4_steps : fst (fst (wipe_steps_of scenario_4)) <> [].
Proof. intros Hnil. vm_compute in Hnil. discriminate Hnil. Qed.

(** X1 on the scenario after four moves, where the two anchors are two
    objects. *)
Lemma destructor_deletes_every_object_witness :
  reachable scenario_4
  /\ size (heap_ scenario_4) = 2
  /\ exists w',
       gcode_wiper_destructor scenario_4 = Some w'
       /\ heap_ w' = ∅
       /\ p_starting_position_ w' = NULL
       /\ p_previous_starting_position_ w' = NULL.
Proof.
  split; [apply reachable_scenario_4 |].
  split; [vm_compute; reflexivity |].
  exact (destructor_deletes_every_object scenario_4 reachable_scenario_4).
Defined.

(** X2 on the scenario after four moves and a call of [get_wipe_steps],
    which clips. *)
Lemma at_most_two_objects_witness :
  reachable (snd (fst (wipe_steps_of scenario_4)))
  /\ snd (wipe_steps_of scenario_4) = [1%float]
  /\ anchors_own_heap (snd (fst (wipe_steps_of scenario_4)))
  /\ size (heap_ (snd (fst (wipe_steps_of scenario_4)))) <= 2.
Proof.
  assert (Hr : reachable (snd (fst (wipe_steps_of scenario_4)))).
  { apply (reachable_get_wipe_steps scenario_4 (wipe_steps_of scenario_4)).
    - apply reachable_scenario_4.
    - vm_compute. reflexivity. }
  split; [exact Hr |]. split; [vm_compute; reflexivity |].
  exact (at_most_two_objects _ Hr).
Defined.

(** X3 on the scenario after four moves. *)
Lemma get_wipe_steps_leaves_state_witness :
  reachable scenario_4
  /\ fst (fst (wipe_steps_of scenario_4)) <> []
  /\ exists steps divisors, get_wipe_steps scenario_4 = Some ((steps, scenario_4), divisors).
Proof.
  split; [apply reachable_scenario_4 |]. split; [exact scenario_4_steps |].
  exact (get_wipe_steps_leaves_state scenario_4 reachable_scenario_4).
Defined.

(** X4 on a layer change after four moves. *)
Lemma no_wipe_after_clearing_update_witness :
  reachable scenario_4
  /\ clears_history (layer_change_at 5 0) = true
  /\ fst (fst (wipe_steps_of scenario_4)) <> []
  /\ exists w',
       update (layer_change_at 5 0) (extruding_at 4 0) scenario_4 = Some w'
       /\ get_wipe_steps w' = Some (([], w'), []).
Proof.
  assert (Hc : clears_history (layer_change_at 5 0) = true) by reflexivity.
  split; [apply reachable_scenario_4 |]. split; [exact Hc |].
  split; [exact scenario_4_steps |].
  exact (no_wipe_after_clearing_update scenario_4 (layer_change_at 5 0) (extruding_at 4 0)
           reachable_scenario_4 Hc).
Defined.

(** X5 on the fourth move of the scenario, which removes one entry. *)
Lemma update_appends_then_prunes_witness :
  reachable scenario_3
  /\ is_initialized_ scenario_3 = true
  /\ clears_history (extruding_at 4 0) = false
  /\ update (extruding_at 4 0) (extruding_at 3 0) scenario_3 = Some scenario_4
  /\ start_index (history_ scenario_4) = 1%nat
  /\ exists k : nat,
       (k <= length (drop (start_index (history_ scenario_3))
                          (positions (history_ scenario_3))
                     ++ [gcode_wiper_position_of (extruding_at 4 0)]))%nat
       /\ positions (history_ scenario_4)
          = drop (start_index (history_ scenario_3)) (positions (history_ scenario_3))
            ++ [gcode_wiper_position_of (extruding_at 4 0)]
       /\ start_index (history_ scenario_4) = k
       /\ deref scenario_4 (p_starting_position_ scenario_4)
          = match k with
            | O => if (history_size (history_ scenario_3) =? 0)%Z
                   then Some (gcode_wiper_position_of (extruding_at 3 0))
                   else deref scenario_3 (p_starting_position_ scenario_3)
            | S k' =>
                (drop (start_index (history_ scenario_3)) (positions (history_ scenario_3))
                 ++ [gcode_wiper_position_of (extruding_at 4 0)]) !! k'
            end.
Proof.
  assert (Hi : is_initialized_ scenario_3 = true) by (vm_compute; reflexivity).
  assert (Hc : clears_history (extruding_at 4 0) = false) by (vm_compute; reflexivity).
  split; [apply reachable_scenario_3 |]. split; [exact Hi |]. split; [exact Hc |].
  split; [exact scenario_4_update |]. split; [vm_compute; reflexivity |].
  exact (update_appends_then_prunes scenario_3 scenario_4 (extruding_at 4 0)
           (extruding_at 3 0) reachable_scenario_3 Hi Hc scenario_4_update).
Defined.

(** X6 on the fourth move of the scenario: removing a second entry would
    leave a total of 2, below the wipe distance. *)
Lemma pruning_is_maximal_witness :
  reachable scenario_3
  /\ is_initialized_ scenario_3 = true
  /\ clears_history (extruding_at 4 0) = false
  /\ update (extruding_at 4 0) (extruding_at 3 0) scenario_3 = Some scenario_4
  /\ (total_distance_ scenario_4 >? get_wipe_distance scenario_4)%D = true
  /\ ((total_distance_ scenario_4 >? get_wipe_distance scenario_4)%D = false
      \/ exists front anchor,
           deref scenario_4 (history_peek (history_ scenario_4)) = Some front
           /\ deref scenario_4 (p_starting_position_ scenario_4) = Some anchor
           /\ less_than (total_distance_ scenario_4
                         - get_cartesian_distance (x anchor) (y anchor) (x front) (y front))%D
                        (get_wipe_distance scenario_4) = true).
Proof.
  assert (Hi : is_initialized_ scenario_3 = true) by (vm_compute; reflexivity).
  assert (Hc : clears_history (extruding_at 4 0) = false) by (vm_compute; reflexivity).
  split; [apply reachable_scenario_3 |]. split; [exact Hi |]. split; [exact Hc |].
  split; [exact scenario_4_update |]. split; [vm_compute; reflexivity |].
  exact (pruning_is_maximal scenario_3 scenario_4 (extruding_at 4 0)
           (extruding_at 3 0) reachable_scenario_3 Hi Hc scenario_4_update).
Defined.

(** X8 on the scenario after four moves, a full wipe. *)
Lemma return_steps_travel_in_full_wipe_witness :
  reachable scenario_4
  /\ use_full_wipe_ scenario_4 = true
  /\ fst (fst (wipe_steps_of scenario_4)) <> []
  /\ exists pre out back post,
       fst (fst (wipe_steps_of scenario_4)) = pre ++ out ++ back ++ post
       /\ Forall (fun s => is_retract_only s = true) (pre ++ post)
       /\ length out = Z.to_nat (history_size (history_ scenario_4))
       /\ length back = Z.to_nat (history_size (history_ scenario_4))
       /\ Forall (fun s => is_wipe s = true) out
       /\ Forall (fun s => is_travel s = use_full_wipe_ scenario_4
                           /\ is_wipe s = negb (use_full_wipe_ scenario_4)) back.
Proof.
  split; [apply reachable_scenario_4 |]. split; [reflexivity |].
  split; [exact scenario_4_steps |].
  exact (return_steps_travel_in_full_wipe scenario_4 _ _ _ reachable_scenario_4
           scenario_4_wipe_steps scenario_4_steps).
Defined.

(** X9 on the scenario after four moves. *)
Lemma feedrate_is_set_once_per_phase_witness :
  reachable scenario_4
  /\ map step_feedrate (fst (fst (wipe_steps_of scenario_4)))
     = [1800; 3600; -1; -1; 6000; 6000; -1; 1800]%float
  /\ exists (n : nat) pre out back post,
       history_size (history_ scenario_4) = Z.of_nat (S n)
       /\ fst (fst (wipe_steps_of scenario_4)) = pre ++ out ++ back ++ post
       /\ map step_feedrate pre
          = (if greater_than (pre_wipe_retract_length_ scenario_4) (of_Z 0)
             then [retraction_feedrate (settings_ scenario_4)] else [])
       /\ map step_feedrate out
          = wipe_feedrate (settings_ scenario_4) :: replicate n (of_Z (-1))
       /\ map step_feedrate back
          = return_feedrate scenario_4
            :: match n with
               | O => []
               | S m => return_feedrate scenario_4 :: replicate m (of_Z (-1))
               end
       /\ map step_feedrate post
          = if (resolved_post_wipe_retract_length scenario_4 >? of_Z 0)%D then
              [if negb (is_equal (retraction_feedrate (settings_ scenario_4))
                                 (wipe_feedrate (settings_ scenario_4)))
               then retraction_feedrate (settings_ scenario_4)
               else match n with
                    | O => return_feedrate scenario_4
                    | S _ => of_Z (-1)
                    end]
            else [].
Proof.
  split; [apply reachable_scenario_4 |]. split; [vm_compute; reflexivity |].
  exact (feedrate_is_set_once_per_phase scenario_4 _ _ _ reachable_scenario_4
           scenario_4_wipe_steps scenario_4_steps).
Defined.

(** X7 on the scenario after four moves, where the total 3 is above the
    wipe distance 2.4: one division, by the length 1 of the oldest segment. *)
Lemma get_wipe_steps_divides_to_clip_witness :
  reachable scenario_4
  /\ snd (wipe_steps_of scenario_4) = [1%float]
  /\ (snd (wipe_steps_of scenario_4) = []
      \/ exists first anchor,
           positions (history_ scenario_4) !! start_index (history_ scenario_4)
           = Some first
           /\ deref scenario_4 (p_starting_position_ scenario_4) = Some anchor
           /\ greater_than (get_extra_retraction scenario_4) (of_Z 0) = true
           /\ snd (wipe_steps_of scenario_4)
              = [get_cartesian_distance (x first) (y first) (x anchor) (y anchor)]).
Proof.
  split; [apply reachable_scenario_4 |]. split; [vm_compute; reflexivity |].
  exact (get_wipe_steps_divides_to_clip scenario_4 _ _ _ reachable_scenario_4
           scenario_4_wipe_steps).
Defined.

(** X10 on the scenario after four moves: the last motion step goes to
    (4, 0). *)
Lemma wipe_returns_to_newest_position_witness :
  reachable scenario_4
  /\ last (positions (history_ scenario_4))
     = Some (gcode_wiper_position_of (extruding_at 4 0))
  /\ is_relative (gcode_wiper_position_of (extruding_at 4 0)) = false
  /\ last_xy (fst (fst (wipe_steps_of scenario_4))) = Some (4%float, 0%float).
Proof.
  assert (Hlast : last (positions (history_ scenario_4))
                  = Some (gcode_wiper_position_of (extruding_at 4 0)))
    by (vm_compute; reflexivity).
  split; [apply reachable_scenario_4 |]. split; [exact Hlast |].
  split; [reflexivity |].
  exact (wipe_returns_to_newest_position scenario_4 _ _ _ _ reachable_scenario_4
           scenario_4_wipe_steps scenario_4_steps Hlast eq_refl).
Defined.

(** * The further properties in exact arithmetic on a concrete engine *)

Section ExactEngines.
Local Existing Instance exact.
Local Existing Instance exact_comparisons.

Lemma exact_wiper_wf (relative extruder_relative : bool) :
  wf (exact_wiper relative extruder_relative).
Proof.
  split.
  - right. exists 1%positive. split; [done |]. simpl. rewrite lookup_insert_eq. by eexists.
  - by left.
  - done.
Qed.

Lemma exact_wiper_something (relative extruder_relative : bool) :
  nothing_to_wipe (exact_wiper relative extruder_relative) = false.
Proof.
  unfold nothing_to_wipe. simpl. unfold Reqb.
  destruct (Req_dec_T 10 0) as [Heq | Hne]; [lra | done].
Qed.

Lemma exact_wiper_steps (relative extruder_relative : bool) :
  exists steps divisors,
    get_wipe_steps (exact_wiper relative extruder_relative)
    = Some ((steps, exact_wiper relative extruder_relative), divisors)
    /\ steps <> [].
Proof.
  destruct (get_wipe_steps_some _ (exact_wiper_wf relative extruder_relative)
              (exact_wiper_something relative extruder_relative))
    as (first & rest & anchor & steps & divisors & _ & _ & Hsteps & Hne).
  by exists steps, divisors.
Qed.

Lemma exact_wiper_path (relative extruder_relative : bool) :
  path_length (exact_entry 0 0 relative extruder_relative)
    [exact_entry 3 4 relative extruder_relative; exact_entry 6 8 relative extruder_relative]
  = 10%R.
Proof.
  simpl.
  replace ((0 - 3) * (0 - 3) + (0 - 4) * (0 - 4))%R with (5 * 5)%R by lra.
  replace ((3 - 6) * (3 - 6) + (4 - 8) * (4 - 8))%R with (5 * 5)%R by lra.
  rewrite sqrt_square by lra. lra.
Qed.

(** X12 on the engine in absolute extrusion mode. *)
Lemma absolute_extrusion_accounting_witness :
  wf (exact_wiper false false)
  /\ nothing_to_wipe (exact_wiper false false) = false
  /\ exists steps divisors,
       get_wipe_steps (exact_wiper false false)
       = Some ((steps, exact_wiper false false), divisors)
       /\ steps <> []
       /\ last_e steps
          = Some (100
                  - (if greater_than 4%R 0%R then 4 else 0)
                  - 2 * (path_length
                           (wipe_anchor (exact_wiper false false)
                              (exact_entry 3 4 false false) (exact_entry 0 0 false false))
                           [exact_entry 3 4 false false; exact_entry 6 8 false false]
                         * (1 / 2))
                  - (if Rltb 0 (resolved_post_wipe_retract_length (exact_wiper false false))
                     then resolved_post_wipe_retract_length (exact_wiper false false)
                     else 0))%R.
Proof.
  split; [apply exact_wiper_wf |]. split; [apply exact_wiper_something |].
  destruct (exact_wiper_steps false false) as (steps & divisors & Hsteps & Hne).
  exists steps, divisors. split; [exact Hsteps |]. split; [exact Hne |].
  apply (absolute_extrusion_accounting 0 (exact_wiper false false) (exact_wiper false false)
           steps divisors (exact_entry 3 4 false false) (exact_entry 0 0 false false)
           [exact_entry 6 8 false false]
           (exact_wiper_wf false false) Hsteps Hne).
  - reflexivity.
  - simpl. apply lookup_insert_eq.
  - repeat constructor.
Defined.
(** X13 on the engine in relative positioning. *)
Lemma relative_moves_sum_to_zero_witness :
  wf (exact_wiper true true)
  /\ nothing_to_wipe (exact_wiper true true) = false
  /\ exists steps divisors,
       get_wipe_steps (exact_wiper true true)
       = Some ((steps, exact_wiper true true), divisors)
       /\ steps <> []
       /\ sum_x steps = 0%R /\ sum_y steps = 0%R.
Proof.
  split; [apply exact_wiper_wf |]. split; [apply exact_wiper_something |].
  destruct (exact_wiper_steps true true) as (steps & divisors & Hsteps & Hne).
  exists steps, divisors. split; [exact Hsteps |]. split; [exact Hne |].
  apply (relative_moves_sum_to_zero 0 (exact_wiper true true) (exact_wiper true true)
           steps divisors (exact_entry 3 4 true true) (exact_entry 0 0 true true)
           [exact_entry 6 8 true true]
           (exact_wiper_wf true true) Hsteps Hne).
  - reflexivity.
  - simpl. apply lookup_insert_eq.
  - repeat constructor.
Defined.

(** X14 on the engine in relative extrusion mode. *)
Lemma relative_extrusion_never_positive_witness :
  wf (exact_wiper false true)
  /\ nothing_to_wipe (exact_wiper false true) = false
  /\ (0 <= distance_to_retraction_ratio_ (exact_wiper false true))%R
  /\ exists steps divisors,
       get_wipe_steps (exact_wiper false true)
       = Some ((steps, exact_wiper false true), divisors)
       /\ steps <> []
       /\ Forall retracts steps.
Proof.
  assert (Hratio : (0 <= distance_to_retraction_ratio_ (exact_wiper false true))%R)
    by (simpl; lra).
  split; [apply exact_wiper_wf |]. split; [apply exact_wiper_something |].
  split; [exact Hratio |].
  destruct (exact_wiper_steps false true) as (steps & divisors & Hsteps & Hne).
  exists steps, divisors. split; [exact Hsteps |]. split; [exact Hne |].
  apply (relative_extrusion_never_positive 0 (exact_wiper false true)
           (exact_wiper false true)
           steps divisors (exact_entry 3 4 false true) (exact_entry 0 0 false true)
           [exact_entry 6 8 false true]
           (exact_wiper_wf false true) Hsteps Hne).
  - reflexivity.
  - simpl. apply lookup_insert_eq.
  - repeat constructor.
  - exact Hratio.
Defined.

(** X15 on the engine in absolute extrusion mode: the wipe is shorter than
    the half wipe distance, the post-wipe retract makes up for it, and the
    last extrusion coordinate is 100 - 20. *)
Lemma half_wipe_retracts_retraction_length_witness :
  wf (exact_wiper false false)
  /\ nothing_to_wipe (exact_wiper false false) = false
  /\ total_distance_ (exact_wiper false false)
     = path_length (exact_entry 0 0 false false)
         [exact_entry 3 4 false false; exact_entry 6 8 false false]
  /\ exists steps divisors,
       get_wipe_steps (exact_wiper false false)
       = Some ((steps, exact_wiper false false), divisors)
       /\ steps <> []
       /\ last_e steps = Some (100 - 20)%R.
Proof.
  assert (Htotal : total_distance_ (exact_wiper false false)
                   = path_length (exact_entry 0 0 false false)
                       [exact_entry 3 4 false false; exact_entry 6 8 false false]).
  { rewrite exact_wiper_path. reflexivity. }
  split; [apply exact_wiper_wf |]. split; [apply exact_wiper_something |].
  split; [exact Htotal |].
  destruct (exact_wiper_steps false false) as (steps & divisors & Hsteps & Hne).
  exists steps, divisors. split; [exact Hsteps |]. split; [exact Hne |].
  apply (half_wipe_retracts_retraction_length 0 (exact_wiper false false)
           (exact_wiper false false)
           steps divisors (exact_entry 3 4 false false) (exact_entry 0 0 false false)
           [exact_entry 6 8 false false]
           eq_refl (exact_wiper_wf false false) Hsteps Hne).
  - reflexivity.
  - simpl. apply lookup_insert_eq.
  - repeat constructor.
  - reflexivity.
  - exact Htotal.
  - simpl. lra.
  - simpl. lra.
  - simpl. lra.
  - simpl. lra.
  - simpl. lra.
  - pose proof (distance_nonnegative 0 3 4 0 0) as Hd.
    unfold get_extra_retraction. cbn [use_full_wipe_ exact_wiper total_distance_
      half_wipe_distance_ x y exact_entry].
    change (@dsub exact) with Rminus. lra.
Defined.
Lemma exact_wipe_distance :
  wipe_distance_ (gcode_wiper_new_args exact_args exact_zeros) = 24%R.
Proof.
  unfold gcode_wiper_new_args, initialize, initialize_traced, clamp_percent.
  cbn -[Rltb].
  rewrite (proj2 (Rltb_false (1 / 5) 0)) by lra. cbn -[Rltb].
  rewrite (proj2 (Rltb_false 1 (1 / 5 + 1 / 5))) by lra. cbn.
  lra.
Qed.

(** The constants that [initialize] derives from these settings. *)
Example exact_constants :
  pre_wipe_retract_length_ (gcode_wiper_new_args exact_args exact_zeros) = 4%R
  /\ post_wipe_retract_length_ (gcode_wiper_new_args exact_args exact_zeros) = 4%R
  /\ distance_to_retraction_ratio_ (gcode_wiper_new_args exact_args exact_zeros)
     = (1 / 2)%R
  /\ half_wipe_distance_ (gcode_wiper_new_args exact_args exact_zeros) = 12%R.
Proof.
  unfold gcode_wiper_new_args, initialize, initialize_traced, clamp_percent.
  cbn -[Rltb].
  rewrite (proj2 (Rltb_false (1 / 5) 0)) by lra. cbn -[Rltb].
  rewrite (proj2 (Rltb_false 1 (1 / 5 + 1 / 5))) by lra. cbn.
  repeat apply conj; lra.
Qed.

(** X11 on these settings: the wipe distance is 24. *)
Lemma initialize_retraction_budget_witness :
  retraction_feedrate exact_args <> 0%R
  /\ wipe_distance_ (gcode_wiper_new_args exact_args exact_zeros) = 24%R
  /\ (pre_wipe_retract_length_ (gcode_wiper_new_args exact_args exact_zeros)
      + post_wipe_retract_length_ (gcode_wiper_new_args exact_args exact_zeros)
      + wipe_distance_ (gcode_wiper_new_args exact_args exact_zeros)
        * distance_to_retraction_ratio_ (gcode_wiper_new_args exact_args exact_zeros)
      = 20)%R
  /\ (distance_to_retraction_ratio_ (gcode_wiper_new_args exact_args exact_zeros) * 3600
      = 1800)%R
  /\ (half_wipe_distance_ (gcode_wiper_new_args exact_args exact_zeros) * 2
      = wipe_distance_ (gcode_wiper_new_args exact_args exact_zeros))%R.
Proof.
  assert (Hrf : retraction_feedrate exact_args <> 0%R) by (simpl; lra).
  assert (Hwd : wipe_distance_ (gcode_wiper_new_args exact_args exact_zeros) <> 0%R)
    by (rewrite exact_wipe_distance; lra).
  split; [exact Hrf |]. split; [exact exact_wipe_distance |].
  exact (initialize_retraction_budget 0 (gcode_wiper_new exact_args exact_zeros) Hrf Hwd).
Defined.
End ExactEngines.
